(** * demeter: the asset ledger, the pool model and the bar normaliser

    A shallow embedding of
      - [demeter/uniswap/_typing.py]: [UniV3Pool.__init__], [BrokerAsset.add],
        [BrokerAsset.sub], [BrokerAsset.amount_in_wei];
      - [demeter/uniswap/data.py]: [LINE_RULES], [get_line_rules_safe],
        [resample], [fillna];
    together with the part of Python's [decimal] module and of pandas that
    these functions call.

    Modelling decisions.
      - A [Decimal] is a finite decimal number [coef * 10^expo].  Arithmetic
        follows the default context of the [decimal] module: the exact result
        rounded to 28 significant digits, ROUND_HALF_EVEN.  The special values
        (NaN, infinities), the sign of zero and the exponent limits of the
        context (+-999999) are outside the model.
      - The float literal [0.00001] is the binary64 number nearest to it;
        Python compares a [Decimal] with a float exactly.
      - A pandas Series is a list of cells, a missing cell (NaN) is [None];
        cells hold integers, as the fields of [UniLPDataRaw] do.  A column
        without a missing cell has dtype int64; a missing cell is NaN, which
        makes the column float64.  A sum is computed in the arithmetic of the
        dtype, by the compensated loop of pandas' [group_sum]: int64 wraps
        around, float64 rounds to 53 significant bits.  The infinities of
        float64 (beyond 2^1024) are outside the model.
      - A resampler assigns every row to a bar by its timestamp; the bars of
        the result are all the bins from the first occupied one to the last.
        An aggregate skips missing cells; the sum of no value is 0, the other
        aggregates of no value are missing.  The model covers the calls that
        pandas accepts: the index holds timestamps, and the caller's [agg]
        names aggregation methods; every other call raises inside pandas.
      - [Series.fillna] takes a value or a method and raises ValueError when
        it gets both or neither.  [fillna] is modelled for its [value] and
        [method] arguments; [axis], [inplace], [limit] and [downcast] are at
        their defaults. *)

From Stdlib Require Import ZArith QArith Qabs Qround Qpower Lia Lqa List.
From stdpp Require Import base gmap strings list.

Local Open Scope Z_scope.

(** ** Python's [decimal] module, default context *)
Module PyDecimal.

(** [Decimal]: the number [coef * 10^expo]. *)
Record Decimal : Type := mkDecimal { coef : Z; expo : Z }.

(** [decimal.getcontext().prec] *)
Definition prec : Z := 28.

(** The value of a decimal as a rational number. *)
Definition dval (d : Decimal) : Q := (inject_Z (coef d) * (10 # 1) ^ expo d)%Q.

(** [Decimal(n)] for an integer [n]. *)
Definition of_int (n : Z) : Decimal := mkDecimal n 0.

Fixpoint ndigits_fuel (fuel : nat) (n : Z) : Z :=
  match fuel with
  | O => 1
  | S f => if n <? 10 then 1 else 1 + ndigits_fuel f (n / 10)
  end.

(** [len(str(n))] for [n >= 0]: the number of decimal digits, 1 for zero. *)
Definition ndigits (n : Z) : Z := ndigits_fuel (Z.to_nat (Z.log2 n)) n.

(** ROUND_HALF_EVEN of [n / 10^k] for [n >= 0]. *)
Definition round_half_even (n k : Z) : Z :=
  let p := 10 ^ k in
  let q := n / p in
  let r := n mod p in
  if (p <? 2 * r) || ((p =? 2 * r) && Z.odd q) then q + 1 else q.

(** [Decimal._fix]: round to the precision of the context.  A coefficient
    that is rounded up to [10^prec] is shortened by one digit. *)
Definition _fix (d : Decimal) : Decimal :=
  let n := ndigits (Z.abs (coef d)) in
  if n <=? prec then d
  else
    let k := n - prec in
    let c := round_half_even (Z.abs (coef d)) k in
    if ndigits c <=? prec
    then mkDecimal (Z.sgn (coef d) * c) (expo d + k)
    else mkDecimal (Z.sgn (coef d) * (c / 10)) (expo d + k + 1).

(** [a - b]: the exact difference at the smaller exponent, then rounded. *)
Definition sub (a b : Decimal) : Decimal :=
  let e := Z.min (expo a) (expo b) in
  _fix (mkDecimal (coef a * 10 ^ (expo a - e) - coef b * 10 ^ (expo b - e)) e).

(** [a + b] *)
Definition add (a b : Decimal) : Decimal :=
  let e := Z.min (expo a) (expo b) in
  _fix (mkDecimal (coef a * 10 ^ (expo a - e) + coef b * 10 ^ (expo b - e)) e).

(** [a * b] *)
Definition mul (a b : Decimal) : Decimal :=
  _fix (mkDecimal (coef a * coef b) (expo a + expo b)).

(** [a / b] as [Decimal.__truediv__] computes it: the dividend is shifted so
    that the integer quotient has [prec + 1] or [prec + 2] digits, an inexact
    quotient ending in 0 or 5 is bumped by one (sticky digit), and the result
    is rounded by [_fix].  [None] is the DivisionByZero (or InvalidOperation)
    trap.  An exact quotient is left with its trailing zeros: removing them
    towards the ideal exponent does not change the value. *)
Definition div (a b : Decimal) : option Decimal :=
  if coef b =? 0 then None
  else if coef a =? 0 then Some (mkDecimal 0 (expo a - expo b))
  else
    let ma := Z.abs (coef a) in
    let mb := Z.abs (coef b) in
    let shift := ndigits mb - ndigits ma + prec + 1 in
    let e := expo a - expo b - shift in
    let num := if 0 <=? shift then ma * 10 ^ shift else ma in
    let den := if 0 <=? shift then mb else mb * 10 ^ (- shift) in
    let c := num / den in
    let r := num mod den in
    let c' := if (negb (r =? 0)) && (c mod 5 =? 0) then c + 1 else c in
    Some (_fix (mkDecimal (Z.sgn (coef a) * Z.sgn (coef b) * c') e)).

(** [abs(a)]; [Decimal.__abs__] rounds like every other operation. *)
Definition abs (a : Decimal) : Decimal := _fix (mkDecimal (Z.abs (coef a)) (expo a)).

(** [int(a)]: truncation towards zero. *)
Definition to_int (a : Decimal) : Z :=
  if 0 <=? expo a then coef a * 10 ^ expo a
  else Z.quot (coef a) (10 ^ (- expo a)).

(** [a == Decimal(0)], [a != Decimal(0)], [a < Decimal(0)] *)
Definition is_zero (a : Decimal) : bool := coef a =? 0.
Definition lt_zero (a : Decimal) : bool := coef a <? 0.

(** A binary64 float [fmant * 2^fexp2] ([fexp2 <= 0] for the literals here). *)
Record PyFloat : Type := mkFloat { fmant : Z; fexp2 : Z }.
Definition fval (f : PyFloat) : Q := (inject_Z (fmant f) * (2 # 1) ^ fexp2 f)%Q.

(** [a < f] for a float [f]: Python converts the float exactly. *)
Definition lt_float (a : Decimal) (f : PyFloat) : bool :=
  if Qlt_le_dec (dval a) (fval f) then true else false.

End PyDecimal.

(** ** Exceptions and results *)

(** The exceptions the modelled code can raise.  [DemeterError] (a class of
    [demeter/_typing.py], which is not part of the sources) is raised by
    [BrokerAsset.sub] only; it carries the values interpolated into its message
    ["Insufficient balance, balance is {balance}{name}, but sub amount is
    {amount}{name}"].  [DivisionByZero] is the trap of the decimal context,
    the two [ValueError]s are those of [Series.fillna], [KeyError] is a frame
    asked for a column it does not have. *)
Inductive exn : Type :=
  | DemeterError (balance : PyDecimal.Decimal) (name : string) (amount : PyDecimal.Decimal)
  | DivisionByZero
  | ValueError_must_specify      (* Must specify a fill 'value' or 'method'. *)
  | ValueError_cannot_specify_both (* Cannot specify both 'value' and 'method'. *)
  | KeyError (key : string).

Inductive result (A : Type) : Type :=
  | Ok (a : A)
  | Err (e : exn).
Arguments Ok {A} a.
Arguments Err {A} e.

#[global] Instance result_ret : MRet result := fun A a => Ok a.
#[global] Instance result_bind : MBind result := fun A B f m =>
  match m with
  | Ok a => f a
  | Err e => Err e
  end.

(** ** [demeter/uniswap/_typing.py] *)
Module Typing.
Import PyDecimal.

(** Modelled from the spec: [TokenInfo] is imported from [demeter/_typing.py],
    which is not part of the sources; the spec's TokenUnit is
    [{name: string, scale: integer exponent}], and [BrokerAsset.__init__]
    reads the fields [name] and [decimal]. *)
Record TokenInfo : Type := mkTokenInfo { name : string; decimal : Z }.

#[global] Instance TokenInfo_eq_dec : EqDecision TokenInfo.
Proof. solve_decision. Defined.

Record UniV3Pool : Type := mkUniV3Pool {
  token0 : TokenInfo;
  token1 : TokenInfo;
  is_token0_base : bool;
  base_token : TokenInfo;
  tickSpacing : Z;
  fee : Decimal;
  fee_rate : Decimal
}.

(** [UniV3Pool.__init__].  The argument [fee] is the decimal that
    [Decimal(str(fee))] denotes: [str] of a float is its shortest decimal
    literal, of at most 17 significant digits. *)
Definition UniV3Pool_init (token0 token1 : TokenInfo) (fee : Decimal)
    (base_token : TokenInfo) : result UniV3Pool :=
  match div fee (of_int 100) with
  | None => Err DivisionByZero
  | Some rate =>
      Ok {| token0 := token0;
            token1 := token1;
            is_token0_base := bool_decide (base_token = token0);
            base_token := base_token;
            tickSpacing := to_int (mul fee (of_int 200));
            fee := mul fee (of_int 10000);
            fee_rate := rate |}
  end.

Record BrokerAsset : Type := mkBrokerAsset {
  token_info : TokenInfo;
  asset_name : string;
  asset_decimal : Z;
  balance : Decimal
}.

(** [BrokerAsset.__init__] *)
Definition BrokerAsset_init (token : TokenInfo) (init_amount : Decimal) : BrokerAsset :=
  {| token_info := token;
     asset_name := name token;
     asset_decimal := decimal token;
     balance := init_amount |}.

Definition set_balance (self : BrokerAsset) (b : Decimal) : BrokerAsset :=
  {| token_info := token_info self;
     asset_name := asset_name self;
     asset_decimal := asset_decimal self;
     balance := b |}.

(** How a method call on a [BrokerAsset] ends: it returns [self], or an
    exception propagates; either way the object is left in a state. *)
Inductive outcome : Type :=
  | Return (self : BrokerAsset)
  | Raise (e : exn) (self : BrokerAsset).

Definition state_after (o : outcome) : BrokerAsset :=
  match o with
  | Return self => self
  | Raise _ self => self
  end.

(** The float literal [0.00001]: 0x1.4f8b588e368f1p-17. *)
Definition float_0_00001 : PyFloat := mkFloat 5902958103587057 (-69).

(** [BrokerAsset.add] *)
Definition add (self : BrokerAsset) (amount : Decimal) : outcome :=
  Return (set_balance self (PyDecimal.add (balance self) amount)).

(** [BrokerAsset.sub] *)
Definition sub (self : BrokerAsset) (amount : Decimal)
    (allow_negative_balance : bool) : outcome :=
  let base := if negb (is_zero (balance self)) then balance self else amount in
  if is_zero base then Return self
  else if allow_negative_balance
  then Return (set_balance self (PyDecimal.sub (balance self) amount))
  else
    match div (PyDecimal.sub (balance self) amount) base with
    | None => Raise DivisionByZero self
    | Some q =>
        if lt_float (PyDecimal.abs q) float_0_00001
        then Return (set_balance self (of_int 0))
        else if lt_zero (PyDecimal.sub (balance self) amount)
        then Raise (DemeterError (balance self) (asset_name self) amount) self
        else Return (set_balance self (PyDecimal.sub (balance self) amount))
    end.

(** [BrokerAsset.amount_in_wei] *)
Definition amount_in_wei (self : BrokerAsset) : Decimal :=
  mul (balance self) (of_int (10 ^ asset_decimal self)).

End Typing.

(** ** The part of pandas that [data.py] calls *)
Module Pandas.

(** A cell is an integer or missing (NaN). *)
Abbreviation Series := (list (option Z)).

(** [pandas._typing.FillnaOptions] *)
Inductive FillnaOptions : Type := backfill | bfill | ffill | pad.

(** The [value] argument of [Series.fillna]: a scalar, or a Series whose cells
    fill the missing cells at the same position. *)
Inductive FillValue : Type :=
  | Scalar (z : Z)
  | Values (s : Series).

(** The aggregation methods of the column rules. *)
Inductive AggMethod : Type := agg_sum | agg_first | agg_last | agg_min | agg_max.

#[global] Instance AggMethod_eq_dec : EqDecision AggMethod.
Proof. solve_decision. Defined.

(** A frame: the time index (one timestamp per row) and the named columns, in
    column order. *)
Record DataFrame : Type := mkDataFrame {
  index : list Z;
  data : list (string * Series)
}.

(** [df.columns] *)
Definition columns (df : DataFrame) : list string := map fst (data df).

Fixpoint assoc_get (l : list (string * Series)) (c : string) : option Series :=
  match l with
  | [] => None
  | (k, s) :: l' => if String.eqb k c then Some s else assoc_get l' c
  end.

Fixpoint assoc_set (l : list (string * Series)) (c : string) (s : Series)
    : list (string * Series) :=
  match l with
  | [] => [(c, s)]
  | (k, s0) :: l' =>
      if String.eqb k c then (k, s) :: l' else (k, s0) :: assoc_set l' c s
  end.

(** [df[c]] *)
Definition getitem (df : DataFrame) (c : string) : result Series :=
  match assoc_get (data df) c with
  | Some s => Ok s
  | None => Err (KeyError c)
  end.

(** [df[c] = s] *)
Definition setitem (df : DataFrame) (c : string) (s : Series) : DataFrame :=
  {| index := index df; data := assoc_set (data df) c s |}.

(** [c in df.columns] *)
Definition has_column (df : DataFrame) (c : string) : bool :=
  bool_decide (c ∈ columns df).

(** Forward fill: a missing cell takes the last value seen before it; the
    cells before the first value stay missing. *)
Fixpoint pad_from (last : option Z) (s : Series) : Series :=
  match s with
  | [] => []
  | Some v :: s' => Some v :: pad_from (Some v) s'
  | None :: s' => last :: pad_from last s'
  end.

Definition pad_series (s : Series) : Series := pad_from None s.

(** Backward fill: a missing cell takes the next value after it. *)
Fixpoint backfill_series (s : Series) : Series :=
  match s with
  | [] => []
  | c :: s' =>
      let r := backfill_series s' in
      match c with
      | Some v => Some v :: r
      | None => hd None r :: r
      end
  end.

Definition fill_scalar (z : Z) (s : Series) : Series :=
  map (fun c => match c with Some v => Some v | None => Some z end) s.

(** Fill from a Series with the same index: position by position. *)
Fixpoint fill_values (v s : Series) : Series :=
  match s with
  | [] => []
  | c :: s' =>
      match c with
      | Some x => Some x
      | None => hd None v
      end :: fill_values (tl v) s'
  end.

(** [Series.fillna(value, method)] *)
Definition Series_fillna (s : Series) (value : option FillValue)
    (method : option FillnaOptions) : result Series :=
  match value, method with
  | None, None => Err ValueError_must_specify
  | Some _, Some _ => Err ValueError_cannot_specify_both
  | None, Some m =>
      match m with
      | ffill | pad => Ok (pad_series s)
      | bfill | backfill => Ok (backfill_series s)
      end
  | Some (Scalar z), None => Ok (fill_scalar z s)
  | Some (Values v), None => Ok (fill_values v s)
  end.

(** The present cells of a list of cells. *)
Definition present (cells : list (option Z)) : list Z := omap id cells.

(** The dtype of a column of integers: int64 when no cell is missing; a
    missing cell is NaN, which only float64 holds. *)
Inductive dtype : Type := int64 | float64.

Definition dtype_of (s : Series) : dtype :=
  if forallb (fun c : option Z => bool_decide (is_Some c)) s then int64 else float64.

(** int64 arithmetic wraps around. *)
Definition wrap_int64 (z : Z) : Z := (z + 2 ^ 63) mod 2 ^ 64 - 2 ^ 63.

(** float64 arithmetic on integers: the exact result rounded to 53
    significant bits, ties to the even significand. *)
Definition round_float64 (z : Z) : Z :=
  let a := Z.abs z in
  if a <? 2 ^ 53 then z
  else
    let k := Z.log2 a - 52 in
    let q := a / 2 ^ k in
    let r := a mod 2 ^ k in
    let half := 2 ^ (k - 1) in
    let q' := if (half <? r) || ((r =? half) && Z.odd q) then q + 1 else q in
    Z.sgn z * (q' * 2 ^ k).

(** The result of one arithmetic operation in a dtype. *)
Definition arith (d : dtype) (z : Z) : Z :=
  match d with
  | int64 => wrap_int64 z
  | float64 => round_float64 z
  end.

(** One pass of the loop of [group_sum] (pandas/_libs/groupby.pyx), on the
    pair [(sumx, compensation)]:
      y = val - compensation; t = sumx + y;
      compensation = t - sumx - y; sumx = t *)
Definition kahan_step (d : dtype) (acc : Z * Z) (val : Z) : Z * Z :=
  let '(sumx, compensation) := acc in
  let y := arith d (val - compensation) in
  let t := arith d (sumx + y) in
  (t, arith d (arith d (t - sumx) - y)).

(** [group_sum] on the values of one bar: [sumx] after the loop. *)
Definition group_sum (d : dtype) (vals : list Z) : Z :=
  fst (foldl (kahan_step d) (0, 0) vals).

Definition min_list (l : list Z) : option Z :=
  match l with
  | [] => None
  | x :: l' => Some (foldr Z.min x l')
  end.

Definition max_list (l : list Z) : option Z :=
  match l with
  | [] => None
  | x :: l' => Some (foldr Z.max x l')
  end.

(** One aggregated cell of a bar of a column of dtype [d].  Missing cells are
    skipped; the sum of no value is 0, the other aggregates of no value are
    missing. *)
Definition aggregate (d : dtype) (m : AggMethod) (cells : list (option Z))
    : option Z :=
  match m with
  | agg_sum => Some (group_sum d (present cells))
  | agg_first => head (present cells)
  | agg_last => last (present cells)
  | agg_min => min_list (present cells)
  | agg_max => max_list (present cells)
  end.

(** The rows of a column that fall into bar [k], in row order. *)
Fixpoint cells_in_bar (bins : list Z) (s : Series) (k : Z) : list (option Z) :=
  match bins, s with
  | b :: bins', c :: s' =>
      if b =? k then c :: cells_in_bar bins' s' k else cells_in_bar bins' s' k
  | _, _ => []
  end.

(** The bars of a resampled frame: every bin from the first occupied one to
    the last occupied one, the empty ones in between included. *)
Definition bars (bins : list Z) : list Z :=
  match bins with
  | [] => []
  | b :: bins' =>
      let lo := foldr Z.min b bins' in
      let hi := foldr Z.max b bins' in
      seqZ lo (hi - lo + 1)
  end.

(** [df.resample(rule, ...)]: the frame with the bin of every row.  [bin_of]
    maps a timestamp to the number of its bar, as [rule], [closed], [origin]
    and [offset] fix it.  The index holds timestamps: on another index
    [df.resample] raises TypeError, a call outside the model. *)
Record Resampler : Type := mkResampler {
  frame : DataFrame;
  bins : list Z
}.

Definition DataFrame_resample (df : DataFrame) (bin_of : Z -> Z) : Resampler :=
  {| frame := df; bins := map bin_of (index df) |}.

(** One column of the result: a cell per bar. *)
Definition aggregate_column (r : Resampler) (m : AggMethod) (s : Series) : Series :=
  map (fun k => aggregate (dtype_of s) m (cells_in_bar (bins r) s k)) (bars (bins r)).

(** [resampler.agg(agg_dict)]: one row per bar; the columns are those the dict
    names, each aggregated by its method.  A key that is no column of the
    frame is a KeyError. *)
Definition Resampler_agg (r : Resampler) (agg_dict : gmap string AggMethod)
    : result DataFrame :=
  match elements (dom agg_dict ∖ list_to_set (columns (frame r))) with
  | k :: _ => Err (KeyError k)
  | [] =>
      Ok {| index := bars (bins r);
            data := omap (fun '(c, s) =>
                      m ← agg_dict !! c;
                      Some (c, aggregate_column r m s))
                    (data (frame r)) |}
  end.

(** Fixed-width bars, closed on the left, counted from timestamp 0. *)
Definition fixed_width (w : Z) (t : Z) : Z := t / w.

End Pandas.

(** ** [demeter/uniswap/data.py] *)
Module Rule.
(** Modelled from the spec: [Rule] is imported from [demeter/broker], which is
    not part of the sources; [data.py] builds it from three positional
    arguments and reads the fields [agg], [fillna_method] and
    [fillna_value]. *)
Record t : Type := mk {
  agg : option Pandas.AggMethod;
  fillna_method : option Pandas.FillnaOptions;
  fillna_value : option Z
}.
End Rule.

Module Data.
Import Pandas.

Definition DEFAULT_AGG_METHOD : AggMethod := agg_first.
Definition EMPTY_RULE : Rule.t := Rule.mk None None None.

Inductive LineTypeEnum : Type :=
  | timestamp | netAmount0 | netAmount1 | closeTick | openTick | lowestTick
  | highestTick | inAmount0 | inAmount1 | currentLiquidity | other.

(** [LineTypeEnum.x.name] *)
Definition name (e : LineTypeEnum) : string :=
  match e with
  | timestamp => "timestamp"
  | netAmount0 => "netAmount0"
  | netAmount1 => "netAmount1"
  | closeTick => "closeTick"
  | openTick => "openTick"
  | lowestTick => "lowestTick"
  | highestTick => "highestTick"
  | inAmount0 => "inAmount0"
  | inAmount1 => "inAmount1"
  | currentLiquidity => "currentLiquidity"
  | other => "other"
  end.

Definition LINE_RULES : gmap string Rule.t :=
  list_to_map [
    (name timestamp, EMPTY_RULE);
    (name netAmount0, Rule.mk (Some agg_sum) None (Some 0));
    (name netAmount1, Rule.mk (Some agg_sum) None (Some 0));
    (name closeTick, Rule.mk (Some agg_last) (Some ffill) None);
    (name openTick, Rule.mk (Some agg_first) (Some ffill) None);
    (name lowestTick, Rule.mk (Some agg_min) (Some ffill) None);
    (name highestTick, Rule.mk (Some agg_max) (Some ffill) None);
    (name inAmount0, Rule.mk (Some agg_sum) None (Some 0));
    (name inAmount1, Rule.mk (Some agg_sum) None (Some 0));
    (name currentLiquidity, Rule.mk (Some agg_sum) (Some ffill) None)
  ].

Definition get_line_rules_safe (key : string) : Rule.t :=
  match LINE_RULES !! key with
  | Some rule => rule
  | None => EMPTY_RULE
  end.

(** The body of the loop of [resample]: the entry of [agg_dict] for one
    column. *)
Definition agg_method_of (agg : gmap string AggMethod) (column_name : string)
    : AggMethod :=
  let rule := get_line_rules_safe column_name in
  match Rule.agg rule with
  | Some agg_method => agg_method
  | None =>
      match agg !! column_name with
      | Some agg_method => agg_method
      | None => DEFAULT_AGG_METHOD
      end
  end.

Definition build_agg_dict (agg : gmap string AggMethod) (cols : list string)
    : gmap string AggMethod :=
  foldl (fun agg_dict column_name =>
           <[column_name := agg_method_of agg column_name]> agg_dict) ∅ cols.

(** [resample].  [rule] and the arguments passed on with it to
    [df.resample] are the binning [bin_of].  The entries of [agg] name
    aggregation methods: another string in [agg] makes [resampler.agg]
    raise, a call outside the model. *)
Definition resample (df : DataFrame) (bin_of : Z -> Z)
    (agg : option (gmap string AggMethod)) : result DataFrame :=
  let agg := match agg with Some d => d | None => ∅ end in
  let resampler := DataFrame_resample df bin_of in
  let agg_dict := build_agg_dict agg (columns df) in
  Resampler_agg resampler agg_dict.

(** The body of the loop of [fillna]. *)
Definition fillna_column (value : option FillValue) (method : option FillnaOptions)
    (new_df : DataFrame) (column_name : string) : result DataFrame :=
  if String.eqb column_name (name closeTick) then Ok new_df
  else
    let rule := get_line_rules_safe column_name in
    match Rule.fillna_method rule, Rule.fillna_value rule with
    | None, None =>
        col ← getitem new_df column_name;
        filled ← Series_fillna col value method;
        Ok (setitem new_df column_name filled)
    | _, _ =>
        let current_method :=
          match Rule.fillna_method rule with Some m => Some m | None => method end in
        let current_value :=
          match Rule.fillna_value rule with Some z => Some (Scalar z) | None => value end in
        (* all tick related field will be filled with close_tick. *)
        '(current_value, current_method) ←
          (if bool_decide (column_name ∈ [name openTick; name highestTick; name lowestTick])
              && has_column new_df (name closeTick)
           then
             close ← getitem new_df (name closeTick);
             Ok (Some (Values close), None)
           else Ok (current_value, current_method));
        col ← getitem new_df column_name;
        filled ← Series_fillna col current_value current_method;
        Ok (setitem new_df column_name filled)
    end.

Fixpoint fillna_loop (value : option FillValue) (method : option FillnaOptions)
    (cols : list string) (new_df : DataFrame) : result DataFrame :=
  match cols with
  | [] => Ok new_df
  | column_name :: cols' =>
      new_df' ← fillna_column value method new_df column_name;
      fillna_loop value method cols' new_df'
  end.

(** [fillna] *)
Definition fillna (df : DataFrame) (value : option FillValue)
    (method : option FillnaOptions) : result DataFrame :=
  let new_df := df in
  new_df ← (if has_column new_df (name closeTick)
            then
              col ← getitem new_df (name closeTick);
              filled ← Series_fillna col None
                         (Rule.fillna_method (get_line_rules_safe (name closeTick)));
              Ok (setitem new_df (name closeTick) filled)
            else Ok new_df);
  fillna_loop value method (columns new_df) new_df.

End Data.

(** ** Notions used to state the properties *)
Module Notions.
Import PyDecimal Typing Pandas Data.

(** [approx e y x]: [y] is [x] up to the relative error [e]. *)
Definition approx (e y x : Q) : Prop := (Qabs (y - x) <= e * Qabs x)%Q.

(** Half a unit in the 28th digit, and the error bound of one operation. *)
Definition half_ulp : Q := 1 # 2000000000000000000000000000.
Definition eps : Q := 1 # 1000000000000000000000000000.

(** The base of the relative difference: the balance when the balance is not
    zero, otherwise the amount. *)
Definition base_value (B A : Q) : Q := if Qeq_dec B 0 then A else B.

(** The tolerance 1e-5, and a decimal just above the float that the code
    compares with: 0.00001 as a float is 1.0000000000000000818...e-5. *)
Definition tolerance : Q := 1 # 100000.
Definition tolerance_up : Q := 100000000000000009 # 10000000000000000000000.

(** The variable [base] of [BrokerAsset.sub]. *)
Definition sub_base (self : BrokerAsset) (amount : Decimal) : Decimal :=
  if negb (is_zero (balance self)) then balance self else amount.

(** [out] has a value at every row at or after the first value of [src]. *)
Definition filled_from (src out : Series) : Prop :=
  forall (i j : nat) (z : Z),
    (j <= i < length out)%nat -> src !! j = Some (Some z) ->
    exists w, out !! i = Some (Some w).

(** No cell of [s] is missing. *)
Definition no_missing (s : Series) : Prop := Forall is_Some s.

(** The value a cell adds to a sum. *)
Definition cell_value (c : option Z) : Z := default 0 c.

(** The sum of a list of integers, as a number. *)
Definition sum_list (l : list Z) : Z := foldr Z.add 0 l.

(** The values of column [s] in the records of bar [k]: the rows whose
    timestamp [bin_of] maps to [k], the missing cells left out. *)
Definition bar_values (bin_of : Z -> Z) (ix : list Z) (s : Series) (k : Z) : list Z :=
  present (snd <$> filter (fun p : Z * option Z => bin_of p.1 = k) (zip ix s)).

(** Up to 2^53 every integer is an int64 and a float64. *)
Definition exact_bound : Z := 2 ^ 53.

(** The values of column [s] add up, bar by bar and in absolute value, to at
    most [exact_bound]. *)
Definition bars_in_exact_range (bin_of : Z -> Z) (ix : list Z) (s : Series) : Prop :=
  forall k, sum_list (Z.abs <$> bar_values bin_of ix s k) <= exact_bound.

(** The columns of [LINE_RULES] by kind. *)
Definition zero_fill_columns : list string :=
  [name netAmount0; name netAmount1; name inAmount0; name inAmount1].
Definition tick_columns : list string :=
  [name openTick; name highestTick; name lowestTick].
Definition sum_columns : list string :=
  zero_fill_columns ++ [name currentLiquidity].
Definition recognized_columns : list string :=
  name closeTick :: tick_columns ++ sum_columns.

(** What the loop of [fillna] does to one column, given the closeTick column
    of the frame. *)
Definition column_fill (close : option Series) (value : option FillValue)
    (method : option FillnaOptions) (c : string) (s : Series) : result Series :=
  let rule := get_line_rules_safe c in
  match Rule.fillna_method rule, Rule.fillna_value rule with
  | None, None => Series_fillna s value method
  | fm, fv =>
      match close with
      | Some cl =>
          if bool_decide (c ∈ [name openTick; name highestTick; name lowestTick])
          then Series_fillna s (Some (Values cl)) None
          else Series_fillna s
                 (match fv with Some z => Some (Scalar z) | None => value end)
                 (match fm with Some m => Some m | None => method end)
      | None =>
          Series_fillna s
            (match fv with Some z => Some (Scalar z) | None => value end)
            (match fm with Some m => Some m | None => method end)
      end
  end.

End Notions.

(** ** Ledgers and frames used as examples *)
Module Examples.
Import PyDecimal Typing Pandas Data.

Definition usdc : TokenInfo := mkTokenInfo "usdc" 6.
Definition eth : TokenInfo := mkTokenInfo "eth" 18.

(** Balance 100.00000 and the debit 100.00003 of the spec's scenario. *)
Definition ledger_100 : BrokerAsset := BrokerAsset_init usdc (mkDecimal 10000000 (-5)).
Definition debit_100_00003 : Decimal := mkDecimal 10000003 (-5).

(** An empty ledger, and a ledger overdrawn by a debit that allowed it. *)
Definition ledger_empty : BrokerAsset := BrokerAsset_init usdc (of_int 0).
Definition ledger_overdrawn : BrokerAsset :=
  state_after (Typing.sub ledger_empty (of_int 100) true).

(** Balance 100000 and the debit 100001: a relative difference of exactly
    1e-5. *)
Definition ledger_100000 : BrokerAsset := BrokerAsset_init usdc (of_int 100000).

(** Three raw records; the first one has no tick, no record falls into the
    third minute. *)
Definition raw_records : DataFrame :=
  {| index := [0; 70; 190];
     data := [ (name netAmount0, [Some 5; Some 3; Some 4]);
               (name netAmount1, [Some (-7); Some 2; Some 1]);
               (name closeTick, [None; Some 100; Some 105]);
               (name openTick, [None; Some 90; Some 100]);
               (name lowestTick, [None; Some 80; Some 95]);
               (name highestTick, [None; Some 110; Some 120]);
               (name inAmount0, [Some 5; Some 3; Some 4]);
               (name inAmount1, [Some 0; Some 2; Some 1]);
               (name currentLiquidity, [Some 1000; Some 1000; Some 1200]) ] |}.

(** [raw_records] in bars of 60 seconds. *)
Definition minute_bars : DataFrame :=
  {| index := [0; 1; 2; 3];
     data := [ (name netAmount0, [Some 5; Some 3; Some 0; Some 4]);
               (name netAmount1, [Some (-7); Some 2; Some 0; Some 1]);
               (name closeTick, [None; Some 100; None; Some 105]);
               (name openTick, [None; Some 90; None; Some 100]);
               (name lowestTick, [None; Some 80; None; Some 95]);
               (name highestTick, [None; Some 110; None; Some 120]);
               (name inAmount0, [Some 5; Some 3; Some 0; Some 4]);
               (name inAmount1, [Some 0; Some 2; Some 0; Some 1]);
               (name currentLiquidity, [Some 1000; Some 1000; Some 0; Some 1200]) ] |}.

(** [minute_bars] after [fillna] without arguments. *)
Definition minute_bars_filled : DataFrame :=
  {| index := [0; 1; 2; 3];
     data := [ (name netAmount0, [Some 5; Some 3; Some 0; Some 4]);
               (name netAmount1, [Some (-7); Some 2; Some 0; Some 1]);
               (name closeTick, [None; Some 100; Some 100; Some 105]);
               (name openTick, [None; Some 90; Some 100; Some 100]);
               (name lowestTick, [None; Some 80; Some 100; Some 95]);
               (name highestTick, [None; Some 110; Some 100; Some 120]);
               (name inAmount0, [Some 5; Some 3; Some 0; Some 4]);
               (name inAmount1, [Some 0; Some 2; Some 0; Some 1]);
               (name currentLiquidity, [Some 1000; Some 1000; Some 0; Some 1200]) ] |}.

(** Bars without the closeTick column. *)
Definition tick_bars : DataFrame :=
  {| index := [0; 1; 2];
     data := [ (name openTick, [None; Some 5; None]);
               (name highestTick, [None; Some 9; None]);
               (name lowestTick, [None; Some 2; None]) ] |}.

Definition tick_bars_filled : DataFrame :=
  {| index := [0; 1; 2];
     data := [ (name openTick, [None; Some 5; Some 5]);
               (name highestTick, [None; Some 9; Some 9]);
               (name lowestTick, [None; Some 2; Some 2]) ] |}.

(** Bars with a gap in a flow column. *)
Definition flow_bars : DataFrame :=
  {| index := [0; 1]; data := [ (name netAmount0, [Some 5; None]) ] |}.

(** Three records of one minute; the third has no net amount, so the column
    is float64, and 2^53 + 1 is no float64. *)
Definition rounding_records : DataFrame :=
  {| index := [0; 12; 24];
     data := [ (name netAmount0, [Some 9007199254740992; Some 1; None]) ] |}.

Definition rounding_bars : DataFrame :=
  {| index := [0]; data := [ (name netAmount0, [Some 9007199254740992]) ] |}.

(** Three records of one minute, 2^62 each: an int64 column. *)
Definition wrapping_records : DataFrame :=
  {| index := [0; 12; 24];
     data := [ (name netAmount0, [Some 4611686018427387904; Some 4611686018427387904;
                                  Some 4611686018427387904]) ] |}.

(** Raw records with a column that [LINE_RULES] does not name. *)
Definition raw_with_volume : DataFrame :=
  {| index := [0; 10; 70];
     data := [ (name netAmount0, [Some 5; Some 3; Some 4]);
               ("volume"%string, [Some 1; Some 7; Some 3]) ] |}.

End Examples.

(** ** [demeter/uniswap/_typing.py]: positions *)
Module Positions.
Import PyDecimal.

(** Modelled from the spec: [PositionInfo] is imported from
    [demeter/_typing.py], which is not part of the sources; the spec's
    PriceRange is [{lowerTick: integer, upperTick: integer}], and
    [position_dict_to_dataframe] reads the fields [lower_tick] and
    [upper_tick]. *)
Record PositionInfo : Type := mkPositionInfo { lower_tick : Z; upper_tick : Z }.

Record Position : Type := mkPosition {
  pending_amount0 : Decimal;
  pending_amount1 : Decimal;
  liquidity : Z
}.

(** The dict of lists [pos_dict], which becomes the frame. *)
Record PositionFrame : Type := mkPositionFrame {
  col_lower_tick : list Z;
  col_upper_tick : list Z;
  col_pending0 : list Decimal;
  col_pending1 : list Decimal;
  col_liquidity : list Z
}.

(** The body of the loop: five [append]s. *)
Definition append_position (pos_dict : PositionFrame) (kv : PositionInfo * Position)
    : PositionFrame :=
  let '(k, v) := kv in
  {| col_lower_tick := col_lower_tick pos_dict ++ [lower_tick k];
     col_upper_tick := col_upper_tick pos_dict ++ [upper_tick k];
     col_pending0 := col_pending0 pos_dict ++ [pending_amount0 v];
     col_pending1 := col_pending1 pos_dict ++ [pending_amount1 v];
     col_liquidity := col_liquidity pos_dict ++ [liquidity v] |}.

(** [position_dict_to_dataframe]; [positions] is [positions.items()], in the
    order of the dict. *)
Definition position_dict_to_dataframe (positions : list (PositionInfo * Position))
    : PositionFrame :=
  foldl append_position (mkPositionFrame [] [] [] [] []) positions.

End Positions.

(** ** [tests/common.py] *)
Module TestsCommon.
Import PyDecimal.

(** The float literal [0.0005]: 0x1.0624dd2f1a9fcp-11. *)
Definition float_0_0005 : PyFloat := mkFloat 1152921504606847 (-61).

(** [a == b] on decimals: the values are compared, exactly. *)
Definition dec_eqb (a b : Decimal) : bool :=
  let e := Z.min (expo a) (expo b) in
  coef a * 10 ^ (expo a - e) =? coef b * 10 ^ (expo b - e).

(** [assert_equal_with_error], for [Decimal] arguments. *)
Definition assert_equal_with_error (a b : Decimal) (allowed_error : PyFloat)
    : result bool :=
  if dec_eqb a b && is_zero b then Ok true
  else
    let base := if negb (is_zero a) then a else b in
    match div (PyDecimal.sub a b) base with
    | None => Err DivisionByZero
    | Some q => Ok (lt_float (PyDecimal.abs q) allowed_error)
    end.

End TestsCommon.

(** ** More notions and examples *)
Module MoreNotions.
Import PyDecimal Typing Pandas Data Notions Positions.

(** The coefficient of [d] written at the exponent [e]. *)
Definition aligned (d : Decimal) (e : Z) : Z := coef d * 10 ^ (expo d - e).

(** [a + b] needs no rounding: the exact sum, written at the smaller
    exponent, has at most 28 digits. *)
Definition sum_fits (a b : Decimal) : Prop :=
  let e := Z.min (expo a) (expo b) in
  Z.abs (aligned a e + aligned b e) < 10 ^ 28.

(** The slack of the computed relative difference: three roundings. *)
Definition slack : Q := 1 # 100000000000000000000000000.

(** [fillna] column by column: closeTick is forward filled, every other
    column is filled by [column_fill] from the forward-filled closeTick; the
    first column that fails decides the exception. *)
Definition fill_columns (value : option FillValue) (method : option FillnaOptions)
    (close : option Series) (l : list (string * Series))
    : result (list (string * Series)) :=
  mapM (M := result) (fun '(c, s) =>
          if String.eqb c (name closeTick) then Ok (c, pad_series s)
          else s' ← column_fill close value method c s; Ok (c, s')) l.

Definition fill_frame (df : DataFrame) (value : option FillValue)
    (method : option FillnaOptions) : result DataFrame :=
  cols ← fill_columns value method
            (pad_series <$> assoc_get (data df) (name closeTick)) (data df);
  Ok {| index := index df; data := cols |}.

(** The loop of [fillna] on the frame whose closeTick is filled already. *)
Definition loop_columns (value : option FillValue) (method : option FillnaOptions)
    (close : option Series) (l : list (string * Series))
    : result (list (string * Series)) :=
  mapM (M := result) (fun '(c, s) =>
          if String.eqb c (name closeTick) then Ok (c, s)
          else s' ← column_fill close value method c s; Ok (c, s')) l.

(** The arguments that [column_fill] passes to [Series.fillna]. *)
Definition fill_arguments (close : option Series) (value : option FillValue)
    (method : option FillnaOptions) (c : string)
    : option FillValue * option FillnaOptions :=
  let rule := get_line_rules_safe c in
  match Rule.fillna_method rule, Rule.fillna_value rule with
  | None, None => (value, method)
  | fm, fv =>
      match close with
      | Some cl =>
          if bool_decide (c ∈ [name openTick; name highestTick; name lowestTick])
          then (Some (Values cl), None)
          else (match fv with Some z => Some (Scalar z) | None => value end,
                match fm with Some m => Some m | None => method end)
      | None =>
          (match fv with Some z => Some (Scalar z) | None => value end,
           match fm with Some m => Some m | None => method end)
      end
  end.

(** The rows that a [PositionFrame] holds. *)
Fixpoint frame_rows (lo up : list Z) (p0 p1 : list Decimal) (liq : list Z)
    : list (PositionInfo * Position) :=
  match lo, up, p0, p1, liq with
  | l :: lo', u :: up', a :: p0', b :: p1', q :: liq' =>
      (mkPositionInfo l u, mkPosition a b q) :: frame_rows lo' up' p0' p1' liq'
  | _, _, _, _, _ => []
  end.

End MoreNotions.

Module MoreExamples.
Import PyDecimal Typing Pandas Data Positions Examples.

(** A ledger with balance 250.5 and a credit of 100.25. *)
Definition ledger_250 : BrokerAsset := BrokerAsset_init usdc (mkDecimal 2505 (-1)).
Definition credit_100_25 : Decimal := mkDecimal 10025 (-2).

(** A ledger with the dust balance 0.000001 and a credit of 1000. *)
Definition ledger_dust : BrokerAsset := BrokerAsset_init usdc (mkDecimal 1 (-6)).

(** Raw records whose first record has a closing tick. *)
Definition raw_complete : DataFrame :=
  {| index := [0; 70; 190];
     data := [ (name netAmount0, [Some 5; None; Some 4]);
               (name closeTick, [Some 98; Some 100; Some 105]);
               (name openTick, [None; Some 90; Some 100]);
               (name lowestTick, [None; Some 80; Some 95]);
               (name highestTick, [Some 99; None; Some 120]);
               (name currentLiquidity, [None; Some 1000; Some 1200]) ] |}.

(** Bars with a column that [LINE_RULES] does not name. *)
Definition bars_with_volume : DataFrame :=
  {| index := [0; 1];
     data := [ (name closeTick, [Some 100; None]);
               ("volume"%string, [Some 1; None]) ] |}.

(** Bars with a liquidity column. *)
Definition liquidity_bars : DataFrame :=
  {| index := [0; 1];
     data := [ (name currentLiquidity, [Some 1000; None]) ] |}.

Definition two_positions : list (PositionInfo * Position) :=
  [ (mkPositionInfo (-100) 100, mkPosition (mkDecimal 15 (-1)) (of_int 0) 5000);
    (mkPositionInfo 200 260, mkPosition (of_int 0) (mkDecimal 25 (-2)) 70) ].

End MoreExamples.

(** * Facts about the decimal arithmetic *)
Module PyDecimalFacts.
Import PyDecimal Notions.

Lemma ndigits_fuel_spec (fuel : nat) : forall n,
  0 <= n < 2 ^ (Z.of_nat fuel + 1) ->
  1 <= ndigits_fuel fuel n /\
  n < 10 ^ ndigits_fuel fuel n /\
  (0 < n -> 10 ^ (ndigits_fuel fuel n - 1) <= n).
Proof.
  induction fuel as [|f IH]; intros n [Hn0 Hn].
  - simpl in *. change (2 ^ 1) with 2 in Hn. repeat split; lia.
  - cbn [ndigits_fuel]. destruct (Z.ltb_spec n 10) as [Hlt|Hge].
    + repeat split; lia.
    + assert (Hq : 0 <= n / 10 < 2 ^ (Z.of_nat f + 1)).
      { split; [apply Z.div_pos; lia|].
        apply Z.div_lt_upper_bound; [lia|].
        replace (Z.of_nat (S f) + 1) with (Z.succ (Z.of_nat f + 1)) in Hn by lia.
        rewrite Z.pow_succ_r in Hn by lia. lia. }
      destruct (IH _ Hq) as (H1 & H2 & H3).
      set (d := ndigits_fuel f (n / 10)) in *.
      assert (Hq0 : 0 < n / 10) by (apply Z.div_str_pos; lia).
      specialize (H3 Hq0).
      pose proof (Z.div_mod n 10 ltac:(lia)) as Hdm.
      pose proof (Z.mod_pos_bound n 10 ltac:(lia)) as Hmod.
      repeat split; try lia.
      * replace (1 + d) with (Z.succ d) by lia. rewrite Z.pow_succ_r by lia. lia.
      * intros _. replace (1 + d - 1) with (Z.succ (d - 1)) by lia.
        rewrite Z.pow_succ_r by lia. lia.
Qed.

Lemma ndigits_spec n :
  0 <= n ->
  1 <= ndigits n /\ n < 10 ^ ndigits n /\ (0 < n -> 10 ^ (ndigits n - 1) <= n).
Proof.
  intros Hn. unfold ndigits. apply ndigits_fuel_spec.
  split; [lia|].
  destruct (Z.eq_dec n 0) as [->|Hne].
  - simpl. lia.
  - rewrite Z2Nat.id by apply Z.log2_nonneg.
    replace (Z.log2 n + 1) with (Z.succ (Z.log2 n)) by lia.
    apply Z.log2_spec. lia.
Qed.

Lemma round_half_even_spec n k :
  0 <= n -> 0 <= k ->
  0 <= round_half_even n k /\
  2 * Z.abs (round_half_even n k * 10 ^ k - n) <= 10 ^ k.
Proof.
  intros Hn Hk. unfold round_half_even.
  assert (Hp : 0 < 10 ^ k) by (apply Z.pow_pos_nonneg; lia).
  set (p := 10 ^ k) in *.
  pose proof (Z.div_mod n p ltac:(lia)) as Hdm.
  pose proof (Z.mod_pos_bound n p Hp) as Hmod.
  assert (Hq : 0 <= n / p) by (apply Z.div_pos; lia).
  destruct (Z.ltb_spec p (2 * (n mod p))) as [H1|H1]; cbn [orb].
  - split; [lia|]. nia.
  - destruct (Z.eqb_spec p (2 * (n mod p))) as [H2|H2]; cbn [andb].
    + destruct (Z.odd (n / p)); split; try lia; nia.
    + split; [lia|]. nia.
Qed.

(** The shape of a rounded decimal: the coefficient is cut by [j] digits, the
    cut is at most half a unit of the last kept digit, and at most 28 digits
    are kept. *)
Lemma fix_shape d :
  exists c j,
    0 <= j /\ _fix d = mkDecimal c (expo d + j) /\
    2 * 10 ^ 27 * Z.abs (c * 10 ^ j - coef d) <= Z.abs (coef d) /\
    Z.sgn c = Z.sgn (coef d) /\ Z.abs c < 10 ^ 28.
Proof.
  destruct d as [m e]. unfold _fix, prec. cbn [coef expo].
  pose proof (ndigits_spec (Z.abs m) (Z.abs_nonneg m)) as (Hn1 & Hn2 & Hn3).
  set (n := ndigits (Z.abs m)) in *.
  destruct (Z.leb_spec n 28) as [Hle|Hgt].
  - exists m, 0. rewrite Z.add_0_r, Z.pow_0_r, Z.mul_1_r, Z.sub_diag.
    repeat split; try lia.
    apply Z.lt_le_trans with (1 := Hn2). apply Z.pow_le_mono_r; lia.
  - set (k := n - 28) in *.
    assert (Hk : 0 < k) by lia.
    pose proof (round_half_even_spec (Z.abs m) k (Z.abs_nonneg m) ltac:(lia)) as [Hc0 Hc].
    set (c0 := round_half_even (Z.abs m) k) in *.
    assert (Hp : 0 < 10 ^ k) by (apply Z.pow_pos_nonneg; lia).
    assert (Hm0 : 0 < Z.abs m).
    { destruct (Z.eq_dec (Z.abs m) 0) as [E|E]; [|lia].
      exfalso. subst k n. rewrite E in Hgt. change (ndigits 0) with 1 in Hgt. lia. }
    specialize (Hn3 Hm0).
    replace (n - 1) with (27 + k) in Hn3 by lia.
    replace n with (28 + k) in Hn2 by lia.
    rewrite Z.pow_add_r in Hn2, Hn3 by lia.
    set (p := 10 ^ k) in *.
    change (10 ^ 27) with 1000000000000000000000000000 in *.
    change (10 ^ 28) with 10000000000000000000000000000 in *.
    assert (Hc0pos : 0 < c0) by nia.
    assert (Hc0le : c0 <= 10000000000000000000000000000) by nia.
    pose proof (ndigits_spec c0 ltac:(lia)) as (Hd1 & Hd2 & Hd3).
    specialize (Hd3 Hc0pos).
    destruct (Z.leb_spec (ndigits c0) 28) as [Hle'|Hgt'].
    + exists (Z.sgn m * c0), k. split; [lia|]. split; [reflexivity|].
      assert (Hlt : c0 < 10000000000000000000000000000).
      { apply Z.lt_le_trans with (1 := Hd2).
        change 10000000000000000000000000000 with (10 ^ 28).
        apply Z.pow_le_mono_r; lia. }
      destruct m as [|m|m]; cbn [Z.sgn Z.abs] in *; lia.
    + assert (Hge : 10000000000000000000000000000 <= c0).
      { apply Z.le_trans with (2 := Hd3).
        change 10000000000000000000000000000 with (10 ^ 28).
        apply Z.pow_le_mono_r; lia. }
      assert (Hceq : c0 = 10000000000000000000000000000) by lia.
      exists (Z.sgn m * (c0 / 10)), (k + 1). split; [lia|].
      split; [f_equal; lia|].
      rewrite Hceq in *.
      change (10000000000000000000000000000 / 10) with 1000000000000000000000000000.
      rewrite Z.pow_add_r by lia. change (10 ^ 1) with 10. fold p.
      destruct m as [|m|m]; cbn [Z.sgn Z.abs] in *; lia.
Qed.

(** The shape of a quotient before its final rounding: the integer quotient
    [c] of [num] by [den] has at least 29 digits and is off by less than one
    unit. *)
Lemma div_shape a b :
  coef a <> 0 -> coef b <> 0 ->
  exists c num den s,
    div a b = Some (_fix (mkDecimal (Z.sgn (coef a) * Z.sgn (coef b) * c)
                                   (expo a - expo b - s))) /\
    0 < den /\ 10 ^ 28 * den <= num /\ Z.abs (c * den - num) <= den /\
    ((0 <= s /\ num = Z.abs (coef a) * 10 ^ s /\ den = Z.abs (coef b)) \/
     (s < 0 /\ num = Z.abs (coef a) /\ den = Z.abs (coef b) * 10 ^ (- s))).
Proof.
  intros Ha Hb. unfold div, prec.
  destruct (Z.eqb_spec (coef b) 0) as [|_]; [contradiction|].
  destruct (Z.eqb_spec (coef a) 0) as [|_]; [contradiction|].
  pose proof (ndigits_spec (Z.abs (coef a)) (Z.abs_nonneg _)) as (Ha1 & Ha2 & Ha3).
  pose proof (ndigits_spec (Z.abs (coef b)) (Z.abs_nonneg _)) as (Hb1 & Hb2 & Hb3).
  specialize (Ha3 ltac:(lia)). specialize (Hb3 ltac:(lia)).
  set (ma := Z.abs (coef a)) in *. set (mb := Z.abs (coef b)) in *.
  set (la := ndigits ma) in *. set (lb := ndigits mb) in *.
  set (s := lb - la + 28 + 1).
  set (num := if 0 <=? s then ma * 10 ^ s else ma).
  set (den := if 0 <=? s then mb else mb * 10 ^ (- s)).
  assert (Hden : 0 < den /\ 10 ^ 28 * den <= num /\
          ((0 <= s /\ num = ma * 10 ^ s /\ den = mb) \/
           (s < 0 /\ num = ma /\ den = mb * 10 ^ (- s)))).
  { subst num den. destruct (Z.leb_spec 0 s) as [Hs|Hs].
    - split; [lia|]. split; [|left; auto].
      assert (E : 10 ^ (la - 1) * 10 ^ s = 10 ^ 28 * 10 ^ lb).
      { rewrite <- !Z.pow_add_r by lia. f_equal. lia. }
      assert (0 < 10 ^ s) by (apply Z.pow_pos_nonneg; lia).
      nia.
    - assert (Hp : 0 < 10 ^ (- s)) by (apply Z.pow_pos_nonneg; lia).
      split; [nia|]. split; [|right; auto].
      assert (E : 10 ^ (la - 1) = 10 ^ 28 * (10 ^ lb * 10 ^ (- s))).
      { rewrite <- !Z.pow_add_r by lia. f_equal. lia. }
      nia. }
  destruct Hden as (Hden & Hnum & Hcase).
  pose proof (Z.div_mod num den ltac:(lia)) as Hdm.
  pose proof (Z.mod_pos_bound num den Hden) as Hmod.
  eexists _, num, den, s. split; [reflexivity|].
  split; [exact Hden|]. split; [exact Hnum|]. split; [|exact Hcase].
  destruct (negb (num mod den =? 0) && (num / den mod 5 =? 0)); nia.
Qed.

Local Open Scope Q_scope.

Lemma pow10_pos e : 0 < (10 # 1) ^ e.
Proof. apply Qpower_0_lt. reflexivity. Qed.

Lemma pow10_add a b : (10 # 1) ^ (a + b) == (10 # 1) ^ a * (10 # 1) ^ b.
Proof. apply Qpower_plus. discriminate. Qed.

Lemma pow10_inject k : (0 <= k)%Z -> (10 # 1) ^ k == inject_Z (10 ^ k).
Proof. intros Hk. rewrite Zpower_Qpower by exact Hk. reflexivity. Qed.

Lemma dval_shift c e j :
  (0 <= j)%Z ->
  dval (mkDecimal c (e + j)) == inject_Z (c * 10 ^ j) * (10 # 1) ^ e.
Proof.
  intros Hj. unfold dval. cbn [coef expo].
  rewrite pow10_add, (pow10_inject j Hj), inject_Z_mult. ring.
Qed.

#[global] Instance approx_proper e : Proper (Qeq ==> Qeq ==> iff) (approx e).
Proof. intros y y' Hy x x' Hx. unfold approx. rewrite Hy, Hx. reflexivity. Qed.

Lemma Qabs_inject_Z z : Qabs (inject_Z z) = inject_Z (Z.abs z).
Proof. reflexivity. Qed.

Lemma approx_scaled (K : positive) (a b : Z) (p : Q) :
  0 < p ->
  (Z.pos K * Z.abs (a - b) <= Z.abs b)%Z ->
  approx (1 # K) (inject_Z a * p) (inject_Z b * p).
Proof.
  intros Hp H. unfold approx.
  assert (E : inject_Z a * p - inject_Z b * p == inject_Z (a - b) * p)
    by (unfold Z.sub; rewrite inject_Z_plus, inject_Z_opp; ring).
  rewrite E.
  rewrite !Qabs_Qmult, !Qabs_inject_Z, (Qabs_pos p) by (apply Qlt_le_weak, Hp).
  rewrite Qmult_assoc. apply Qmult_le_compat_r; [|apply Qlt_le_weak, Hp].
  unfold Qle. cbn [Qnum Qden Qmult inject_Z]. lia.
Qed.

Lemma fix_approx d : approx half_ulp (dval (_fix d)) (dval d).
Proof.
  destruct (fix_shape d) as (c & j & Hj & Heq & Hb & _ & _).
  change (2 * 10 ^ 27)%Z with (Z.pos 2000000000000000000000000000) in Hb.
  pose proof (approx_scaled _ (c * 10 ^ j) (coef d) ((10 # 1) ^ expo d)
                (pow10_pos _) Hb) as H.
  rewrite Heq, dval_shift by exact Hj. exact H.
Qed.

Lemma Qabs_upper y x : Qabs y <= Qabs x + Qabs (y - x).
Proof.
  assert (E : y == x + (y - x)) by ring.
  rewrite E at 1. apply Qabs_triangle.
Qed.

Lemma Qabs_lower y x : Qabs x - Qabs (y - x) <= Qabs y.
Proof.
  pose proof (Qabs_upper x y) as H. rewrite (Qabs_Qminus x y) in H. lra.
Qed.

Lemma Qabs_tri3 z y x : Qabs (z - x) <= Qabs (z - y) + Qabs (y - x).
Proof.
  assert (E : z - x == (z - y) + (y - x)) by ring.
  rewrite E. apply Qabs_triangle.
Qed.

(** A quotient that is within [10^-28] of the exact one, once rounded, is
    within [eps]. *)
Lemma fix_after_approx p x :
  approx (1 # 10000000000000000000000000000) (dval p) x ->
  approx eps (dval (_fix p)) x.
Proof.
  intros H. pose proof (fix_approx p) as Hf. unfold approx, half_ulp, eps in *.
  pose proof (Qabs_tri3 (dval (_fix p)) (dval p) x).
  pose proof (Qabs_upper (dval p) x).
  pose proof (Qabs_nonneg x).
  lra.
Qed.

Lemma inject_Z_nonzero z : z <> 0%Z -> ~ inject_Z z == 0.
Proof. intros H E. apply H. unfold Qeq in E. simpl in E. lia. Qed.

Lemma dval_zero d : dval d == 0 <-> coef d = 0%Z.
Proof.
  unfold dval. pose proof (pow10_pos (expo d)) as Hp. split; intros H.
  - apply Qmult_integral in H. destruct H as [H|H].
    + unfold Qeq in H. simpl in H. lia.
    + rewrite H in Hp. discriminate.
  - rewrite H. ring.
Qed.

Lemma div_approx a b :
  coef b <> 0%Z ->
  exists q, div a b = Some q /\ approx eps (dval q) (dval a / dval b).
Proof.
  intros Hb. destruct (Z.eq_dec (coef a) 0%Z) as [Ha|Ha].
  - exists (mkDecimal 0 (expo a - expo b)). split.
    + unfold div. destruct (Z.eqb_spec (coef b) 0%Z) as [|_]; [contradiction|].
      rewrite Ha. reflexivity.
    + assert (E1 : dval (mkDecimal 0 (expo a - expo b)) == 0)
        by (apply dval_zero; reflexivity).
      assert (E2 : dval a / dval b == 0).
      { apply dval_zero in Ha. rewrite Ha. unfold Qdiv. ring. }
      rewrite E1, E2. unfold approx. vm_compute. discriminate.
  - destruct (div_shape a b Ha Hb) as (c & num & den & s & Hdiv & Hden & Hnum & Hc & Hcase).
    eexists. split; [exact Hdiv|]. apply fix_after_approx.
    set (sg := (Z.sgn (coef a) * Z.sgn (coef b))%Z) in *.
    set (e := (expo a - expo b - s)%Z).
    assert (Hsg : (sg = 1 \/ sg = -1)%Z) by (subst sg; lia).
    assert (Hcross : (coef a * Z.abs (coef b) = sg * Z.abs (coef a) * coef b)%Z)
      by (subst sg; nia).
    pose proof (pow10_pos e) as He.
    pose proof (pow10_pos (expo b)) as Hpb.
    pose proof (pow10_pos s) as Hps.
    pose proof (inject_Z_nonzero den ltac:(lia)) as Hdq.
    assert (Ht : 0 < (10 # 1) ^ e / inject_Z den).
    { apply Qlt_shift_div_l; [|rewrite Qmult_0_l; exact He].
      unfold Qlt. simpl. lia. }
    assert (Hy : dval (mkDecimal (sg * c) e)
                 == inject_Z (sg * c * den) * ((10 # 1) ^ e / inject_Z den)).
    { unfold dval. cbn [coef expo]. rewrite (inject_Z_mult (sg * c) den).
      field. exact Hdq. }
    assert (Hx : dval a / dval b
                 == inject_Z (sg * num) * ((10 # 1) ^ e / inject_Z den)).
    { unfold dval.
      assert (Epow : (10 # 1) ^ expo a == (10 # 1) ^ e * (10 # 1) ^ expo b * (10 # 1) ^ s).
      { rewrite <- !pow10_add. subst e.
        replace (expo a - expo b - s + expo b + s)%Z with (expo a) by lia.
        reflexivity. }
      pose proof (inject_Z_nonzero _ Hb) as Hbq.
      pose proof (inject_Z_nonzero (Z.abs (coef b)) ltac:(lia)) as Hmbq.
      assert (Hcq : inject_Z (coef a) * inject_Z (Z.abs (coef b))
                    == inject_Z sg * inject_Z (Z.abs (coef a)) * inject_Z (coef b)).
      { rewrite <- !inject_Z_mult, Hcross. reflexivity. }
      assert (Hq : inject_Z (coef a) / inject_Z (coef b)
                   == inject_Z sg * inject_Z (Z.abs (coef a)) / inject_Z (Z.abs (coef b))).
      { apply Qmult_inj_r with (z := inject_Z (coef b) * inject_Z (Z.abs (coef b))).
        - intros E. apply Qmult_integral in E. tauto.
        - transitivity (inject_Z (coef a) * inject_Z (Z.abs (coef b))); [field; exact Hbq|].
          rewrite Hcq. field. exact Hmbq. }
      rewrite Epow.
      transitivity (inject_Z (coef a) / inject_Z (coef b) * ((10 # 1) ^ e * (10 # 1) ^ s)).
      { assert (Hpbq : ~ (10 # 1) ^ expo b == 0)
          by (intros E; rewrite E in Hpb; discriminate).
        field. split; assumption. }
      rewrite Hq.
      destruct Hcase as [(Hs & -> & ->)|(Hs & -> & ->)].
      - rewrite !inject_Z_mult, <- (pow10_inject s Hs). field. exact Hmbq.
      - assert (Hinv : (10 # 1) ^ s * inject_Z (10 ^ (- s)) == 1).
        { rewrite <- pow10_inject by lia. rewrite <- pow10_add.
          replace (s + - s)%Z with 0%Z by lia. reflexivity. }
        pose proof (inject_Z_nonzero (10 ^ (- s))
                      ltac:(pose proof (Z.pow_pos_nonneg 10 (- s)); lia)) as Hnq.
        rewrite !inject_Z_mult.
        apply Qmult_inj_r with (z := inject_Z (Z.abs (coef b)) * inject_Z (10 ^ (- s))).
        + intros E. apply Qmult_integral in E. tauto.
        + transitivity (inject_Z sg * inject_Z (Z.abs (coef a)) * (10 # 1) ^ e
                        * ((10 # 1) ^ s * inject_Z (10 ^ (- s)))); [field; exact Hmbq|].
          rewrite Hinv. field. split; assumption. }
    rewrite Hy, Hx. apply approx_scaled; [exact Ht|].
    change (Z.pos 10000000000000000000000000000) with (10 ^ 28)%Z.
    replace (sg * c * den - sg * num)%Z with (sg * (c * den - num))%Z by ring.
    rewrite !Z.abs_mul.
    replace (Z.abs sg) with 1%Z by lia.
    assert (0 <= num)%Z by nia.
    rewrite (Z.abs_eq num) by assumption. nia.
Qed.

Lemma dval_sign_neg d : dval d < 0 <-> (coef d < 0)%Z.
Proof.
  unfold dval. pose proof (pow10_pos (expo d)) as Hp.
  split; intros H.
  - destruct (Z.ltb_spec (coef d) 0) as [|Hge]; [assumption|]. exfalso.
    apply (Qlt_not_le _ _ H). apply Qmult_le_0_compat; [|apply Qlt_le_weak, Hp].
    unfold Qle. simpl. lia.
  - assert (G : inject_Z (coef d) * (10 # 1) ^ expo d < 0 * (10 # 1) ^ expo d).
    { apply Qmult_lt_compat_r; [exact Hp|]. unfold Qlt. simpl. lia. }
    rewrite Qmult_0_l in G. exact G.
Qed.

Lemma fix_sgn d : Z.sgn (coef (_fix d)) = Z.sgn (coef d).
Proof.
  destruct (fix_shape d) as (c & j & _ & Heq & _ & Hs & _).
  rewrite Heq. exact Hs.
Qed.

Lemma is_zero_dval d : is_zero d = true <-> dval d == 0.
Proof.
  unfold is_zero. rewrite dval_zero. apply Z.eqb_eq.
Qed.

(** The difference before rounding is the exact difference. *)
Lemma dval_exact_sub a b :
  let e := Z.min (expo a) (expo b) in
  dval (mkDecimal (coef a * 10 ^ (expo a - e) - coef b * 10 ^ (expo b - e)) e)
  == dval a - dval b.
Proof.
  intros e. unfold dval. cbn [coef expo].
  assert (Ea : (10 # 1) ^ expo a == inject_Z (10 ^ (expo a - e)) * (10 # 1) ^ e).
  { rewrite <- pow10_inject by lia. rewrite <- pow10_add.
    replace (expo a - e + e)%Z with (expo a) by lia. reflexivity. }
  assert (Eb : (10 # 1) ^ expo b == inject_Z (10 ^ (expo b - e)) * (10 # 1) ^ e).
  { rewrite <- pow10_inject by lia. rewrite <- pow10_add.
    replace (expo b - e + e)%Z with (expo b) by lia. reflexivity. }
  rewrite Ea, Eb. unfold Z.sub at 1.
  rewrite inject_Z_plus, inject_Z_opp, !inject_Z_mult. ring.
Qed.

Lemma sub_approx a b :
  approx half_ulp (dval (PyDecimal.sub a b)) (dval a - dval b).
Proof.
  unfold PyDecimal.sub. rewrite <- dval_exact_sub. apply fix_approx.
Qed.

Lemma sub_lt_zero a b :
  lt_zero (PyDecimal.sub a b) = true <-> dval a - dval b < 0.
Proof.
  unfold lt_zero. rewrite Z.ltb_lt, <- dval_exact_sub, dval_sign_neg.
  unfold PyDecimal.sub.
  pose proof (fix_sgn (mkDecimal
    (coef a * 10 ^ (expo a - Z.min (expo a) (expo b))
     - coef b * 10 ^ (expo b - Z.min (expo a) (expo b)))
    (Z.min (expo a) (expo b)))) as H.
  cbn [coef] in *. lia.
Qed.

Lemma abs_approx q : approx half_ulp (dval (PyDecimal.abs q)) (Qabs (dval q)).
Proof.
  unfold PyDecimal.abs.
  assert (E : Qabs (dval q) == dval (mkDecimal (Z.abs (coef q)) (expo q))).
  { unfold dval. cbn [coef expo].
    rewrite Qabs_Qmult, Qabs_inject_Z, (Qabs_pos ((10 # 1) ^ expo q)).
    - reflexivity.
    - apply Qlt_le_weak, pow10_pos. }
  rewrite E. apply fix_approx.
Qed.

Lemma approx_div e y x b : ~ b == 0 -> approx e y x -> approx e (y / b) (x / b).
Proof.
  intros Hb H. unfold approx in *.
  assert (E : y / b - x / b == (y - x) * / b) by (field; exact Hb).
  rewrite E. unfold Qdiv. rewrite !Qabs_Qmult, Qmult_assoc.
  apply Qmult_le_compat_r; [exact H|apply Qabs_nonneg].
Qed.

Lemma lt_float_spec a f : lt_float a f = true <-> dval a < fval f.
Proof.
  unfold lt_float. destruct (Qlt_le_dec (dval a) (fval f)) as [H|H].
  - tauto.
  - split; [discriminate|]. intros H'. exfalso. apply (Qlt_not_le _ _ H' H).
Qed.

(** The relative difference that [BrokerAsset.sub] computes, against the exact
    one: three roundings and one division apart. *)
Lemma relative_difference_bounds (B A base : Decimal) :
  coef base <> 0%Z ->
  exists q,
    div (PyDecimal.sub B A) base = Some q /\
    let x := Qabs ((dval B - dval A) / dval base) in
    let r := dval (PyDecimal.abs q) in
    (1 - (1 # 100000000000000000000000000)) * x <= r /\
    r <= (1 + (1 # 100000000000000000000000000)) * x.
Proof.
  intros Hb.
  destruct (div_approx (PyDecimal.sub B A) base Hb) as (q & Hq & Hqa).
  exists q. split; [exact Hq|]. cbv zeta.
  assert (Hbq : ~ dval base == 0) by (rewrite dval_zero; exact Hb).
  pose proof (approx_div _ _ _ (dval base) Hbq (sub_approx B A)) as H1.
  pose proof (abs_approx q) as H3.
  unfold approx, half_ulp, eps in *.
  rewrite (Qabs_pos (Qabs (dval q)) (Qabs_nonneg _)) in H3.
  set (x := (dval B - dval A) / dval base) in *.
  set (y := dval (PyDecimal.sub B A) / dval base) in *.
  set (z := dval q) in *.
  set (r := dval (PyDecimal.abs q)) in *.
  pose proof (Qabs_upper y x). pose proof (Qabs_lower y x).
  pose proof (Qabs_upper z y). pose proof (Qabs_lower z y).
  pose proof (Qabs_nonneg x). pose proof (Qabs_nonneg y). pose proof (Qabs_nonneg z).
  apply Qabs_diff_Qle_condition in H3.
  split; lra.
Qed.

Lemma ndigits_le_prec n : (0 <= n < 10 ^ 28)%Z -> (ndigits n <= 28)%Z.
Proof.
  intros [H0 H1]. destruct (Z.eq_dec n 0%Z) as [->|Hn]; [vm_compute; discriminate|].
  pose proof (ndigits_spec n H0) as (Hd1 & _ & Hd3). specialize (Hd3 ltac:(lia)).
  destruct (Z.le_gt_cases (ndigits n) 28) as [|Hgt]; [assumption|exfalso].
  assert (10 ^ 28 <= 10 ^ (ndigits n - 1))%Z by (apply Z.pow_le_mono_r; lia).
  lia.
Qed.

Lemma to_int_floor d : (0 <= coef d)%Z -> to_int d = Qfloor (dval d).
Proof.
  intros Hc. unfold to_int, dval. destruct (Z.leb_spec 0%Z (expo d)) as [He|He].
  - rewrite pow10_inject by exact He. rewrite <- inject_Z_mult. symmetry. apply Qfloor_Z.
  - assert (Hp : (0 < 10 ^ (- expo d))%Z) by (apply Z.pow_pos_nonneg; lia).
    rewrite Z.quot_div_nonneg by lia. rewrite Zdiv_Qdiv.
    apply Qfloor_comp. unfold Qdiv.
    assert (E : (10 # 1) ^ expo d == / inject_Z (10 ^ (- expo d))).
    { rewrite <- pow10_inject by lia. rewrite Qpower_opp, Qinv_involutive. reflexivity. }
    rewrite E. reflexivity.
Qed.

Close Scope Q_scope.

End PyDecimalFacts.

(** * The asset ledger and the pool model *)
Module LedgerFacts.
Import PyDecimal Typing Notions Examples PyDecimalFacts.
Local Open Scope Q_scope.

Lemma float_0_00001_value :
  fval float_0_00001 == 5902958103587057 # 590295810358705651712.
Proof. vm_compute. reflexivity. Qed.

Lemma sub_base_value self amount :
  dval (sub_base self amount) == base_value (dval (balance self)) (dval amount).
Proof.
  unfold sub_base, base_value.
  destruct (is_zero (balance self)) eqn:Hz; cbn [negb];
    destruct (Qeq_dec (dval (balance self)) 0) as [E|E]; try reflexivity.
  - exfalso. apply E. apply is_zero_dval. exact Hz.
  - apply is_zero_dval in E. congruence.
Qed.

Lemma sub_base_nonzero self amount :
  ~ (dval (balance self) == 0 /\ dval amount == 0) ->
  coef (sub_base self amount) <> 0%Z.
Proof.
  intros H Hc. apply H. unfold sub_base in Hc.
  destruct (is_zero (balance self)) eqn:Hz; cbn [negb] in Hc.
  - split; [apply is_zero_dval; exact Hz|apply dval_zero; exact Hc].
  - unfold is_zero in Hz. apply Z.eqb_neq in Hz. contradiction.
Qed.

(** The three ways a debit without [allow_negative_balance] ends, with the
    computed relative difference [r] bracketed by the exact one. *)
Lemma sub_cases self amount :
  ~ (dval (balance self) == 0 /\ dval amount == 0) ->
  exists r : Q,
    let x := Qabs ((dval (balance self) - dval amount)
                    / base_value (dval (balance self)) (dval amount)) in
    (1 - (1 # 100000000000000000000000000)) * x <= r /\
    r <= (1 + (1 # 100000000000000000000000000)) * x /\
    Typing.sub self amount false =
      if Qlt_le_dec r (fval float_0_00001)
      then Return (set_balance self (of_int 0))
      else if lt_zero (PyDecimal.sub (balance self) amount)
      then Raise (DemeterError (balance self) (asset_name self) amount) self
      else Return (set_balance self (PyDecimal.sub (balance self) amount)).
Proof.
  intros Hnz. pose proof (sub_base_nonzero self amount Hnz) as Hb.
  destruct (relative_difference_bounds (balance self) amount _ Hb)
    as (q & Hq & Hlo & Hhi).
  exists (dval (PyDecimal.abs q)). cbv zeta in *.
  rewrite <- sub_base_value.
  split; [exact Hlo|]. split; [exact Hhi|].
  unfold Typing.sub. fold (sub_base self amount).
  unfold is_zero at 1. destruct (Z.eqb_spec (coef (sub_base self amount)) 0%Z) as [|_];
    [contradiction|].
  rewrite Hq. unfold lt_float. destruct (Qlt_le_dec _ _); reflexivity.
Qed.

(** A debit whose exact relative difference is below the tolerance snaps the
    balance to zero. *)
Lemma sub_snaps_if self amount :
  ~ (dval (balance self) == 0 /\ dval amount == 0) ->
  Qabs ((dval (balance self) - dval amount)
         / base_value (dval (balance self)) (dval amount)) <= tolerance ->
  Typing.sub self amount false = Return (set_balance self (of_int 0)).
Proof.
  intros Hnz Hx.
  destruct (sub_cases self amount Hnz) as (r & _ & Hhi & ->).
  cbv zeta in Hhi. pose proof float_0_00001_value as Hf.
  destruct (Qlt_le_dec r (fval float_0_00001)) as [_|Hge]; [reflexivity|].
  exfalso. unfold tolerance in Hx. lra.
Qed.

(** An overdraft whose exact relative difference reaches [tolerance_up] is
    refused. *)
Lemma sub_raises_if self amount :
  ~ (dval (balance self) == 0 /\ dval amount == 0) ->
  dval (balance self) - dval amount < 0 ->
  tolerance_up <= Qabs ((dval (balance self) - dval amount)
                         / base_value (dval (balance self)) (dval amount)) ->
  Typing.sub self amount false =
    Raise (DemeterError (balance self) (asset_name self) amount) self.
Proof.
  intros Hnz Hneg Hx.
  destruct (sub_cases self amount Hnz) as (r & Hlo & _ & ->).
  cbv zeta in Hlo. pose proof float_0_00001_value as Hf.
  unfold tolerance_up in Hx.
  destruct (Qlt_le_dec r (fval float_0_00001)) as [Hlt|_]; [exfalso; lra|].
  apply sub_lt_zero in Hneg. rewrite Hneg. reflexivity.
Qed.

(** The only exception of a debit is the insufficient-balance error; it
    leaves the ledger as it was, and it is raised only on an overdraft beyond
    the tolerance. *)
Lemma sub_raises_only_if self amount e self' :
  ~ (dval (balance self) == 0 /\ dval amount == 0) ->
  Typing.sub self amount false = Raise e self' ->
  e = DemeterError (balance self) (asset_name self) amount /\
  self' = self /\
  dval (balance self) - dval amount < 0 /\
  tolerance < Qabs ((dval (balance self) - dval amount)
                     / base_value (dval (balance self)) (dval amount)).
Proof.
  intros Hnz H.
  destruct (Qlt_le_dec tolerance
              (Qabs ((dval (balance self) - dval amount)
                      / base_value (dval (balance self)) (dval amount)))) as [Hx|Hx].
  - destruct (sub_cases self amount Hnz) as (r & _ & _ & Hsub).
    rewrite Hsub in H.
    destruct (Qlt_le_dec r (fval float_0_00001)) as [Hlt|Hge]; [discriminate|].
    destruct (lt_zero (PyDecimal.sub (balance self) amount)) eqn:Hz; [|discriminate].
    inversion H; subst. repeat split; try reflexivity; [|exact Hx].
    apply sub_lt_zero. exact Hz.
  - rewrite (sub_snaps_if self amount Hnz Hx) in H. discriminate.
Qed.

(** C1 (amended): for every ledger with balance B and every debit A with
    allow_negative_balance false, B and A not both zero: if the relative
    difference |(B - A) / base| - the absolute value of the quotient, base = B
    when B is not zero, otherwise A - is below 1e-5, the debit returns and the
    stored balance is exactly Decimal(0). *)
Theorem sub_snaps_within_tolerance (self : BrokerAsset) (amount : Decimal) :
  ~ (dval (balance self) == 0 /\ dval amount == 0) ->
  Qabs ((dval (balance self) - dval amount)
         / base_value (dval (balance self)) (dval amount)) < tolerance ->
  Typing.sub self amount false = Return (set_balance self (of_int 0)).
Proof.
  intros Hnz Hx.
  destruct (sub_cases self amount Hnz) as (r & _ & Hhi & ->).
  cbv zeta in Hhi. pose proof float_0_00001_value as Hf.
  (* r <= (1 + 1e-26) * x < (1 + 1e-26) * 1e-5 < float(0.00001) *)
  destruct (Qlt_le_dec r (fval float_0_00001)) as [_|Hge]; [reflexivity|].
  exfalso. unfold tolerance in Hx. lra.
Qed.

(** The scenario of the spec: balance 100.00000, debit 100.00003. *)
Lemma sub_snaps_within_tolerance_witness :
  ~ (dval (balance ledger_100) == 0 /\ dval debit_100_00003 == 0) /\
  Qabs ((dval (balance ledger_100) - dval debit_100_00003)
         / base_value (dval (balance ledger_100)) (dval debit_100_00003)) < tolerance /\
  Typing.sub ledger_100 debit_100_00003 false
  = Return (set_balance ledger_100 (of_int 0)).
Proof.
  assert (H1 : ~ (dval (balance ledger_100) == 0 /\ dval debit_100_00003 == 0)).
  { intros [H _]. vm_compute in H. discriminate. }
  assert (H2 : Qabs ((dval (balance ledger_100) - dval debit_100_00003)
                 / base_value (dval (balance ledger_100)) (dval debit_100_00003))
               < tolerance).
  { vm_compute. reflexivity. }
  split; [exact H1|]. split; [exact H2|].
  exact (sub_snaps_within_tolerance ledger_100 debit_100_00003 H1 H2).
Defined.

(** C1 as stated fails on a negative balance: with balance -100 and debit 50,
    |B - A| / base is 150 / (-100) = -1.5, which is below 1e-5, but the code
    takes the absolute value of the quotient, 1.5, and raises. *)
Lemma sub_negative_balance_counterexample :
  dval (balance ledger_overdrawn) == - (100 # 1) /\
  Qabs (dval (balance ledger_overdrawn) - dval (of_int 50))
    / base_value (dval (balance ledger_overdrawn)) (dval (of_int 50)) < tolerance /\
  Typing.sub ledger_overdrawn (of_int 50) false
  = Raise (DemeterError (balance ledger_overdrawn) "usdc" (of_int 50)) ledger_overdrawn.
Proof.
  split; [vm_compute; reflexivity|]. split; vm_compute; reflexivity.
Qed.

(** C2 (amended): for every ledger with balance B and every debit A with
    allow_negative_balance false, B and A not both zero, with the relative
    difference x = |(B - A) / base|: if B - A < 0 and x >= 1.00000000000000009e-5
    the debit raises the insufficient-balance error, which carries the
    balance, the token name and the requested amount; whenever a debit raises,
    the error is that one, the ledger is left unchanged, B - A < 0 and
    x > 1e-5. *)
Theorem sub_raises_beyond_tolerance (self : BrokerAsset) (amount : Decimal) :
  ~ (dval (balance self) == 0 /\ dval amount == 0) ->
  (dval (balance self) - dval amount < 0 ->
   tolerance_up <= Qabs ((dval (balance self) - dval amount)
                          / base_value (dval (balance self)) (dval amount)) ->
   Typing.sub self amount false =
     Raise (DemeterError (balance self) (asset_name self) amount) self) /\
  (forall e self',
     Typing.sub self amount false = Raise e self' ->
     e = DemeterError (balance self) (asset_name self) amount /\
     self' = self /\
     dval (balance self) - dval amount < 0 /\
     tolerance < Qabs ((dval (balance self) - dval amount)
                        / base_value (dval (balance self)) (dval amount))).
Proof.
  intros Hnz. split.
  - apply sub_raises_if. exact Hnz.
  - intros e self'. apply sub_raises_only_if. exact Hnz.
Qed.

Lemma sub_raises_beyond_tolerance_witness :
  ~ (dval (balance ledger_100) == 0 /\ dval (of_int 101) == 0) /\
  dval (balance ledger_100) - dval (of_int 101) < 0 /\
  Typing.sub ledger_100 (of_int 101) false
  = Raise (DemeterError (balance ledger_100) "usdc" (of_int 101)) ledger_100.
Proof.
  assert (H1 : ~ (dval (balance ledger_100) == 0 /\ dval (of_int 101) == 0)).
  { intros [H _]. vm_compute in H. discriminate. }
  assert (H2 : dval (balance ledger_100) - dval (of_int 101) < 0).
  { vm_compute. reflexivity. }
  split; [exact H1|]. split; [exact H2|].
  apply (proj1 (sub_raises_beyond_tolerance ledger_100 (of_int 101) H1)).
  - exact H2.
  - vm_compute. discriminate.
Defined.

(** C2 as stated fails on a negative balance: with balance -100 and debit 50
    the debit raises although |B - A| / base = -1.5 is not >= 1e-5. *)
Lemma sub_raises_counterexample :
  Typing.sub ledger_overdrawn (of_int 50) false
  = Raise (DemeterError (balance ledger_overdrawn) "usdc" (of_int 50)) ledger_overdrawn /\
  ~ (dval (balance ledger_overdrawn) - dval (of_int 50) < 0 /\
     tolerance <= Qabs (dval (balance ledger_overdrawn) - dval (of_int 50))
                  / base_value (dval (balance ledger_overdrawn)) (dval (of_int 50))).
Proof.
  split; [vm_compute; reflexivity|].
  intros [_ H]. vm_compute in H. apply H. reflexivity.
Qed.

(** At a relative difference of exactly 1e-5 the debit is not refused either:
    the float 0.00001 is larger than the decimal 0.00001. *)
Example sub_at_exact_tolerance :
  dval (balance ledger_100000) - dval (of_int 100001) < 0 /\
  Qabs (dval (balance ledger_100000) - dval (of_int 100001))
    / base_value (dval (balance ledger_100000)) (dval (of_int 100001)) == tolerance /\
  Typing.sub ledger_100000 (of_int 100001) false
  = Return (set_balance ledger_100000 (of_int 0)).
Proof.
  split; [vm_compute; reflexivity|]. split; vm_compute; reflexivity.
Qed.

(** C10: for every ledger whose balance is zero and every strictly positive
    debit A, a debit with allow_negative_balance false raises the
    insufficient-balance error and leaves the ledger, hence its zero balance,
    unchanged; the relative difference |0 - A| / A is exactly 1. *)
Theorem sub_from_zero_balance_raises (self : BrokerAsset) (amount : Decimal) :
  dval (balance self) == 0 ->
  0 < dval amount ->
  Typing.sub self amount false =
    Raise (DemeterError (balance self) (asset_name self) amount) self /\
  Qabs (dval (balance self) - dval amount) / dval amount == 1.
Proof.
  intros HB HA.
  assert (Hnz : ~ (dval (balance self) == 0 /\ dval amount == 0)).
  { intros [_ E]. rewrite E in HA. discriminate. }
  assert (Hbase : base_value (dval (balance self)) (dval amount) = dval amount).
  { unfold base_value. destruct (Qeq_dec (dval (balance self)) 0); [reflexivity|contradiction]. }
  assert (Hone : Qabs (dval (balance self) - dval amount) / dval amount == 1).
  { rewrite HB. assert (E : 0 - dval amount == - dval amount) by ring.
    rewrite E, Qabs_opp, Qabs_pos by (apply Qlt_le_weak, HA).
    field. intros E'. rewrite E' in HA. discriminate. }
  split; [|exact Hone].
  apply (sub_raises_if self amount Hnz).
  - rewrite HB. lra.
  - rewrite Hbase. unfold Qdiv. rewrite Qabs_Qmult, Qabs_Qinv.
    rewrite (Qabs_pos (dval amount)) by (apply Qlt_le_weak, HA).
    unfold Qdiv in Hone. rewrite Hone. unfold tolerance_up. discriminate.
Qed.

Lemma sub_from_zero_balance_raises_witness :
  dval (balance ledger_empty) == 0 /\
  0 < dval (mkDecimal 5 (-1)) /\
  Typing.sub ledger_empty (mkDecimal 5 (-1)) false
  = Raise (DemeterError (balance ledger_empty) "usdc" (mkDecimal 5 (-1))) ledger_empty.
Proof.
  assert (H1 : dval (balance ledger_empty) == 0) by (vm_compute; reflexivity).
  assert (H2 : 0 < dval (mkDecimal 5 (-1))) by (vm_compute; reflexivity).
  split; [exact H1|]. split; [exact H2|].
  exact (proj1 (sub_from_zero_balance_raises ledger_empty (mkDecimal 5 (-1)) H1 H2)).
Defined.

(** C9: for every non-negative fee given as the decimal literal of a percent
    whose product with 200 fits the 28 digits of the context - every literal
    of at most 25 digits, so every [str] of a float - the constructor returns
    a pool whose tickSpacing is the integer floor(fee * 200). *)
Theorem tickSpacing_is_floor (token0 token1 : TokenInfo) (fee : Decimal)
    (base_token : TokenInfo) :
  (0 <= coef fee)%Z ->
  (coef fee * 200 < 10 ^ 28)%Z ->
  exists pool,
    UniV3Pool_init token0 token1 fee base_token = Ok pool /\
    tickSpacing pool = Qfloor (dval fee * inject_Z 200).
Proof.
  intros H0 H1. unfold UniV3Pool_init.
  destruct (div_approx fee (of_int 100)) as (rate & -> & _); [discriminate|].
  eexists. split; [reflexivity|]. cbn [tickSpacing].
  assert (Hfix : mul fee (of_int 200) = mkDecimal (coef fee * 200) (expo fee)).
  { unfold mul, of_int, _fix. cbn [coef expo]. rewrite Z.add_0_r.
    rewrite Z.abs_eq by lia.
    pose proof (ndigits_le_prec (coef fee * 200) ltac:(lia)) as Hd.
    destruct (Z.leb_spec (ndigits (coef fee * 200)) prec) as [_|Hgt]; [reflexivity|].
    unfold prec in Hgt. lia. }
  rewrite Hfix, to_int_floor by (cbn [coef]; lia).
  apply Qfloor_comp. unfold dval. cbn [coef expo]. rewrite inject_Z_mult. ring.
Qed.

Lemma tickSpacing_is_floor_witness :
  (0 <= coef (mkDecimal 5 (-2)))%Z /\
  (coef (mkDecimal 5 (-2)) * 200 < 10 ^ 28)%Z /\
  exists pool,
    UniV3Pool_init usdc eth (mkDecimal 5 (-2)) usdc = Ok pool /\
    tickSpacing pool = Qfloor (dval (mkDecimal 5 (-2)) * inject_Z 200).
Proof.
  assert (H1 : (0 <= coef (mkDecimal 5 (-2)))%Z) by (vm_compute; discriminate).
  assert (H2 : (coef (mkDecimal 5 (-2)) * 200 < 10 ^ 28)%Z) by (vm_compute; reflexivity).
  split; [exact H1|]. split; [exact H2|].
  exact (tickSpacing_is_floor usdc eth (mkDecimal 5 (-2)) usdc H1 H2).
Defined.

(** The fee tiers 0.05, 0.3 and 1 give the tick spacings 10, 60 and 200. *)
Example tickSpacing_of_fee_tiers :
  (pool ← UniV3Pool_init usdc eth (mkDecimal 5 (-2)) usdc; Ok (tickSpacing pool)) = Ok 10%Z /\
  (pool ← UniV3Pool_init usdc eth (mkDecimal 3 (-1)) usdc; Ok (tickSpacing pool)) = Ok 60%Z /\
  (pool ← UniV3Pool_init usdc eth (mkDecimal 10 (-1)) usdc; Ok (tickSpacing pool)) = Ok 200%Z.
Proof. repeat split; vm_compute; reflexivity. Qed.

Close Scope Q_scope.

End LedgerFacts.

(** * Filling the gaps of the bars *)
Module FillnaFacts.
Import Pandas Data Notions Examples.

Lemma pad_from_length last s : length (pad_from last s) = length s.
Proof.
  revert last. induction s as [|[v|] s IH]; intros last; cbn; [reflexivity| |];
    rewrite IH; reflexivity.
Qed.

Lemma pad_from_some v s : no_missing (pad_from (Some v) s).
Proof.
  unfold no_missing. revert v.
  induction s as [|[x|] s IH]; intros v; cbn; constructor; eauto; apply IH.
Qed.

Lemma pad_from_keeps last s (i : nat) z :
  s !! i = Some (Some z) -> pad_from last s !! i = Some (Some z).
Proof.
  revert last i. induction s as [|[x|] s IH]; intros last [|i] H; cbn in *;
    try discriminate; auto.
Qed.

Lemma pad_from_filled last s : filled_from s (pad_from last s).
Proof.
  revert last. induction s as [|c s IH]; intros last i j z [Hji Hi] Hj.
  - destruct j; discriminate.
  - destruct j as [|j].
    + injection Hj as ->. cbn [pad_from]. destruct i as [|i]; [exists z; reflexivity|].
      rewrite lookup_cons. cbn [pad_from length] in Hi. rewrite pad_from_length in Hi.
      pose proof (pad_from_some z s) as Hall.
      destruct (lookup_lt_is_Some_2 (pad_from (Some z) s) i) as [c Hc];
        [rewrite pad_from_length; lia|].
      rewrite Hc. pose proof (proj1 (Forall_lookup _ _) Hall _ _ Hc) as [w ->]. eauto.
    + destruct i as [|i]; [lia|]. rewrite lookup_cons in Hj.
      destruct c as [x|]; cbn [pad_from length] in *; rewrite lookup_cons;
        eapply IH; eauto; lia.
Qed.

Lemma fill_scalar_length z s : length (fill_scalar z s) = length s.
Proof. unfold fill_scalar. apply length_map. Qed.

Lemma fill_scalar_no_missing z s : no_missing (fill_scalar z s).
Proof.
  unfold no_missing, fill_scalar. apply Forall_map.
  apply Forall_forall. intros [x|] _; cbn; eauto.
Qed.

Lemma fill_scalar_lookup z s (i : nat) :
  fill_scalar z s !! i = (fun c => Some (default z c)) <$> s !! i.
Proof.
  unfold fill_scalar. rewrite list_lookup_fmap.
  destruct (s !! i) as [[x|]|]; reflexivity.
Qed.

Lemma fill_values_length v s : length (fill_values v s) = length s.
Proof. revert v. induction s as [|c s IH]; intros v; cbn; [|rewrite IH]; reflexivity. Qed.

Lemma fill_values_lookup v s (i : nat) c :
  s !! i = Some c ->
  fill_values v s !! i = Some (match c with Some x => Some x | None => v !!! i end).
Proof.
  revert v i. induction s as [|c0 s IH]; intros v [|i] H; cbn in *; try discriminate.
  - injection H as ->. destruct c as [x|]; [reflexivity|].
    destruct v; reflexivity.
  - rewrite (IH _ _ H). destruct c as [x|]; [reflexivity|]. destruct v; reflexivity.
Qed.

Lemma assoc_get_set_eq l c s : assoc_get (assoc_set l c s) c = Some s.
Proof.
  induction l as [|[k s0] l IH]; cbn.
  - rewrite String.eqb_refl. reflexivity.
  - destruct (String.eqb_spec k c) as [->|Hne]; cbn.
    + rewrite String.eqb_refl. reflexivity.
    + destruct (String.eqb_spec k c); [contradiction|]. exact IH.
Qed.

Lemma assoc_get_set_ne l c c' s :
  c <> c' -> assoc_get (assoc_set l c s) c' = assoc_get l c'.
Proof.
  intros Hne. induction l as [|[k s0] l IH]; cbn.
  - destruct (String.eqb_spec c c'); [contradiction|reflexivity].
  - destruct (String.eqb_spec k c) as [->|Hkc]; cbn.
    + destruct (String.eqb_spec c c'); [contradiction|reflexivity].
    + rewrite IH. reflexivity.
Qed.

Lemma assoc_set_keys l c s :
  c ∈ map fst l -> map fst (assoc_set l c s) = map fst l.
Proof.
  induction l as [|[k s0] l IH]; cbn; intros Hin.
  - inversion Hin.
  - destruct (String.eqb_spec k c) as [->|Hkc]; cbn; [reflexivity|].
    f_equal. apply IH. inversion Hin; subst; [contradiction|assumption].
Qed.

Lemma assoc_get_Some_key l c s : assoc_get l c = Some s -> c ∈ map fst l.
Proof.
  induction l as [|[k s0] l IH]; cbn; [discriminate|].
  destruct (String.eqb_spec k c) as [->|Hkc]; intros H.
  - left.
  - right. auto.
Qed.

Lemma assoc_get_key l c : c ∈ map fst l -> exists s, assoc_get l c = Some s.
Proof.
  induction l as [|[k s0] l IH]; cbn; intros Hin.
  - inversion Hin.
  - destruct (String.eqb_spec k c) as [->|Hkc]; [eauto|].
    apply IH. inversion Hin; subst; [contradiction|assumption].
Qed.

Lemma has_column_true df c :
  has_column df c = true <-> exists s, assoc_get (data df) c = Some s.
Proof.
  unfold has_column, columns. rewrite bool_decide_eq_true. split.
  - apply assoc_get_key.
  - intros [s H]. eapply assoc_get_Some_key, H.
Qed.

Lemma has_column_false df c :
  has_column df c = false <-> assoc_get (data df) c = None.
Proof.
  destruct (has_column df c) eqn:H.
  - apply has_column_true in H as [s Hs]. rewrite Hs. split; discriminate.
  - split; [intros _|reflexivity].
    destruct (assoc_get (data df) c) as [s|] eqn:Hs; [|reflexivity].
    assert (has_column df c = true) by (apply has_column_true; eauto). congruence.
Qed.

Lemma fillna_column_spec value method df c :
  fillna_column value method df c =
    if String.eqb c (name closeTick) then Ok df
    else
      match assoc_get (data df) c with
      | None => Err (KeyError c)
      | Some s =>
          match column_fill (assoc_get (data df) (name closeTick)) value method c s with
          | Ok s' => Ok (setitem df c s')
          | Err e => Err e
          end
      end.
Proof.
  unfold fillna_column, column_fill.
  destruct (String.eqb c (name closeTick)); [reflexivity|].
  destruct (Rule.fillna_method (get_line_rules_safe c)) as [fm|],
           (Rule.fillna_value (get_line_rules_safe c)) as [fv|];
    unfold getitem; cbn [mbind result_bind];
    destruct (bool_decide (c ∈ [name openTick; name highestTick; name lowestTick]));
    destruct (has_column df (name closeTick)) eqn:Hh;
    cbn [andb mbind result_bind];
    try (apply has_column_true in Hh as [cl Hcl]; rewrite Hcl);
    try (apply has_column_false in Hh; rewrite Hh);
    cbn [mbind result_bind];
    destruct (assoc_get (data df) c) as [s|]; cbn [mbind result_bind]; try reflexivity;
    match goal with |- context [Series_fillna ?a ?b ?d] =>
      destruct (Series_fillna a b d); reflexivity end.
Qed.

(** The loop of [fillna]: every column it visits is filled by [column_fill]
    from the closeTick column of the frame it started with, the closeTick
    column and the columns it does not visit are left as they are. *)
Lemma fillna_loop_spec value method cols :
  forall df out,
    NoDup cols ->
    fillna_loop value method cols df = Ok out ->
    columns out = columns df /\
    forall c s,
      assoc_get (data df) c = Some s ->
      (c ∈ cols -> c <> name closeTick ->
       exists s', column_fill (assoc_get (data df) (name closeTick)) value method c s = Ok s' /\
                  assoc_get (data out) c = Some s') /\
      (c ∉ cols \/ c = name closeTick -> assoc_get (data out) c = Some s).
Proof.
  induction cols as [|c0 cols IH]; intros df out Hnd Hloop.
  - cbn in Hloop. injection Hloop as <-. split; [reflexivity|].
    intros c s Hs. split; [intros Hin; inversion Hin|auto].
  - cbn [fillna_loop mbind result_bind] in Hloop.
    destruct (fillna_column value method df c0) as [df1|e] eqn:Hcol; [|discriminate].
    cbn [mbind result_bind] in Hloop.
    apply NoDup_cons in Hnd as [Hc0 Hnd].
    destruct (IH df1 out Hnd Hloop) as [Hcols IH'].
    rewrite fillna_column_spec in Hcol.
    destruct (String.eqb_spec c0 (name closeTick)) as [Hclose|Hnclose].
    + injection Hcol as <-. split; [exact Hcols|].
      intros c s Hs. destruct (IH' c s Hs) as [IHa IHb]. split.
      * intros Hin Hne. apply IHa; [|exact Hne].
        apply elem_of_cons in Hin as [->|Hin]; [contradiction|exact Hin].
      * intros [Hnin| ->]; apply IHb; [left|right; reflexivity].
        intros Hin. apply Hnin. right. exact Hin.
    + destruct (assoc_get (data df) c0) as [s0|] eqn:Hs0; [|discriminate].
      destruct (column_fill _ value method c0 s0) as [s0'|e] eqn:Hfill; [|discriminate].
      injection Hcol as <-.
      assert (Hclose1 : assoc_get (data (setitem df c0 s0')) (name closeTick)
                        = assoc_get (data df) (name closeTick)).
      { cbn. apply assoc_get_set_ne. exact Hnclose. }
      split.
      { rewrite Hcols. unfold columns. cbn. apply assoc_set_keys.
        eapply assoc_get_Some_key, Hs0. }
      intros c s Hs. destruct (decide (c = c0)) as [->|Hne].
      * assert (Hs1 : assoc_get (data (setitem df c0 s0')) c0 = Some s0')
          by (cbn; apply assoc_get_set_eq).
        destruct (IH' c0 s0' Hs1) as [_ IHb].
        rewrite Hs0 in Hs. injection Hs as <-. split.
        -- intros _ _. exists s0'. split; [exact Hfill|]. apply IHb. left. exact Hc0.
        -- intros [Hnin| ->]; [|contradiction]. exfalso. apply Hnin. left.
      * assert (Hs1 : assoc_get (data (setitem df c0 s0')) c = Some s)
          by (cbn; rewrite assoc_get_set_ne by congruence; exact Hs).
        destruct (IH' c s Hs1) as [IHa IHb]. rewrite Hclose1 in IHa. split.
        -- intros Hin Hnc. apply IHa; [|exact Hnc].
           apply elem_of_cons in Hin as [->|Hin]; [contradiction|exact Hin].
        -- intros [Hnin| ->]; apply IHb; [left|right; reflexivity].
           intros Hin. apply Hnin. right. exact Hin.
Qed.

Lemma closeTick_fillna_method :
  Rule.fillna_method (get_line_rules_safe (name closeTick)) = Some ffill.
Proof. vm_compute. reflexivity. Qed.

(** [fillna] as a whole: closeTick is forward-filled, every other column is
    filled by [column_fill] from the forward-filled closeTick. *)
Lemma fillna_spec df value method out :
  NoDup (columns df) ->
  fillna df value method = Ok out ->
  columns out = columns df /\
  forall c s,
    assoc_get (data df) c = Some s ->
    if String.eqb c (name closeTick)
    then assoc_get (data out) c = Some (pad_series s)
    else exists s',
           column_fill (pad_series <$> assoc_get (data df) (name closeTick))
             value method c s = Ok s' /\
           assoc_get (data out) c = Some s'.
Proof.
  intros Hnd H. unfold fillna in H. rewrite closeTick_fillna_method in H.
  destruct (has_column df (name closeTick)) eqn:Hh.
  - apply has_column_true in Hh as [sc Hsc].
    unfold getitem in H. rewrite Hsc in H.
    cbn [mbind result_bind Series_fillna] in H.
    set (df1 := setitem df (name closeTick) (pad_series sc)) in *.
    assert (Hcols1 : columns df1 = columns df).
    { unfold columns. cbn. apply assoc_set_keys. eapply assoc_get_Some_key, Hsc. }
    rewrite Hcols1 in H.
    destruct (fillna_loop_spec _ _ _ _ _ Hnd H) as [Hcols Hspec].
    split; [congruence|]. intros c s Hs.
    destruct (String.eqb_spec c (name closeTick)) as [->|Hne].
    + assert (Hs1 : assoc_get (data df1) (name closeTick) = Some (pad_series sc))
        by (cbn; apply assoc_get_set_eq).
      destruct (Hspec _ _ Hs1) as [_ Hb]. rewrite Hsc in Hs. injection Hs as <-.
      apply Hb. right. reflexivity.
    + assert (Hs1 : assoc_get (data df1) c = Some s).
      { unfold df1, setitem. cbn [data]. rewrite assoc_get_set_ne; [exact Hs|].
        intros E. apply Hne. symmetry. exact E. }
      destruct (Hspec _ _ Hs1) as [Ha _].
      rewrite Hsc. cbn [fmap option_fmap option_map].
      replace (Some (pad_series sc)) with (assoc_get (data df1) (name closeTick))
        by (cbn; apply assoc_get_set_eq).
      apply Ha; [|exact Hne].
      apply (assoc_get_Some_key _ _ _ Hs).
  - apply has_column_false in Hh.
    destruct (fillna_loop_spec _ _ _ _ _ Hnd H) as [Hcols Hspec].
    split; [exact Hcols|]. intros c s Hs.
    destruct (String.eqb_spec c (name closeTick)) as [->|Hne]; [congruence|].
    destruct (Hspec _ _ Hs) as [Ha _]. rewrite Hh in *. cbn [fmap option_fmap option_map].
    apply Ha; [|exact Hne]. apply (assoc_get_Some_key _ _ _ Hs).
Qed.

Ltac elem_cases H :=
  repeat (let E := fresh "E" in
          apply elem_of_cons in H as [E|H];
          [try discriminate E; try subst|]);
  try (apply elem_of_nil in H; contradiction).

Lemma unrecognized_rule c :
  c ∉ recognized_columns ->
  Rule.fillna_method (get_line_rules_safe c) = None /\
  Rule.fillna_value (get_line_rules_safe c) = None.
Proof.
  intros Hc. destruct (decide (c = name timestamp)) as [->|Hts]; [split; reflexivity|].
  unfold get_line_rules_safe, LINE_RULES.
  rewrite (not_elem_of_list_to_map_1 (M := gmap string)); [split; reflexivity|].
  cbn [fmap list_fmap fst]. intros Hin. apply Hc. unfold recognized_columns.
  cbn [tick_columns sum_columns zero_fill_columns app].
  elem_cases Hin; try contradiction; set_solver.
Qed.

(** [column_fill] for each kind of column. *)
Lemma column_fill_zero close value method c s :
  c ∈ zero_fill_columns ->
  column_fill close value method c s = Series_fillna s (Some (Scalar 0)) method.
Proof.
  intros Hc. unfold zero_fill_columns in Hc.
  elem_cases Hc; destruct close; vm_compute; reflexivity.
Qed.

Lemma column_fill_liquidity close value method s :
  column_fill close value method (name currentLiquidity) s
  = Series_fillna s value (Some ffill).
Proof. destruct close; vm_compute; reflexivity. Qed.

Lemma column_fill_tick_close cl value method c s :
  c ∈ tick_columns ->
  column_fill (Some cl) value method c s = Series_fillna s (Some (Values cl)) None.
Proof.
  intros Hc. unfold tick_columns in Hc. elem_cases Hc; vm_compute; reflexivity.
Qed.

Lemma column_fill_tick_alone value method c s :
  c ∈ tick_columns ->
  column_fill None value method c s = Series_fillna s value (Some ffill).
Proof.
  intros Hc. unfold tick_columns in Hc. elem_cases Hc; vm_compute; reflexivity.
Qed.

Lemma column_fill_unrecognized close value method c s :
  c ∉ recognized_columns ->
  column_fill close value method c s = Series_fillna s value method.
Proof.
  intros Hc. destruct (unrecognized_rule c Hc) as [H1 H2].
  unfold column_fill. rewrite H1, H2. reflexivity.
Qed.

Lemma column_fill_defaults_ok close c s :
  c ∈ recognized_columns -> exists s', column_fill close None None c s = Ok s'.
Proof.
  intros Hc. unfold recognized_columns in Hc.
  apply elem_of_cons in Hc as [->|Hc]; [destruct close; vm_compute; eauto|].
  apply elem_of_app in Hc as [Hc|Hc].
  - destruct close as [cl|].
    + rewrite column_fill_tick_close by exact Hc. cbn. eauto.
    + rewrite column_fill_tick_alone by exact Hc. cbn. eauto.
  - unfold sum_columns in Hc. apply elem_of_app in Hc as [Hc|Hc].
    + rewrite column_fill_zero by exact Hc. cbn. eauto.
    + apply list_elem_of_singleton in Hc as ->. rewrite column_fill_liquidity. cbn. eauto.
Qed.

Lemma column_fill_tick_ok close method c s :
  c ∈ tick_columns -> exists s', column_fill close None method c s = Ok s'.
Proof.
  intros Hc. destruct close as [cl|].
  - rewrite column_fill_tick_close by exact Hc. cbn. eauto.
  - rewrite column_fill_tick_alone by exact Hc. cbn. eauto.
Qed.

Lemma fillna_loop_ok value method cols :
  forall df,
    (forall c, c ∈ cols -> c ∈ columns df) ->
    (forall c s close, c ∈ cols -> c <> name closeTick ->
       exists s', column_fill close value method c s = Ok s') ->
    exists out, fillna_loop value method cols df = Ok out.
Proof.
  induction cols as [|c0 cols IH]; intros df Hin Hok; [eexists; reflexivity|].
  cbn [fillna_loop]. rewrite fillna_column_spec.
  destruct (String.eqb_spec c0 (name closeTick)) as [Hc|Hc]; cbn [mbind result_bind].
  - apply IH; [|intros; apply Hok; [right|]; assumption].
    intros c H. apply Hin. right. exact H.
  - destruct (assoc_get_key (data df) c0 (Hin c0 ltac:(left))) as [s0 Hs0].
    rewrite Hs0.
    destruct (Hok c0 s0 (assoc_get (data df) (name closeTick)) ltac:(left) Hc) as [s' ->].
    cbn [mbind result_bind]. apply IH; [|intros; apply Hok; [right|]; assumption].
    intros c H. unfold columns. cbn. rewrite assoc_set_keys.
    + apply Hin. right. exact H.
    + apply (Hin c0). left.
Qed.

Lemma fillna_ok df value method :
  (forall c s close, c ∈ columns df -> c <> name closeTick ->
     exists s', column_fill close value method c s = Ok s') ->
  exists out, fillna df value method = Ok out.
Proof.
  intros Hok. unfold fillna. rewrite closeTick_fillna_method.
  destruct (has_column df (name closeTick)) eqn:Hh.
  - apply has_column_true in Hh as [sc Hsc]. unfold getitem. rewrite Hsc.
    cbn [mbind result_bind Series_fillna].
    assert (Hcols : columns (setitem df (name closeTick) (pad_series sc)) = columns df).
    { unfold columns. cbn. apply assoc_set_keys. eapply assoc_get_Some_key, Hsc. }
    rewrite Hcols. apply fillna_loop_ok; [|exact Hok].
    intros c H. rewrite Hcols. exact H.
  - cbn [mbind result_bind]. apply fillna_loop_ok; [auto|exact Hok].
Qed.

Lemma pad_series_filled s : filled_from s (pad_series s).
Proof. apply pad_from_filled. Qed.

Lemma fill_values_filled (cl s : Series) :
  length cl = length s -> filled_from cl (fill_values (pad_series cl) s).
Proof.
  intros Hlen i j z [Hji Hi] Hj. rewrite fill_values_length in Hi.
  destruct (lookup_lt_is_Some_2 s i Hi) as [c Hc].
  rewrite (fill_values_lookup _ _ _ _ Hc). destruct c as [x|]; [eauto|].
  destruct (pad_series_filled cl i j z) as [w Hw]; [|exact Hj|].
  - unfold pad_series. rewrite pad_from_length. lia.
  - exists w. rewrite (list_lookup_total_correct _ _ _ Hw). reflexivity.
Qed.

(** C3 (amended): for every bar table with distinct column names, whenever
    fillna returns a table: the flow columns (netAmount0/1, inAmount0/1) hold
    no missing value; closeTick and currentLiquidity hold a value at every bar
    at or after the first bar where the column had one; openTick, highestTick
    and lowestTick hold a value at every bar at or after the first bar where
    closeTick had one (where the column itself had one, when there is no
    closeTick column); a column outside the nine recognized ones is filled by
    Series.fillna with the caller's value and method only.  And fillna does
    return a table when every column is a recognized one and the caller
    passes neither a value nor a method. *)
Theorem fillna_fills_from_first_value (df : DataFrame) :
  NoDup (columns df) ->
  (Forall (fun c => c ∈ recognized_columns) (columns df) ->
   exists out, fillna df None None = Ok out) /\
  (forall value method out,
     fillna df value method = Ok out ->
     forall c s,
       assoc_get (data df) c = Some s ->
       exists s',
         assoc_get (data out) c = Some s' /\
         (c ∈ zero_fill_columns -> no_missing s') /\
         (c ∈ [name closeTick; name currentLiquidity] -> filled_from s s') /\
         (c ∈ tick_columns ->
          (forall cl, assoc_get (data df) (name closeTick) = Some cl ->
                      length cl = length s -> filled_from cl s') /\
          (assoc_get (data df) (name closeTick) = None -> filled_from s s')) /\
         (c ∉ recognized_columns -> Series_fillna s value method = Ok s')).
Proof.
  intros Hnd. split.
  - intros Hall. apply fillna_ok. intros c s close Hc _.
    apply column_fill_defaults_ok. exact (proj1 (Forall_forall _ _) Hall c Hc).
  - intros value method out Hfill c s Hs.
    destruct (fillna_spec df value method out Hnd Hfill) as [_ Hspec].
    specialize (Hspec c s Hs).
    destruct (String.eqb_spec c (name closeTick)) as [->|Hne].
    + exists (pad_series s). split; [exact Hspec|]. repeat split.
      * intros H. unfold zero_fill_columns in H. elem_cases H.
      * intros _. apply pad_series_filled.
      * intros cl _ _. unfold tick_columns in H. elem_cases H.
      * intros _. apply pad_series_filled.
      * intros H. exfalso. apply H. left.
    + destruct Hspec as (s' & Hcf & Hout). exists s'. split; [exact Hout|].
      repeat split.
      * intros H. rewrite column_fill_zero in Hcf by exact H.
        destruct method; cbn in Hcf; [discriminate|].
        injection Hcf as <-. apply fill_scalar_no_missing.
      * intros H. apply elem_of_cons in H as [->|H]; [contradiction|].
        apply list_elem_of_singleton in H as ->.
        rewrite column_fill_liquidity in Hcf.
        destruct value as [[]|]; cbn in Hcf; try discriminate.
        injection Hcf as <-. apply pad_series_filled.
      * intros cl Hcl Hlen. rewrite Hcl in Hcf. cbn [fmap option_fmap option_map] in Hcf.
        rewrite column_fill_tick_close in Hcf by exact H. cbn in Hcf.
        injection Hcf as <-. apply fill_values_filled.
        unfold pad_series. exact Hlen.
      * intros Hcl. rewrite Hcl in Hcf. cbn [fmap option_fmap option_map] in Hcf.
        rewrite column_fill_tick_alone in Hcf by exact H.
        destruct value as [[]|]; cbn in Hcf; try discriminate.
        injection Hcf as <-. apply pad_series_filled.
      * intros H. rewrite column_fill_unrecognized in Hcf by exact H. exact Hcf.
Qed.

(** C4: whenever fillna returns a table for a table with a closeTick column,
    the closeTick column of the result is the forward fill of the input
    column, and in openTick, highestTick and lowestTick every cell that was
    missing holds the cell of the forward-filled closeTick at the same bar,
    every other cell is unchanged. *)
Theorem fillna_ticks_take_filled_close (df : DataFrame) (value : option FillValue)
    (method : option FillnaOptions) (out : DataFrame) (cl : Series) :
  NoDup (columns df) ->
  fillna df value method = Ok out ->
  assoc_get (data df) (name closeTick) = Some cl ->
  assoc_get (data out) (name closeTick) = Some (pad_series cl) /\
  forall c s,
    c ∈ tick_columns ->
    assoc_get (data df) c = Some s ->
    exists s',
      assoc_get (data out) c = Some s' /\
      length s' = length s /\
      forall i : nat,
        (s !! i = Some None -> s' !! i = Some (pad_series cl !!! i)) /\
        (forall z, s !! i = Some (Some z) -> s' !! i = Some (Some z)).
Proof.
  intros Hnd Hfill Hcl.
  destruct (fillna_spec df value method out Hnd Hfill) as [_ Hspec]. split.
  - specialize (Hspec _ _ Hcl). rewrite String.eqb_refl in Hspec. exact Hspec.
  - intros c s Hc Hs. specialize (Hspec c s Hs).
    destruct (String.eqb_spec c (name closeTick)) as [->|Hne].
    { unfold tick_columns in Hc. elem_cases Hc. }
    destruct Hspec as (s' & Hcf & Hout). exists s'. split; [exact Hout|].
    rewrite Hcl in Hcf. cbn [fmap option_fmap option_map] in Hcf.
    rewrite column_fill_tick_close in Hcf by exact Hc. cbn in Hcf.
    injection Hcf as <-. split; [apply fill_values_length|].
    intros i. split.
    + intros Hi. rewrite (fill_values_lookup _ _ _ _ Hi). reflexivity.
    + intros z Hi. rewrite (fill_values_lookup _ _ _ _ Hi). reflexivity.
Qed.

(** C7 (amended): if the table has no closeTick column and the caller
    passes no value, then whatever method the caller passes: in every table
    that fillna returns, openTick, highestTick and lowestTick are forward
    filled, by their own registered method; and fillna does return a table
    when the table holds tick columns only. *)
Theorem fillna_without_closeTick (df : DataFrame) (method : option FillnaOptions) :
  NoDup (columns df) ->
  assoc_get (data df) (name closeTick) = None ->
  (Forall (fun c => c ∈ tick_columns) (columns df) ->
   exists out, fillna df None method = Ok out) /\
  (forall out c s,
     fillna df None method = Ok out ->
     c ∈ tick_columns ->
     assoc_get (data df) c = Some s ->
     assoc_get (data out) c = Some (pad_series s)).
Proof.
  intros Hnd Hcl. split.
  - intros Hall. apply fillna_ok. intros c s close Hc _.
    apply column_fill_tick_ok. exact (proj1 (Forall_forall _ _) Hall c Hc).
  - intros out c s Hfill Hc Hs.
    destruct (fillna_spec df None method out Hnd Hfill) as [_ Hspec].
    specialize (Hspec c s Hs).
    destruct (String.eqb_spec c (name closeTick)) as [->|Hne]; [congruence|].
    destruct Hspec as (s' & Hcf & Hout).
    rewrite Hcl in Hcf. cbn [fmap option_fmap option_map] in Hcf.
    rewrite column_fill_tick_alone in Hcf by exact Hc. cbn in Hcf.
    injection Hcf as <-. exact Hout.
Qed.

(** A frame with a zero-fill column is never returned when the caller passes
    a method. *)
Lemma fillna_zero_column_method_fails df value m out c s :
  NoDup (columns df) ->
  c ∈ zero_fill_columns ->
  assoc_get (data df) c = Some s ->
  fillna df value (Some m) <> Ok out.
Proof.
  intros Hnd Hc Hs Hfill.
  destruct (fillna_spec df value (Some m) out Hnd Hfill) as [_ Hspec].
  specialize (Hspec c s Hs).
  destruct (String.eqb_spec c (name closeTick)) as [->|Hne].
  { unfold zero_fill_columns in Hc. elem_cases Hc. }
  destruct Hspec as (s' & Hcf & _).
  rewrite column_fill_zero in Hcf by exact Hc. discriminate.
Qed.

Lemma NoDup_minute_bars : NoDup (columns minute_bars).
Proof. apply (bool_decide_unpack _). vm_compute. reflexivity. Qed.

Lemma fillna_minute_bars : fillna minute_bars None None = Ok minute_bars_filled.
Proof. vm_compute. reflexivity. Qed.

Lemma NoDup_tick_bars : NoDup (columns tick_bars).
Proof. apply (bool_decide_unpack _). vm_compute. reflexivity. Qed.

Lemma fillna_tick_bars : fillna tick_bars None (Some bfill) = Ok tick_bars_filled.
Proof. vm_compute. reflexivity. Qed.

Lemma fillna_fills_from_first_value_witness :
  NoDup (columns minute_bars) /\
  fillna minute_bars None None = Ok minute_bars_filled /\
  exists s',
    assoc_get (data minute_bars_filled) (name closeTick) = Some s' /\
    filled_from [None; Some 100; None; Some 105] s'.
Proof.
  split; [exact NoDup_minute_bars|]. split; [exact fillna_minute_bars|].
  destruct (proj2 (fillna_fills_from_first_value minute_bars NoDup_minute_bars)
              None None minute_bars_filled fillna_minute_bars
              (name closeTick) [None; Some 100; None; Some 105] eq_refl)
    as (s' & Hget & _ & Hfilled & _).
  exists s'. split; [exact Hget|]. apply Hfilled. left.
Defined.

(** C3 as stated fails on a leading gap: the first record of [raw_records]
    has no closing tick, so the first bar has none, and the forward fill has
    nothing to carry into it. *)
Lemma fillna_leading_gap_counterexample :
  resample raw_records (fixed_width 60) None = Ok minute_bars /\
  Forall (fun c => c ∈ columns minute_bars) recognized_columns /\
  fillna minute_bars None None = Ok minute_bars_filled /\
  assoc_get (data minute_bars_filled) (name closeTick)
  = Some [None; Some 100; Some 100; Some 105] /\
  ~ no_missing [None; Some 100; Some 100; Some 105].
Proof.
  split; [vm_compute; reflexivity|]. split.
  { apply (bool_decide_unpack _). vm_compute. reflexivity. }
  split; [exact fillna_minute_bars|]. split; [reflexivity|].
  intros H. inversion H as [|? ? [z Hz] _]. discriminate.
Qed.

Lemma fillna_ticks_take_filled_close_witness :
  NoDup (columns minute_bars) /\
  fillna minute_bars None None = Ok minute_bars_filled /\
  assoc_get (data minute_bars) (name closeTick) = Some [None; Some 100; None; Some 105] /\
  assoc_get (data minute_bars_filled) (name closeTick)
  = Some (pad_series [None; Some 100; None; Some 105]).
Proof.
  split; [exact NoDup_minute_bars|]. split; [exact fillna_minute_bars|].
  split; [reflexivity|].
  exact (proj1 (fillna_ticks_take_filled_close minute_bars None None minute_bars_filled
                  [None; Some 100; None; Some 105]
                  NoDup_minute_bars fillna_minute_bars eq_refl)).
Defined.

Lemma fillna_without_closeTick_witness :
  NoDup (columns tick_bars) /\
  assoc_get (data tick_bars) (name closeTick) = None /\
  fillna tick_bars None (Some bfill) = Ok tick_bars_filled /\
  assoc_get (data tick_bars_filled) (name openTick)
  = Some (pad_series [None; Some 5; None]).
Proof.
  split; [exact NoDup_tick_bars|]. split; [reflexivity|].
  split; [exact fillna_tick_bars|].
  apply (proj2 (fillna_without_closeTick tick_bars (Some bfill) NoDup_tick_bars eq_refl)
           tick_bars_filled (name openTick) [None; Some 5; None] fillna_tick_bars).
  - left.
  - reflexivity.
Defined.

(** C7 as stated fails when the caller's method is not a forward fill: with
    the method bfill, the openTick column [NaN, 5, NaN] comes back forward
    filled, [NaN, 5, 5], not backward filled, [5, 5, NaN]. *)
Lemma fillna_default_method_counterexample :
  assoc_get (data tick_bars) (name closeTick) = None /\
  fillna tick_bars None (Some bfill) = Ok tick_bars_filled /\
  assoc_get (data tick_bars_filled) (name openTick) = Some [None; Some 5; Some 5] /\
  Series_fillna [None; Some 5; None] None (Some bfill) = Ok [Some 5; Some 5; None] /\
  [None; Some 5; Some 5] <> [Some 5; Some 5; None].
Proof.
  split; [reflexivity|]. split; [exact fillna_tick_bars|].
  split; [reflexivity|]. split; [reflexivity|]. discriminate.
Qed.

(** C6, the code at the failing input: for the bars [flow_bars], whose
    netAmount0 column is [5, NaN], fillna with the caller's method 'ffill'
    raises the ValueError of Series.fillna for a value together with a method;
    the zero-filled column [5, 0], which the claim and the docstring of
    [fillna] ("if column name is predefined, method and value will be
    omitted") promise, is what the call without a method returns. *)
Theorem fillna_zero_fill_with_method_raises :
  fillna flow_bars None (Some ffill) = Err ValueError_cannot_specify_both /\
  fillna flow_bars None None
  = Ok {| index := [0; 1]; data := [ (name netAmount0, [Some 5; Some 0]) ] |}.
Proof. split; vm_compute; reflexivity. Qed.

End FillnaFacts.

(** * Resampling *)
Module ResampleFacts.
Import Pandas Data Notions Examples FillnaFacts.

Lemma build_agg_dict_foldl (agg : gmap string AggMethod) cols :
  forall (acc : gmap string AggMethod) c,
  foldl (fun agg_dict column_name =>
           <[column_name := agg_method_of agg column_name]> agg_dict) acc cols !! c
  = if bool_decide (c ∈ cols) then Some (agg_method_of agg c) else acc !! c.
Proof.
  induction cols as [|c0 cols IH]; intros acc c; cbn [foldl].
  - rewrite bool_decide_eq_false_2 by apply not_elem_of_nil. reflexivity.
  - rewrite IH. destruct (decide (c ∈ cols)) as [Hin|Hnin].
    + rewrite !bool_decide_eq_true_2; [reflexivity|right; exact Hin|exact Hin].
    + rewrite (bool_decide_eq_false_2 _ Hnin).
      destruct (decide (c = c0)) as [->|Hne].
      * rewrite lookup_insert_eq, bool_decide_eq_true_2 by left. reflexivity.
      * rewrite lookup_insert_ne by congruence.
        rewrite bool_decide_eq_false_2; [reflexivity|].
        intros Hin. apply elem_of_cons in Hin as [?|?]; contradiction.
Qed.

Lemma build_agg_dict_lookup (agg : gmap string AggMethod) cols c :
  build_agg_dict agg cols !! c
  = if bool_decide (c ∈ cols) then Some (agg_method_of agg c) else None.
Proof. unfold build_agg_dict. rewrite build_agg_dict_foldl, lookup_empty. reflexivity. Qed.

Lemma build_agg_dict_dom (agg : gmap string AggMethod) cols :
  dom (build_agg_dict agg cols) ∖ list_to_set cols = (∅ : gset string).
Proof.
  apply set_eq. intros c. rewrite elem_of_difference, elem_of_dom, elem_of_list_to_set.
  rewrite build_agg_dict_lookup. split; [|set_solver].
  intros [[m Hm] Hnin]. rewrite bool_decide_eq_false_2 in Hm by exact Hnin. discriminate.
Qed.

Lemma assoc_get_omap (d : gmap string AggMethod) (g : AggMethod -> Series -> Series) l c :
  (forall k, k ∈ map fst l -> is_Some (d !! k)) ->
  assoc_get (omap (fun '(k, s) => m ← d !! k; Some (k, g m s)) l) c
  = (s ← assoc_get l c; m ← d !! c; Some (g m s)).
Proof.
  induction l as [|[k s] l IH]; intros Hd; [reflexivity|].
  cbn [omap list_omap assoc_get].
  destruct (Hd k ltac:(left)) as [m Hm]. rewrite Hm. cbn [mbind option_bind assoc_get].
  destruct (String.eqb_spec k c) as [->|Hne].
  - rewrite Hm. reflexivity.
  - apply IH. intros k' Hk'. apply Hd. right. exact Hk'.
Qed.

(** [resample] returns a frame; each column is aggregated by the method that
    the loop of [resample] computes for it. *)
Lemma resample_ok df bin_of agg :
  exists out,
    resample df bin_of agg = Ok out /\
    index out = bars (map bin_of (index df)) /\
    forall c s,
      assoc_get (data df) c = Some s ->
      assoc_get (data out) c
      = Some (aggregate_column (DataFrame_resample df bin_of)
                (agg_method_of (default ∅ agg) c) s).
Proof.
  unfold resample, Resampler_agg. cbv zeta.
  change (frame (DataFrame_resample df bin_of)) with df.
  assert (Eagg : match agg with Some d => d | None => ∅ end = default ∅ agg)
    by (destruct agg; reflexivity).
  rewrite Eagg, build_agg_dict_dom, elements_empty.
  eexists. split; [reflexivity|]. split; [reflexivity|].
  intros c s Hs. cbn [data].
  rewrite (assoc_get_omap _ (aggregate_column (DataFrame_resample df bin_of))).
  - rewrite Hs. cbn [mbind option_bind]. rewrite build_agg_dict_lookup.
    rewrite bool_decide_eq_true_2 by (eapply assoc_get_Some_key, Hs). reflexivity.
  - intros k Hk. rewrite build_agg_dict_lookup, bool_decide_eq_true_2 by exact Hk. eauto.
Qed.

(** C8: resample returns a frame, and for every column of the input the
    entry m of agg_dict decides the aggregation: for a column that
    LINE_RULES does not name, m is the caller's agg entry for the column when
    there is one, else "first"; for a column whose rule carries an
    aggregation method, m is that method whatever the caller's agg holds. *)
Theorem resample_column_method (df : DataFrame) (bin_of : Z -> Z)
    (agg : option (gmap string AggMethod)) (c : string) (s : Series) :
  assoc_get (data df) c = Some s ->
  exists out m,
    resample df bin_of agg = Ok out /\
    build_agg_dict (default ∅ agg) (columns df) !! c = Some m /\
    assoc_get (data out) c = Some (aggregate_column (DataFrame_resample df bin_of) m s) /\
    (LINE_RULES !! c = None ->
     m = match default ∅ agg !! c with
         | Some agg_method => agg_method
         | None => DEFAULT_AGG_METHOD
         end) /\
    (forall rule agg_method,
       LINE_RULES !! c = Some rule -> Rule.agg rule = Some agg_method ->
       m = agg_method).
Proof.
  intros Hs. destruct (resample_ok df bin_of agg) as (out & Hout & _ & Hcol).
  exists out, (agg_method_of (default ∅ agg) c).
  split; [exact Hout|]. split.
  { rewrite build_agg_dict_lookup, bool_decide_eq_true_2; [reflexivity|].
    eapply assoc_get_Some_key, Hs. }
  split; [exact (Hcol c s Hs)|]. unfold agg_method_of, get_line_rules_safe. split.
  - intros ->. reflexivity.
  - intros rule m -> ->. reflexivity.
Qed.

Lemma foldr_min_max_bounds (x : Z) (l : list Z) b :
  b ∈ x :: l -> foldr Z.min x l <= b <= foldr Z.max x l.
Proof.
  induction l as [|y l IH]; intros Hb.
  - apply list_elem_of_singleton in Hb as ->. cbn. lia.
  - cbn [foldr]. apply elem_of_cons in Hb as [->|Hb].
    + specialize (IH ltac:(left)). lia.
    + apply elem_of_cons in Hb as [->|Hb]; [lia|].
      specialize (IH ltac:(right; exact Hb)). lia.
Qed.

Lemma bars_cover bins b : b ∈ bins -> b ∈ bars bins.
Proof.
  destruct bins as [|x l]; intros Hb; [inversion Hb|].
  unfold bars. apply elem_of_seqZ.
  pose proof (foldr_min_max_bounds x l b Hb). lia.
Qed.

Lemma NoDup_bars bins : NoDup (bars bins).
Proof.
  destruct bins as [|x l]; [constructor|]. unfold bars. apply NoDup_seqZ.
Qed.

Lemma sum_present_cons c l :
  sum_list (present (c :: l)) = cell_value c + sum_list (present l).
Proof. destruct c; reflexivity. Qed.

Lemma sum_indicator (K : list Z) b v :
  NoDup K -> b ∈ K ->
  sum_list (map (fun k => if b =? k then v else 0) K) = v.
Proof.
  induction K as [|k K IH]; intros Hnd Hb; [inversion Hb|].
  apply NoDup_cons in Hnd as [Hk Hnd]. cbn [map sum_list foldr].
  destruct (Z.eqb_spec b k) as [->|Hne].
  - assert (E : sum_list (map (fun k0 => if k =? k0 then v else 0) K) = 0).
    { clear IH Hb Hnd. induction K as [|k' K IH]; [reflexivity|].
      cbn [map sum_list foldr]. destruct (Z.eqb_spec k k') as [->|_].
      - exfalso. apply Hk. left.
      - fold (sum_list (map (fun k0 => if k =? k0 then v else 0) K)).
        rewrite IH; [lia|]. intros H. apply Hk. right. exact H. }
    fold (sum_list (map (fun k0 => if k =? k0 then v else 0) K)). lia.
  - fold (sum_list (map (fun k0 => if b =? k0 then v else 0) K)).
    rewrite IH; [lia|exact Hnd|].
    apply elem_of_cons in Hb as [?|?]; [contradiction|assumption].
Qed.

Lemma sum_list_map_add (f g : Z -> Z) K :
  sum_list (map (fun k => f k + g k) K) = sum_list (map f K) + sum_list (map g K).
Proof.
  induction K as [|k K IH]; [reflexivity|]. cbn [map sum_list foldr].
  fold (sum_list (map (fun k => f k + g k) K)).
  fold (sum_list (map f K)). fold (sum_list (map g K)). lia.
Qed.

(** The bars partition the rows: summing the per-bar sums over any duplicate
    free list of bars that covers the bins gives the sum of the column. *)
Lemma sum_cells_partition (K : list Z) :
  NoDup K ->
  forall (s : Series) (bins : list Z),
    length s = length bins ->
    (forall b, b ∈ bins -> b ∈ K) ->
    sum_list (map (fun k => sum_list (present (cells_in_bar bins s k))) K)
    = sum_list (present s).
Proof.
  intros Hnd. induction s as [|c s IH]; intros bins Hlen Hcover.
  - destruct bins; [|discriminate]. clear.
    induction K as [|k K IH]; [reflexivity|]. cbn [map]. unfold sum_list at 1.
    cbn [foldr]. fold (sum_list (map (fun k => sum_list (present (cells_in_bar [] [] k))) K)).
    rewrite IH. reflexivity.
  - destruct bins as [|b bins]; [discriminate|].
    rewrite sum_present_cons, <- (IH bins).
    + rewrite <- (sum_indicator K b (cell_value c) Hnd (Hcover b ltac:(left))).
      rewrite <- sum_list_map_add. f_equal. apply map_ext. intros k.
      cbn [cells_in_bar]. destruct (b =? k); [apply sum_present_cons|lia].
    + cbn in Hlen. lia.
    + intros b' Hb'. apply Hcover. right. exact Hb'.
Qed.

Lemma present_sums (f : Z -> Z) K :
  present (map (fun k => Some (f k)) K) = map f K.
Proof. induction K as [|k K IH]; [reflexivity|]. cbn. f_equal. exact IH. Qed.

Lemma wrap_int64_small z : - 2 ^ 63 <= z < 2 ^ 63 -> wrap_int64 z = z.
Proof. intros H. unfold wrap_int64. rewrite Z.mod_small; lia. Qed.

Lemma round_float64_small z : Z.abs z <= 2 ^ 53 -> round_float64 z = z.
Proof.
  intros H. unfold round_float64. cbv zeta.
  destruct (Z.ltb_spec (Z.abs z) (2 ^ 53)) as [_|Hge]; [reflexivity|].
  assert (E : Z.abs z = 2 ^ 53) by lia.
  destruct (Z.abs_spec z) as [[_ Ez]|[_ Ez]]; rewrite E; rewrite Ez in E.
  - subst z. vm_compute. reflexivity.
  - assert (z = - 2 ^ 53) by lia. subst z. vm_compute. reflexivity.
Qed.

(** Up to [exact_bound] the arithmetic of both dtypes is exact. *)
Lemma arith_exact d z : Z.abs z <= exact_bound -> arith d z = z.
Proof.
  unfold exact_bound. intros H. destruct d; cbn [arith].
  - apply wrap_int64_small. assert (2 ^ 53 < 2 ^ 63) by (vm_compute; reflexivity). lia.
  - apply round_float64_small. exact H.
Qed.

Lemma sum_abs_nonneg l : 0 <= sum_list (Z.abs <$> l).
Proof. induction l as [|x l IH]; cbn; [lia|]. fold (sum_list (Z.abs <$> l)). lia. Qed.

Lemma sum_abs_bound l : Z.abs (sum_list l) <= sum_list (Z.abs <$> l).
Proof.
  induction l as [|x l IH]; cbn; [lia|].
  fold (sum_list l). fold (sum_list (Z.abs <$> l)). lia.
Qed.

(** The loop of [group_sum] in the exact range: the compensation stays 0 and
    [sumx] is the sum. *)
Lemma group_sum_loop d vals : forall a,
  Z.abs a + sum_list (Z.abs <$> vals) <= exact_bound ->
  foldl (kahan_step d) (a, 0) vals = (a + sum_list vals, 0).
Proof.
  induction vals as [|v vals IH]; intros a H; cbn [foldl sum_list foldr fmap list_fmap] in *.
  - f_equal. lia.
  - fold (sum_list vals). fold (sum_list (Z.abs <$> vals)) in H.
    pose proof (sum_abs_nonneg vals) as Hpos.
    unfold kahan_step at 2. rewrite Z.sub_0_r.
    rewrite (arith_exact d v) by lia.
    rewrite (arith_exact d (a + v)) by lia.
    replace (a + v - a) with v by lia.
    rewrite (arith_exact d v) by lia.
    rewrite Z.sub_diag, (arith_exact d 0) by (unfold exact_bound; cbn; lia).
    rewrite IH by lia. f_equal. lia.
Qed.

Lemma group_sum_exact d vals :
  sum_list (Z.abs <$> vals) <= exact_bound -> group_sum d vals = sum_list vals.
Proof.
  intros H. unfold group_sum. rewrite group_sum_loop by (cbn; lia). reflexivity.
Qed.

(** The cells of a bar are the cells of the rows whose timestamp falls into
    the bar. *)
Lemma cells_in_bar_filter bin_of ix : forall (s : Series) k,
  cells_in_bar (map bin_of ix) s k
  = snd <$> filter (fun p : Z * option Z => bin_of p.1 = k) (zip ix s).
Proof.
  induction ix as [|t ix IH]; intros s k; [reflexivity|].
  destruct s as [|c s]; [reflexivity|]. cbn [map cells_in_bar zip zip_with].
  rewrite filter_cons. cbn [fst]. destruct (Z.eqb_spec (bin_of t) k) as [E|E].
  - rewrite decide_True by exact E. cbn [fmap list_fmap snd]. f_equal. apply IH.
  - rewrite decide_False by exact E. apply IH.
Qed.

Lemma present_cells_in_bar bin_of ix (s : Series) k :
  present (cells_in_bar (map bin_of ix) s k) = bar_values bin_of ix s k.
Proof. unfold bar_values. rewrite cells_in_bar_filter. reflexivity. Qed.

(** A sum cell of a bar in the exact range is the sum of the values of the
    bar. *)
Lemma aggregate_sum_exact df bin_of (s : Series) k :
  bars_in_exact_range bin_of (index df) s ->
  aggregate (dtype_of s) agg_sum (cells_in_bar (bins (DataFrame_resample df bin_of)) s k)
  = Some (sum_list (bar_values bin_of (index df) s k)).
Proof.
  intros H. cbn [aggregate bins DataFrame_resample].
  rewrite present_cells_in_bar, group_sum_exact by apply H. reflexivity.
Qed.

Lemma aggregate_sum_total df bin_of (s : Series) :
  length s = length (index df) ->
  bars_in_exact_range bin_of (index df) s ->
  sum_list (present (aggregate_column (DataFrame_resample df bin_of) agg_sum s))
  = sum_list (present s).
Proof.
  intros Hlen H. unfold aggregate_column.
  rewrite (map_ext _ (fun k => Some (sum_list (present
             (cells_in_bar (bins (DataFrame_resample df bin_of)) s k))))).
  - rewrite (present_sums (fun k => sum_list (present
               (cells_in_bar (bins (DataFrame_resample df bin_of)) s k)))).
    apply sum_cells_partition; [apply NoDup_bars| |apply bars_cover].
    cbn [bins DataFrame_resample]. rewrite length_map. exact Hlen.
  - intros k. rewrite aggregate_sum_exact by exact H.
    cbn [bins DataFrame_resample]. rewrite present_cells_in_bar. reflexivity.
Qed.

Lemma agg_method_of_sum agg c : c ∈ sum_columns -> agg_method_of agg c = agg_sum.
Proof.
  intros Hc. unfold sum_columns, zero_fill_columns in Hc. cbn [app] in Hc.
  elem_cases Hc; reflexivity.
Qed.

(** C5, amended: for every frame and every sum-rule column of it (netAmount0/1,
    inAmount0/1, currentLiquidity) with a cell for every row, whose values add
    up, within every bar and in absolute value, to at most 2^53: resample
    returns bars whose column has a cell for every bar, the cell of a bar is
    the sum of the values of the records that fall into the bar, and the sum
    over the bars equals the sum of the raw values of the column. *)
Theorem resample_sum_exact (df : DataFrame) (bin_of : Z -> Z)
    (agg : option (gmap string AggMethod)) (c : string) (s : Series) :
  c ∈ sum_columns ->
  assoc_get (data df) c = Some s ->
  length s = length (index df) ->
  bars_in_exact_range bin_of (index df) s ->
  exists out s',
    resample df bin_of agg = Ok out /\
    assoc_get (data out) c = Some s' /\
    length s' = length (index out) /\
    (forall (i : nat) k,
       index out !! i = Some k ->
       s' !! i = Some (Some (sum_list (bar_values bin_of (index df) s k)))) /\
    sum_list (present s') = sum_list (present s).
Proof.
  intros Hc Hs Hlen Hrange.
  destruct (resample_ok df bin_of agg) as (out & Hout & Hidx & Hcol).
  exists out. eexists. split; [exact Hout|]. split; [exact (Hcol c s Hs)|].
  rewrite agg_method_of_sum by exact Hc. split; [|split].
  - unfold aggregate_column. rewrite length_map, Hidx. reflexivity.
  - intros i k Hi. rewrite Hidx in Hi. unfold aggregate_column.
    rewrite list_lookup_fmap. cbn [bins DataFrame_resample]. rewrite Hi.
    cbn [fmap option_fmap option_map]. f_equal.
    exact (aggregate_sum_exact df bin_of s k Hrange).
  - apply aggregate_sum_total; assumption.
Qed.

Lemma resample_column_method_witness :
  assoc_get (data raw_with_volume) "volume" = Some [Some 1; Some 7; Some 3] /\
  exists out m,
    resample raw_with_volume (fixed_width 60) (Some {[ "volume"%string := agg_max ]})
    = Ok out /\
    assoc_get (data out) "volume"
    = Some (aggregate_column (DataFrame_resample raw_with_volume (fixed_width 60)) m
              [Some 1; Some 7; Some 3]) /\
    m = agg_max.
Proof.
  split; [reflexivity|].
  destruct (resample_column_method raw_with_volume (fixed_width 60)
              (Some {[ "volume"%string := agg_max ]}) "volume"
              [Some 1; Some 7; Some 3] eq_refl)
    as (out & m & Hout & _ & Hcol & Hdefault & _).
  exists out, m. split; [exact Hout|]. split; [exact Hcol|].
  rewrite Hdefault by (vm_compute; reflexivity). vm_compute. reflexivity.
Defined.

Lemma raw_records_in_exact_range :
  bars_in_exact_range (fixed_width 60) (index raw_records) [Some 5; Some 3; Some 4].
Proof.
  intros k. unfold bar_values. cbn [index raw_records zip zip_with].
  rewrite !filter_cons, filter_nil. cbn [fst].
  repeat case_decide; vm_compute; discriminate.
Qed.

Lemma resample_sum_exact_witness :
  name netAmount0 ∈ sum_columns /\
  assoc_get (data raw_records) (name netAmount0) = Some [Some 5; Some 3; Some 4] /\
  length [Some 5; Some 3; Some 4] = length (index raw_records) /\
  bars_in_exact_range (fixed_width 60) (index raw_records) [Some 5; Some 3; Some 4] /\
  exists out s',
    resample raw_records (fixed_width 60) None = Ok out /\
    assoc_get (data out) (name netAmount0) = Some s' /\
    sum_list (present s') = 12.
Proof.
  assert (H1 : name netAmount0 ∈ sum_columns) by left.
  split; [exact H1|]. split; [reflexivity|]. split; [reflexivity|].
  split; [exact raw_records_in_exact_range|].
  destruct (resample_sum_exact raw_records (fixed_width 60) None (name netAmount0)
              [Some 5; Some 3; Some 4] H1 eq_refl eq_refl raw_records_in_exact_range)
    as (out & s' & Hout & Hcol & _ & _ & Hsum).
  exists out, s'. split; [exact Hout|]. split; [exact Hcol|]. exact Hsum.
Defined.

(** The claim without the bound: a float64 column (one cell is missing) with
    the values 2^53 and 1 in one bar.  The sum 2^53 + 1 is no float64, the
    bar holds 2^53. *)
Lemma resample_sum_rounds_counterexample :
  name netAmount0 ∈ sum_columns /\
  assoc_get (data rounding_records) (name netAmount0)
  = Some [Some 9007199254740992; Some 1; None] /\
  resample rounding_records (fixed_width 60) None = Ok rounding_bars /\
  assoc_get (data rounding_bars) (name netAmount0) = Some [Some 9007199254740992] /\
  sum_list (present [Some 9007199254740992])
  <> sum_list (present [Some 9007199254740992; Some 1; None]).
Proof.
  split; [left|]. split; [reflexivity|]. split; [vm_compute; reflexivity|].
  split; [reflexivity|]. vm_compute. discriminate.
Qed.

(** An int64 column (no cell is missing) with three times 2^62 in one bar:
    the sum wraps around to -2^62. *)
Example resample_int64_sum_wraps :
  resample wrapping_records (fixed_width 60) None
  = Ok {| index := [0]; data := [ (name netAmount0, [Some (- 4611686018427387904)]) ] |}.
Proof. vm_compute. reflexivity. Qed.

(** The scenario of the spec: two records of one bar, the second without a
    closing tick. *)
Example resample_one_bar :
  resample {| index := [0; 0];
              data := [ (name closeTick, [Some 100; None]);
                        (name netAmount0, [Some 5; Some 3]) ] |}
    (fixed_width 60) None
  = Ok {| index := [0];
          data := [ (name closeTick, [Some 100]); (name netAmount0, [Some 8]) ] |}.
Proof. vm_compute. reflexivity. Qed.

End ResampleFacts.

(** * Operations that need no rounding *)
Module DecimalExactFacts.
Import PyDecimal Notions MoreNotions PyDecimalFacts.
Local Open Scope Z_scope.

Lemma ndigits_mul_pow10 c j :
  0 < c -> 0 <= j -> c < 10 ^ 28 -> 28 < ndigits (c * 10 ^ j) ->
  ndigits (c * 10 ^ j) - 28 <= j.
Proof.
  intros Hc Hj Hlt Hn.
  assert (Hp : 0 < 10 ^ j) by (apply Z.pow_pos_nonneg; lia).
  pose proof (ndigits_spec (c * 10 ^ j) ltac:(nia)) as (_ & _ & H3).
  specialize (H3 ltac:(nia)).
  set (n := ndigits (c * 10 ^ j)) in *.
  destruct (Z.le_gt_cases (n - 28) j) as [|Hgt]; [assumption|exfalso].
  assert (E : 10 ^ (n - 1) = 10 ^ (n - 1 - j - 28) * (10 ^ 28 * 10 ^ j)).
  { rewrite <- !Z.pow_add_r by lia. f_equal. lia. }
  assert (0 < 10 ^ (n - 1 - j - 28)) by (apply Z.pow_pos_nonneg; lia).
  nia.
Qed.

(** Rounding leaves a decimal whose value has at most 28 digits as it is, in
    value. *)
Lemma fix_exact c j e :
  0 <= j -> Z.abs c < 10 ^ 28 ->
  (dval (_fix (mkDecimal (c * 10 ^ j) e)) == dval (mkDecimal (c * 10 ^ j) e))%Q.
Proof.
  intros Hj Hc. unfold _fix, prec. cbn [coef expo].
  assert (Hp : 0 < 10 ^ j) by (apply Z.pow_pos_nonneg; lia).
  set (m := Z.abs (c * 10 ^ j)).
  destruct (Z.leb_spec (ndigits m) 28) as [_|Hgt]; [reflexivity|].
  assert (Hm : m = Z.abs c * 10 ^ j) by (subst m; rewrite Z.abs_mul; f_equal; lia).
  assert (Hc0 : 0 < Z.abs c).
  { destruct (Z.eq_dec (Z.abs c) 0) as [E|]; [|lia]. exfalso.
    rewrite Hm, E, Z.mul_0_l in Hgt. change (ndigits 0) with 1 in Hgt. lia. }
  pose proof (ndigits_mul_pow10 (Z.abs c) j Hc0 Hj Hc) as Hk.
  rewrite <- Hm in Hk. specialize (Hk Hgt).
  set (k := ndigits m - 28) in *.
  assert (Hk0 : 0 < k) by (subst k; lia).
  assert (Hdiv : m = Z.abs c * 10 ^ (j - k) * 10 ^ k).
  { rewrite Hm, <- Z.mul_assoc, <- Z.pow_add_r by lia. do 2 f_equal. lia. }
  assert (Hpk : 0 < 10 ^ k) by (apply Z.pow_pos_nonneg; lia).
  assert (Hrhe : round_half_even m k = Z.abs c * 10 ^ (j - k)).
  { unfold round_half_even. rewrite Hdiv, Z.mod_mul, Z.div_mul by lia.
    destruct (Z.ltb_spec (10 ^ k) (2 * 0)) as [|_]; [lia|].
    destruct (Z.eqb_spec (10 ^ k) (2 * 0)) as [|_]; [lia|]. reflexivity. }
  rewrite Hrhe.
  pose proof (ndigits_spec m ltac:(lia)) as (_ & Hn2 & _).
  assert (Hq : Z.abs c * 10 ^ (j - k) < 10 ^ 28).
  { replace (ndigits m) with (28 + k) in Hn2 by (subst k; lia).
    rewrite Z.pow_add_r in Hn2 by lia. nia. }
  assert (Hq0 : 0 <= Z.abs c * 10 ^ (j - k)).
  { pose proof (Z.pow_nonneg 10 (j - k)). nia. }
  pose proof (ndigits_le_prec _ (conj Hq0 Hq)) as Hd.
  destruct (Z.leb_spec (ndigits (Z.abs c * 10 ^ (j - k))) 28) as [_|]; [|lia].
  rewrite dval_shift by lia. unfold dval. cbn [coef expo].
  apply Qmult_comp; [|reflexivity]. apply inject_Z_injective.
  rewrite <- Z.mul_assoc, <- Hdiv.
  replace (Z.sgn (c * 10 ^ j)) with (Z.sgn c) by (rewrite Z.sgn_mul; lia).
  subst m. rewrite Z.abs_mul. rewrite (Z.abs_eq (10 ^ j)) by lia. lia.
Qed.

End DecimalExactFacts.

(** * The ledger: what [add] and [sub] preserve *)
Module LedgerInvariantFacts.
Import PyDecimal Typing Notions MoreNotions Examples MoreExamples PyDecimalFacts
  LedgerFacts DecimalExactFacts.
Local Open Scope Z_scope.

Lemma fix_small m e : Z.abs m < 10 ^ 28 -> _fix (mkDecimal m e) = mkDecimal m e.
Proof.
  intros H. unfold _fix, prec. cbn [coef].
  pose proof (ndigits_le_prec (Z.abs m) ltac:(lia)).
  destruct (Z.leb_spec (ndigits (Z.abs m)) 28); [reflexivity|lia].
Qed.

Lemma add_fits a b :
  sum_fits a b ->
  PyDecimal.add a b
  = mkDecimal (aligned a (Z.min (expo a) (expo b)) + aligned b (Z.min (expo a) (expo b)))
              (Z.min (expo a) (expo b)).
Proof. intros H. unfold PyDecimal.add. apply fix_small. exact H. Qed.

Local Open Scope Q_scope.

Lemma dval_aligned d e :
  (e <= expo d)%Z -> dval (mkDecimal (aligned d e) e) == dval d.
Proof.
  intros He. unfold dval, aligned. cbn [coef expo].
  rewrite inject_Z_mult, <- pow10_inject by lia.
  rewrite <- Qmult_assoc, <- pow10_add.
  replace (expo d - e + e)%Z with (expo d) by lia. reflexivity.
Qed.

Lemma dval_plus_coef m n e :
  dval (mkDecimal (m + n) e) == dval (mkDecimal m e) + dval (mkDecimal n e).
Proof. unfold dval. cbn [coef expo]. rewrite inject_Z_plus. ring. Qed.

(** The sum before rounding is the exact sum. *)
Lemma dval_exact_add a b :
  let e := Z.min (expo a) (expo b) in
  dval (mkDecimal (aligned a e + aligned b e) e) == dval a + dval b.
Proof.
  intros e. rewrite dval_plus_coef, !dval_aligned by lia. reflexivity.
Qed.

Lemma dval_nonneg d : 0 <= dval d <-> (0 <= coef d)%Z.
Proof.
  split; intros H.
  - destruct (Z.le_gt_cases 0%Z (coef d)) as [|Hlt]; [assumption|exfalso].
    apply dval_sign_neg in Hlt. lra.
  - destruct (Qlt_le_dec (dval d) 0) as [Hlt|]; [|assumption].
    apply dval_sign_neg in Hlt. lia.
Qed.

Lemma fix_nonneg d : (0 <= coef d)%Z -> (0 <= coef (_fix d))%Z.
Proof. intros H. pose proof (fix_sgn d). lia. Qed.

Lemma add_approx a b : approx half_ulp (dval (PyDecimal.add a b)) (dval a + dval b).
Proof.
  unfold PyDecimal.add. rewrite <- dval_exact_add. apply fix_approx.
Qed.

Lemma add_nonneg a b : 0 <= dval a -> 0 <= dval b -> 0 <= dval (PyDecimal.add a b).
Proof.
  intros Ha Hb. apply dval_nonneg. unfold PyDecimal.add. apply fix_nonneg.
  apply dval_nonneg. change (0 <= dval (mkDecimal
    (aligned a (Z.min (expo a) (expo b)) + aligned b (Z.min (expo a) (expo b)))
    (Z.min (expo a) (expo b)))).
  rewrite dval_exact_add. lra.
Qed.

(** X1: a credit of a non-negative amount keeps a non-negative balance
    non-negative, and the new balance is the sum up to one rounding. *)
Theorem add_keeps_nonnegative (self : BrokerAsset) (amount : Decimal) :
  0 <= dval (balance self) -> 0 <= dval amount ->
  exists self',
    Typing.add self amount = Return self' /\
    0 <= dval (balance self') /\
    approx half_ulp (dval (balance self')) (dval (balance self) + dval amount) /\
    token_info self' = token_info self.
Proof.
  intros HB HA. eexists. split; [reflexivity|]. cbn [balance set_balance token_info].
  split; [apply add_nonneg; assumption|]. split; [apply add_approx|reflexivity].
Qed.

Lemma add_keeps_nonnegative_witness :
  0 <= dval (balance ledger_250) /\ 0 <= dval credit_100_25 /\
  exists self',
    Typing.add ledger_250 credit_100_25 = Return self' /\
    0 <= dval (balance self').
Proof.
  assert (H1 : 0 <= dval (balance ledger_250)) by (vm_compute; discriminate).
  assert (H2 : 0 <= dval credit_100_25) by (vm_compute; discriminate).
  split; [exact H1|]. split; [exact H2|].
  destruct (add_keeps_nonnegative ledger_250 credit_100_25 H1 H2) as (s & Hs & Hn & _).
  exists s. split; assumption.
Defined.

(** X2: a debit without [allow_negative_balance] never makes a non-negative
    balance negative, whatever the amount and however the call ends. *)
Theorem sub_keeps_nonnegative (self : BrokerAsset) (amount : Decimal) :
  0 <= dval (balance self) ->
  0 <= dval (balance (state_after (Typing.sub self amount false))).
Proof.
  intros HB. unfold Typing.sub.
  destruct (is_zero (if negb (is_zero (balance self)) then balance self else amount));
    [exact HB|].
  destruct (div _ _) as [q|]; [|exact HB].
  destruct (lt_float _ _); [vm_compute; discriminate|].
  destruct (lt_zero (PyDecimal.sub (balance self) amount)) eqn:Hz; [exact HB|].
  cbn [state_after balance set_balance]. apply dval_nonneg.
  unfold lt_zero in Hz. apply Z.ltb_ge in Hz. exact Hz.
Qed.

Lemma sub_keeps_nonnegative_witness :
  0 <= dval (balance ledger_250) /\
  0 <= dval (balance (state_after (Typing.sub ledger_250 credit_100_25 false))).
Proof.
  assert (H1 : 0 <= dval (balance ledger_250)) by (vm_compute; discriminate).
  split; [exact H1|]. exact (sub_keeps_nonnegative ledger_250 credit_100_25 H1).
Defined.

(** X3: debiting exactly the balance always returns and leaves a zero
    balance, whatever the sign of the balance. *)
Theorem sub_whole_balance (self : BrokerAsset) :
  exists self',
    Typing.sub self (balance self) false = Return self' /\
    dval (balance self') == 0.
Proof.
  destruct (Qeq_dec (dval (balance self)) 0) as [Hz|Hnz].
  - exists self. split; [|exact Hz]. unfold Typing.sub.
    apply is_zero_dval in Hz. rewrite Hz. cbn [negb]. rewrite Hz. reflexivity.
  - exists (set_balance self (of_int 0)). split; [|reflexivity].
    apply sub_snaps_if; [tauto|].
    assert (E : (dval (balance self) - dval (balance self))
                / base_value (dval (balance self)) (dval (balance self)) == 0).
    { unfold Qdiv. assert (E0 : dval (balance self) - dval (balance self) == 0) by ring.
      rewrite E0. ring. }
    rewrite E. vm_compute. discriminate.
Qed.

(** X4: an overdrawn ledger refuses every debit of a non-negative amount, a
    debit of zero included. *)
Theorem sub_overdrawn_refuses (self : BrokerAsset) (amount : Decimal) :
  dval (balance self) < 0 -> 0 <= dval amount ->
  Typing.sub self amount false
  = Raise (DemeterError (balance self) (asset_name self) amount) self.
Proof.
  intros HB HA. apply sub_raises_if.
  - intros [E _]. rewrite E in HB. discriminate.
  - lra.
  - assert (Hbase : base_value (dval (balance self)) (dval amount) = dval (balance self)).
    { unfold base_value. destruct (Qeq_dec (dval (balance self)) 0) as [E|]; [|reflexivity].
      rewrite E in HB. discriminate. }
    rewrite Hbase.
    assert (E : (dval (balance self) - dval amount) / dval (balance self)
                == (dval amount - dval (balance self)) / (- dval (balance self))).
    { field. intros E. rewrite E in HB. discriminate. }
    rewrite E. apply Qabs_ge. apply Qle_shift_div_l; [lra|].
    unfold tolerance_up. lra.
Qed.

Lemma sub_overdrawn_refuses_witness :
  dval (balance ledger_overdrawn) < 0 /\ 0 <= dval (of_int 0) /\
  Typing.sub ledger_overdrawn (of_int 0) false
  = Raise (DemeterError (balance ledger_overdrawn) "usdc" (of_int 0)) ledger_overdrawn.
Proof.
  assert (H1 : dval (balance ledger_overdrawn) < 0) by (vm_compute; reflexivity).
  assert (H2 : 0 <= dval (of_int 0)) by (vm_compute; discriminate).
  split; [exact H1|]. split; [exact H2|].
  exact (sub_overdrawn_refuses ledger_overdrawn (of_int 0) H1 H2).
Defined.

Close Scope Q_scope.

End LedgerInvariantFacts.

(** * The ledger: credit then debit, wei amounts, the pool constructor *)
Module LedgerRoundTripFacts.
Import PyDecimal Typing Notions MoreNotions Examples MoreExamples PyDecimalFacts
  LedgerFacts DecimalExactFacts LedgerInvariantFacts.
Local Open Scope Z_scope.
Local Open Scope Q_scope.

(** A debit that is covered and not within the tolerance subtracts. *)
Lemma sub_subtracts_if self amount :
  ~ (dval (balance self) == 0 /\ dval amount == 0) ->
  0 <= dval (balance self) - dval amount ->
  tolerance_up <= Qabs ((dval (balance self) - dval amount)
                         / base_value (dval (balance self)) (dval amount)) ->
  Typing.sub self amount false
  = Return (set_balance self (PyDecimal.sub (balance self) amount)).
Proof.
  intros Hnz Hpos Hx.
  destruct (sub_cases self amount Hnz) as (r & Hlo & _ & ->).
  cbv zeta in Hlo. pose proof float_0_00001_value as Hf.
  unfold tolerance_up in Hx.
  destruct (Qlt_le_dec r (fval float_0_00001)) as [Hlt|_]; [exfalso; lra|].
  destruct (lt_zero (PyDecimal.sub (balance self) amount)) eqn:Hz; [|reflexivity].
  apply sub_lt_zero in Hz. lra.
Qed.

(** After a credit that needs no rounding, the debit of the same amount
    computes the old balance again. *)
Lemma sub_after_add_fits (B a : Decimal) :
  sum_fits B a ->
  (Z.abs (aligned B (Z.min (expo B) (expo a))) < 10 ^ 28)%Z ->
  dval (PyDecimal.add B a) == dval B + dval a /\
  dval (PyDecimal.sub (PyDecimal.add B a) a) == dval B.
Proof.
  intros Hfit HB. rewrite (add_fits B a Hfit). split; [apply dval_exact_add|].
  set (e := Z.min (expo B) (expo a)) in *.
  unfold PyDecimal.sub. cbn [coef expo].
  replace (Z.min e (expo a)) with e by lia.
  replace (e - e)%Z with 0%Z by lia. rewrite Z.pow_0_r, Z.mul_1_r.
  fold (aligned a e).
  replace (aligned B e + aligned a e - aligned a e)%Z with (aligned B e) by lia.
  rewrite fix_small by exact HB. apply dval_aligned. lia.
Qed.

(** X5: credit then debit of the same amount gives the balance back, when the
    sum needs no rounding and the balance is zero or not dust against the
    sum. *)
Theorem add_then_sub_restores (self : BrokerAsset) (amount : Decimal) :
  sum_fits (balance self) amount ->
  (Z.abs (aligned (balance self) (Z.min (expo (balance self)) (expo amount))) < 10 ^ 28)%Z ->
  0 <= dval (balance self) -> 0 <= dval amount ->
  (dval (balance self) == 0 \/
   tolerance_up <= dval (balance self) / (dval (balance self) + dval amount)) ->
  exists self',
    Typing.sub (state_after (Typing.add self amount)) amount false = Return self' /\
    dval (balance self') == dval (balance self) /\
    token_info self' = token_info self.
Proof.
  intros Hfit HBfit HB HA Hcase.
  destruct (sub_after_add_fits _ _ Hfit HBfit) as [Hadd Hsub].
  cbn [Typing.add state_after].
  set (self1 := set_balance self (PyDecimal.add (balance self) amount)).
  assert (Hb1 : dval (balance self1) == dval (balance self) + dval amount) by exact Hadd.
  destruct (Qeq_dec (dval (balance self1)) 0) as [Hz1|Hnz1].
  - (* the sum is zero: both are zero, nothing happens *)
    assert (HA0 : dval amount == 0) by lra.
    exists self1. split; [|split; [|reflexivity]].
    + unfold Typing.sub. apply is_zero_dval in Hz1. rewrite Hz1. cbn [negb].
      apply is_zero_dval in HA0. rewrite HA0. reflexivity.
    + lra.
  - assert (Hnz : ~ (dval (balance self1) == 0 /\ dval amount == 0)) by tauto.
    assert (Hbase : base_value (dval (balance self1)) (dval amount) = dval (balance self1)).
    { unfold base_value. destruct (Qeq_dec (dval (balance self1)) 0); [contradiction|reflexivity]. }
    assert (Hsum : 0 < dval (balance self) + dval amount) by lra.
    assert (Ex : (dval (balance self1) - dval amount) / dval (balance self1)
                 == dval (balance self) / (dval (balance self) + dval amount)).
    { rewrite Hb1. field. lra. }
    destruct Hcase as [HB0|Hbig].
    + exists (set_balance self1 (of_int 0)). split; [|split; [|reflexivity]].
      * apply sub_snaps_if; [exact Hnz|]. rewrite Hbase, Ex, HB0.
        unfold Qdiv. rewrite Qmult_0_l. vm_compute. discriminate.
      * cbn. rewrite HB0. reflexivity.
    + exists (set_balance self1 (PyDecimal.sub (balance self1) amount)).
      split; [|split; [exact Hsub|reflexivity]].
      apply sub_subtracts_if; [exact Hnz|lra|].
      rewrite Hbase, Ex. apply Qabs_ge. exact Hbig.
Qed.

Lemma add_then_sub_restores_witness :
  sum_fits (balance ledger_250) credit_100_25 /\
  0 <= dval (balance ledger_250) /\ 0 <= dval credit_100_25 /\
  exists self',
    Typing.sub (state_after (Typing.add ledger_250 credit_100_25)) credit_100_25 false
    = Return self' /\
    dval (balance self') == dval (balance ledger_250).
Proof.
  assert (H1 : sum_fits (balance ledger_250) credit_100_25) by (vm_compute; reflexivity).
  assert (H2 : (Z.abs (aligned (balance ledger_250)
                   (Z.min (expo (balance ledger_250)) (expo credit_100_25))) < 10 ^ 28)%Z)
    by (vm_compute; reflexivity).
  assert (H3 : 0 <= dval (balance ledger_250)) by (vm_compute; discriminate).
  assert (H4 : 0 <= dval credit_100_25) by (vm_compute; discriminate).
  assert (H5 : dval (balance ledger_250) == 0 \/
               tolerance_up <= dval (balance ledger_250)
                               / (dval (balance ledger_250) + dval credit_100_25))
    by (right; vm_compute; discriminate).
  split; [exact H1|]. split; [exact H3|]. split; [exact H4|].
  destruct (add_then_sub_restores ledger_250 credit_100_25 H1 H2 H3 H4 H5)
    as (s & Hs & Hv & _).
  exists s. split; assumption.
Defined.

(** X6: credit then debit of the same amount wipes a dust balance: when the
    balance is below 1e-5 of the sum, the debit snaps the balance to zero. *)
Theorem add_then_sub_wipes_dust (self : BrokerAsset) (amount : Decimal) :
  sum_fits (balance self) amount ->
  0 < dval (balance self) -> 0 <= dval amount ->
  dval (balance self) / (dval (balance self) + dval amount) < tolerance ->
  Typing.sub (state_after (Typing.add self amount)) amount false
  = Return (set_balance self (of_int 0)).
Proof.
  intros Hfit HB HA Hx. cbn [Typing.add state_after].
  set (self1 := set_balance self (PyDecimal.add (balance self) amount)).
  assert (Hb1 : dval (balance self1) == dval (balance self) + dval amount).
  { cbn. rewrite (add_fits _ _ Hfit). apply dval_exact_add. }
  assert (Hnz1 : ~ dval (balance self1) == 0) by lra.
  assert (Hnz : ~ (dval (balance self1) == 0 /\ dval amount == 0)) by tauto.
  assert (Hbase : base_value (dval (balance self1)) (dval amount) = dval (balance self1)).
  { unfold base_value. destruct (Qeq_dec (dval (balance self1)) 0); [contradiction|reflexivity]. }
  change (set_balance self (of_int 0)) with (set_balance self1 (of_int 0)).
  apply sub_snaps_if; [exact Hnz|]. rewrite Hbase.
  assert (Ex : (dval (balance self1) - dval amount) / dval (balance self1)
               == dval (balance self) / (dval (balance self) + dval amount)).
  { rewrite Hb1. field. lra. }
  rewrite Ex, Qabs_pos; [lra|].
  apply Qle_shift_div_l; lra.
Qed.

Lemma add_then_sub_wipes_dust_witness :
  sum_fits (balance ledger_dust) (of_int 1000) /\
  0 < dval (balance ledger_dust) /\ 0 <= dval (of_int 1000) /\
  Typing.sub (state_after (Typing.add ledger_dust (of_int 1000))) (of_int 1000) false
  = Return (set_balance ledger_dust (of_int 0)).
Proof.
  assert (H1 : sum_fits (balance ledger_dust) (of_int 1000)) by (vm_compute; reflexivity).
  assert (H2 : 0 < dval (balance ledger_dust)) by (vm_compute; reflexivity).
  assert (H3 : 0 <= dval (of_int 1000)) by (vm_compute; discriminate).
  split; [exact H1|]. split; [exact H2|]. split; [exact H3|].
  apply (add_then_sub_wipes_dust ledger_dust (of_int 1000) H1 H2 H3).
  vm_compute. reflexivity.
Defined.

(** X7: [amount_in_wei] is the balance times 10^decimal, exactly, for a
    balance of at most 28 digits and a non-negative [decimal]. *)
Theorem amount_in_wei_exact (self : BrokerAsset) :
  (0 <= asset_decimal self)%Z ->
  (Z.abs (coef (balance self)) < 10 ^ 28)%Z ->
  dval (amount_in_wei self) == dval (balance self) * inject_Z (10 ^ asset_decimal self).
Proof.
  intros Hd Hc. unfold amount_in_wei, mul, of_int. cbn [coef expo].
  rewrite fix_exact by assumption.
  unfold dval. cbn [coef expo]. rewrite Z.add_0_r, inject_Z_mult. ring.
Qed.

Lemma amount_in_wei_exact_witness :
  (0 <= asset_decimal ledger_250)%Z /\
  (Z.abs (coef (balance ledger_250)) < 10 ^ 28)%Z /\
  dval (amount_in_wei ledger_250) == inject_Z 250500000.
Proof.
  assert (H1 : (0 <= asset_decimal ledger_250)%Z) by (vm_compute; discriminate).
  assert (H2 : (Z.abs (coef (balance ledger_250)) < 10 ^ 28)%Z) by (vm_compute; reflexivity).
  split; [exact H1|]. split; [exact H2|].
  rewrite (amount_in_wei_exact ledger_250 H1 H2). vm_compute. reflexivity.
Defined.

(** Dividing a decimal of at most 28 digits by 100 is exact. *)
Lemma div_100_exact d :
  (Z.abs (coef d) < 10 ^ 28)%Z ->
  exists q, div d (of_int 100) = Some q /\ dval q * inject_Z 100 == dval d.
Proof.
  intros Hc. unfold div, of_int, prec. cbn [coef expo].
  destruct (Z.eqb_spec (coef d) 0%Z) as [Hz|Hnz].
  - eexists. split; [reflexivity|]. unfold dval. cbn [coef expo]. rewrite Hz. ring.
  - change (ndigits (Z.abs 100)) with 3%Z. change (Z.sgn 100) with 1%Z.
    change (Z.abs 100) with 100%Z.
    pose proof (ndigits_le_prec (Z.abs (coef d)) ltac:(lia)) as Hla.
    pose proof (ndigits_spec (Z.abs (coef d)) ltac:(lia)) as (Hl1 & _ & _).
    set (la := ndigits (Z.abs (coef d))) in *.
    set (shift := (3 - la + 28 + 1)%Z).
    assert (Hs : (4 <= shift)%Z) by (subst shift; lia).
    destruct (Z.leb_spec 0%Z shift) as [_|]; [|lia].
    assert (Hnum : (Z.abs (coef d) * 10 ^ shift
                    = Z.abs (coef d) * 10 ^ (shift - 2) * 100)%Z).
    { rewrite <- Z.mul_assoc. f_equal. change 100%Z with (10 ^ 2)%Z.
      rewrite <- Z.pow_add_r by lia. f_equal. lia. }
    rewrite Hnum, Z.mod_mul, Z.div_mul by lia. cbn [negb Z.eqb andb].
    eexists. split; [reflexivity|].
    replace (Z.sgn (coef d) * 1 * (Z.abs (coef d) * 10 ^ (shift - 2)))%Z
      with (coef d * 10 ^ (shift - 2))%Z by nia.
    rewrite fix_exact by (try assumption; lia).
    unfold dval. cbn [coef expo].
    rewrite inject_Z_mult, <- pow10_inject by lia.
    assert (E : (10 # 1) ^ expo d
                == (10 # 1) ^ (shift - 2) * (10 # 1) ^ (expo d - 0 - shift) * inject_Z 100).
    { change (inject_Z 100) with ((10 # 1) ^ 2). rewrite <- !pow10_add.
      replace (shift - 2 + (expo d - 0 - shift) + 2)%Z with (expo d) by lia. reflexivity. }
    rewrite E. ring.
Qed.

(** X8: the constructor of the pool never fails for a fee literal of at most
    24 digits; it stores the fee times 10000 as [fee] and the fee divided by
    100 as [fee_rate], both exactly, and [is_token0_base] tells whether the
    base token is token0. *)
Theorem UniV3Pool_init_fields (token0 token1 : TokenInfo) (fee : Decimal)
    (base_token : TokenInfo) :
  (Z.abs (coef fee) < 10 ^ 24)%Z ->
  exists pool,
    UniV3Pool_init token0 token1 fee base_token = Ok pool /\
    dval (Typing.fee pool) == dval fee * inject_Z 10000 /\
    dval (fee_rate pool) * inject_Z 100 == dval fee /\
    (is_token0_base pool = true <-> base_token = token0).
Proof.
  intros Hc. unfold UniV3Pool_init.
  assert (Hc28 : (Z.abs (coef fee) < 10 ^ 28)%Z) by lia.
  destruct (div_100_exact fee Hc28) as (q & -> & Hq).
  eexists. split; [reflexivity|]. cbn [Typing.fee fee_rate is_token0_base].
  split; [|split; [exact Hq|apply bool_decide_eq_true]].
  unfold mul, of_int. cbn [coef expo]. change 10000%Z with (10 ^ 4)%Z.
  rewrite fix_exact by (try exact Hc28; lia).
  unfold dval. cbn [coef expo]. rewrite Z.add_0_r, inject_Z_mult. ring.
Qed.

Lemma UniV3Pool_init_fields_witness :
  (Z.abs (coef (mkDecimal 5 (-2))) < 10 ^ 24)%Z /\
  exists pool,
    UniV3Pool_init usdc eth (mkDecimal 5 (-2)) usdc = Ok pool /\
    dval (Typing.fee pool) == inject_Z 500 /\
    dval (fee_rate pool) * inject_Z 100 == 5 # 100.
Proof.
  assert (H1 : (Z.abs (coef (mkDecimal 5 (-2))) < 10 ^ 24)%Z) by (vm_compute; reflexivity).
  split; [exact H1|].
  destruct (UniV3Pool_init_fields usdc eth (mkDecimal 5 (-2)) usdc H1)
    as (pool & Hp & Hfee & Hrate & _).
  exists pool. split; [exact Hp|]. split.
  - rewrite Hfee. vm_compute. reflexivity.
  - rewrite Hrate. vm_compute. reflexivity.
Defined.

Close Scope Q_scope.

End LedgerRoundTripFacts.

(** * [tests/common.py] *)
Module TestsCommonFacts.
Import PyDecimal Notions MoreNotions PyDecimalFacts TestsCommon.
Local Open Scope Z_scope.
Local Open Scope Q_scope.

Lemma dec_eqb_spec a b : dec_eqb a b = true <-> dval a == dval b.
Proof.
  unfold dec_eqb. cbv zeta. rewrite Z.eqb_eq.
  pose proof (dval_exact_sub a b) as H. cbv zeta in H.
  set (e := Z.min (expo a) (expo b)) in *.
  set (ca := (coef a * 10 ^ (expo a - e))%Z) in *.
  set (cb := (coef b * 10 ^ (expo b - e))%Z) in *.
  pose proof (dval_zero (mkDecimal (ca - cb) e)) as Hz. cbn [coef] in Hz.
  rewrite H in Hz. split; intros Heq.
  - assert (E : dval a - dval b == 0) by (apply Hz; lia). lra.
  - assert (E : dval a - dval b == 0) by lra. apply Hz in E. lia.
Qed.

Lemma assert_base_value a b :
  dval (if negb (is_zero a) then a else b) == base_value (dval a) (dval b).
Proof.
  unfold base_value.
  destruct (is_zero a) eqn:Hz; cbn [negb];
    destruct (Qeq_dec (dval a) 0) as [E|E]; try reflexivity.
  - exfalso. apply E. apply is_zero_dval. exact Hz.
  - apply is_zero_dval in E. congruence.
Qed.

(** How [assert_equal_with_error] ends: [True] for two zeros, else the
    comparison of the computed relative error [r] with the tolerance. *)
Lemma assert_equal_with_error_cases a b allowed_error :
  (dval a == 0 /\ dval b == 0 /\ assert_equal_with_error a b allowed_error = Ok true) \/
  (~ (dval a == 0 /\ dval b == 0) /\
   exists r : Q,
     let x := Qabs ((dval a - dval b) / base_value (dval a) (dval b)) in
     (1 - slack) * x <= r /\ r <= (1 + slack) * x /\
     assert_equal_with_error a b allowed_error
     = Ok (if Qlt_le_dec r (fval allowed_error) then true else false)).
Proof.
  unfold assert_equal_with_error.
  destruct (dec_eqb a b) eqn:Heq; [destruct (is_zero b) eqn:Hzb|]; cbn [andb].
  - left. apply dec_eqb_spec in Heq. apply is_zero_dval in Hzb.
    split; [lra|]. split; [exact Hzb|reflexivity].
  - right. assert (Hnz : ~ (dval a == 0 /\ dval b == 0)).
    { intros [_ E]. apply is_zero_dval in E. congruence. }
    split; [exact Hnz|].
    assert (Hb : coef (if negb (is_zero a) then a else b) <> 0%Z).
    { destruct (is_zero a) eqn:Hza; cbn [negb]; unfold is_zero in *;
        [apply Z.eqb_neq; exact Hzb|apply Z.eqb_neq; exact Hza]. }
    destruct (relative_difference_bounds a b _ Hb) as (q & -> & Hlo & Hhi).
    exists (dval (PyDecimal.abs q)). cbv zeta in *. rewrite <- assert_base_value.
    unfold slack. split; [exact Hlo|]. split; [exact Hhi|].
    unfold lt_float. destruct (Qlt_le_dec _ _); reflexivity.
  - right. assert (Hnz : ~ (dval a == 0 /\ dval b == 0)).
    { intros [Ea Eb]. assert (E : dval a == dval b) by lra.
      apply dec_eqb_spec in E. congruence. }
    split; [exact Hnz|].
    assert (Hb : coef (if negb (is_zero a) then a else b) <> 0%Z).
    { destruct (is_zero a) eqn:Hza; cbn [negb].
      - intros Hcb. apply Hnz. split; [apply is_zero_dval; exact Hza|].
        apply dval_zero. exact Hcb.
      - unfold is_zero in Hza. apply Z.eqb_neq. exact Hza. }
    destruct (relative_difference_bounds a b _ Hb) as (q & -> & Hlo & Hhi).
    exists (dval (PyDecimal.abs q)). cbv zeta in *. rewrite <- assert_base_value.
    unfold slack. split; [exact Hlo|]. split; [exact Hhi|].
    unfold lt_float. destruct (Qlt_le_dec _ _); reflexivity.
Qed.

(** X9: [assert_equal_with_error] never raises and accepts a number against
    itself, for every positive tolerance. *)
Theorem assert_equal_with_error_reflexive (a : Decimal) (allowed_error : PyFloat) :
  0 < fval allowed_error ->
  assert_equal_with_error a a allowed_error = Ok true.
Proof.
  intros Hpos.
  destruct (assert_equal_with_error_cases a a allowed_error)
    as [(_ & _ & H)|(_ & r & _ & Hhi & ->)]; [exact H|].
  cbv zeta in Hhi.
  assert (E : (dval a - dval a) / base_value (dval a) (dval a) == 0).
  { assert (E0 : dval a - dval a == 0) by ring. unfold Qdiv. rewrite E0. ring. }
  rewrite E in Hhi. change (Qabs 0) with 0 in Hhi.
  destruct (Qlt_le_dec r (fval allowed_error)) as [_|Hge]; [reflexivity|].
  exfalso. lra.
Qed.

Lemma assert_equal_with_error_reflexive_witness :
  0 < fval float_0_0005 /\
  assert_equal_with_error (mkDecimal 12345 (-2)) (mkDecimal 12345 (-2)) float_0_0005
  = Ok true.
Proof.
  assert (H : 0 < fval float_0_0005) by (vm_compute; reflexivity).
  split; [exact H|]. exact (assert_equal_with_error_reflexive _ _ H).
Defined.

(** X10: [assert_equal_with_error] never raises; it returns [True] for two
    zeros, and otherwise decides the relative error |(a - b) / base| (base =
    a when a is not zero, else b) against the tolerance, up to a slack of
    1e-26 from the rounding of the decimal operations. *)
Theorem assert_equal_with_error_decides (a b : Decimal) (allowed_error : PyFloat) :
  exists r : bool,
    assert_equal_with_error a b allowed_error = Ok r /\
    (dval a == 0 /\ dval b == 0 -> r = true) /\
    (~ (dval a == 0 /\ dval b == 0) ->
     let x := Qabs ((dval a - dval b) / base_value (dval a) (dval b)) in
     ((1 + slack) * x < fval allowed_error -> r = true) /\
     (fval allowed_error <= (1 - slack) * x -> r = false)).
Proof.
  destruct (assert_equal_with_error_cases a b allowed_error)
    as [(Ha & Hb & H)|(Hnz & r & Hlo & Hhi & H)].
  - exists true. split; [exact H|]. split; [reflexivity|]. intros Hn. exfalso. tauto.
  - eexists. split; [exact H|]. split; [intros Hz; exfalso; tauto|].
    intros _. cbv zeta in *.
    destruct (Qlt_le_dec r (fval allowed_error)) as [Hlt|Hge]; split; intros Hx;
      try reflexivity; exfalso; lra.
Qed.

Lemma assert_equal_with_error_decides_witness :
  exists r : bool,
    assert_equal_with_error (of_int 100) (mkDecimal 10001 (-2)) float_0_0005 = Ok r /\
    r = true.
Proof.
  destruct (assert_equal_with_error_decides (of_int 100) (mkDecimal 10001 (-2)) float_0_0005)
    as (r & Hr & _ & Hdec).
  exists r. split; [exact Hr|]. apply Hdec.
  - intros [Ha _]. vm_compute in Ha. discriminate.
  - vm_compute. reflexivity.
Defined.

Close Scope Q_scope.

End TestsCommonFacts.

(** * The frame of the positions *)
Module PositionsFacts.
Import PyDecimal MoreNotions MoreExamples Positions.
Local Open Scope Z_scope.

(** The frame after the loop: the accumulated columns followed by one entry
    per position. *)
Lemma foldl_append_position ps : forall acc,
  foldl append_position acc ps
  = {| col_lower_tick := col_lower_tick acc ++ map (fun kv => lower_tick kv.1) ps;
       col_upper_tick := col_upper_tick acc ++ map (fun kv => upper_tick kv.1) ps;
       col_pending0 := col_pending0 acc ++ map (fun kv => pending_amount0 kv.2) ps;
       col_pending1 := col_pending1 acc ++ map (fun kv => pending_amount1 kv.2) ps;
       col_liquidity := col_liquidity acc ++ map (fun kv => liquidity kv.2) ps |}.
Proof.
  induction ps as [|[k v] ps IH]; intros acc; cbn [foldl map].
  - rewrite !app_nil_r. destruct acc; reflexivity.
  - rewrite IH. cbn [append_position col_lower_tick col_upper_tick col_pending0
                     col_pending1 col_liquidity fst snd].
    rewrite <- !app_assoc. reflexivity.
Qed.

(** X11: the frame of the positions has one row per position, in the order of
    the dict: the five columns have the length of the dict, and row [i] holds
    the ticks, the pending amounts and the liquidity of the [i]-th position. *)
Theorem position_dict_to_dataframe_rows (positions : list (PositionInfo * Position)) :
  let f := position_dict_to_dataframe positions in
  length (col_lower_tick f) = length positions /\
  length (col_upper_tick f) = length positions /\
  length (col_pending0 f) = length positions /\
  length (col_pending1 f) = length positions /\
  length (col_liquidity f) = length positions /\
  forall (i : nat) k v,
    positions !! i = Some (k, v) ->
    col_lower_tick f !! i = Some (lower_tick k) /\
    col_upper_tick f !! i = Some (upper_tick k) /\
    col_pending0 f !! i = Some (pending_amount0 v) /\
    col_pending1 f !! i = Some (pending_amount1 v) /\
    col_liquidity f !! i = Some (liquidity v).
Proof.
  unfold position_dict_to_dataframe. rewrite foldl_append_position.
  cbn [col_lower_tick col_upper_tick col_pending0 col_pending1 col_liquidity app].
  rewrite !length_map. do 5 (split; [reflexivity|]).
  intros i k v Hi. rewrite !list_lookup_fmap, Hi. cbn [fmap option_fmap option_map fst snd].
  do 4 (split; [reflexivity|]). reflexivity.
Qed.

Lemma position_dict_to_dataframe_rows_witness :
  two_positions !! 1%nat
  = Some (mkPositionInfo 200 260, mkPosition (of_int 0) (mkDecimal 25 (-2)) 70) /\
  col_lower_tick (position_dict_to_dataframe two_positions) !! 1%nat = Some 200%Z /\
  col_liquidity (position_dict_to_dataframe two_positions) !! 1%nat = Some 70%Z.
Proof.
  split; [reflexivity|].
  destruct (position_dict_to_dataframe_rows two_positions) as (_ & _ & _ & _ & _ & Hrow).
  destruct (Hrow 1%nat _ _ eq_refl) as (Hlo & _ & _ & _ & Hliq).
  split; [exact Hlo|exact Hliq].
Defined.

(** X12: no position is lost or merged: reading the rows of the frame back
    gives the positions, so two dicts with the same frame are the same. *)
Theorem position_dict_to_dataframe_roundtrip (positions : list (PositionInfo * Position)) :
  let f := position_dict_to_dataframe positions in
  frame_rows (col_lower_tick f) (col_upper_tick f) (col_pending0 f) (col_pending1 f)
    (col_liquidity f)
  = positions.
Proof.
  unfold position_dict_to_dataframe. rewrite foldl_append_position.
  cbn [col_lower_tick col_upper_tick col_pending0 col_pending1 col_liquidity app].
  induction positions as [|[[l u] [a b q]] ps IH]; [reflexivity|].
  cbn [map frame_rows fst snd lower_tick upper_tick pending_amount0 pending_amount1 liquidity].
  f_equal. exact IH.
Qed.

End PositionsFacts.

(** * [fillna], column by column *)
Module FillnaColumnFacts.
Import Pandas Data Notions MoreNotions Examples MoreExamples FillnaFacts.
Local Open Scope Z_scope.

Lemma assoc_get_app_skip l1 l2 c :
  c ∉ map fst l1 -> assoc_get (l1 ++ l2) c = assoc_get l2 c.
Proof.
  induction l1 as [|[k s] l1 IH]; intros Hc; [reflexivity|]. cbn.
  destruct (String.eqb_spec k c) as [->|_].
  - exfalso. apply Hc. left.
  - apply IH. intros H. apply Hc. right. exact H.
Qed.

Lemma assoc_set_app_skip l1 l2 c s :
  c ∉ map fst l1 -> assoc_set (l1 ++ l2) c s = l1 ++ assoc_set l2 c s.
Proof.
  induction l1 as [|[k s0] l1 IH]; intros Hc; [reflexivity|]. cbn.
  destruct (String.eqb_spec k c) as [->|_].
  - exfalso. apply Hc. left.
  - f_equal. apply IH. intros H. apply Hc. right. exact H.
Qed.

Lemma column_fill_arguments close value method c s :
  column_fill close value method c s
  = Series_fillna s (fill_arguments close value method c).1
                    (fill_arguments close value method c).2.
Proof.
  unfold column_fill, fill_arguments.
  destruct (Rule.fillna_method (get_line_rules_safe c)),
           (Rule.fillna_value (get_line_rules_safe c)), close; try reflexivity;
    destruct (bool_decide _); reflexivity.
Qed.

Lemma loop_columns_cons value method close c s l :
  loop_columns value method close ((c, s) :: l)
  = (y ← (if String.eqb c (name closeTick) then Ok (c, s)
          else s' ← column_fill close value method c s; Ok (c, s'));
     k ← loop_columns value method close l; Ok (y :: k)).
Proof. reflexivity. Qed.

Lemma fill_columns_cons value method close c s l :
  fill_columns value method close ((c, s) :: l)
  = (y ← (if String.eqb c (name closeTick) then Ok (c, pad_series s)
          else s' ← column_fill close value method c s; Ok (c, s'));
     k ← fill_columns value method close l; Ok (y :: k)).
Proof. reflexivity. Qed.

Lemma assoc_get_app_replace done c s s' todo k :
  c <> k ->
  assoc_get ((done ++ [(c, s')]) ++ todo) k = assoc_get (done ++ (c, s) :: todo) k.
Proof.
  intros Hne. rewrite <- app_assoc. cbn [app].
  induction done as [|[k0 x] done IH]; cbn.
  - destruct (String.eqb_spec c k); [contradiction|reflexivity].
  - destruct (String.eqb_spec k0 k); [reflexivity|exact IH].
Qed.

(** The loop of [fillna], started in the middle of the columns. *)
Lemma fillna_loop_columns value method ix : forall todo done,
  NoDup (map fst (done ++ todo)) ->
  fillna_loop value method (map fst todo) {| index := ix; data := done ++ todo |}
  = (cols ← loop_columns value method
              (assoc_get (done ++ todo) (name closeTick)) todo;
     Ok {| index := ix; data := done ++ cols |}).
Proof.
  induction todo as [|[c s] todo IH]; intros done Hnd.
  - cbn. reflexivity.
  - cbn [map fst fillna_loop]. rewrite fillna_column_spec, loop_columns_cons. cbn [data].
    assert (Hc : c ∉ map fst done).
    { rewrite map_app in Hnd. apply NoDup_app in Hnd as (_ & Hdisj & _).
      intros Hin. apply (Hdisj c Hin). left. }
    destruct (String.eqb_spec c (name closeTick)) as [Hclose|Hnclose].
    + cbn [mbind result_bind].
      assert (Hnd' : NoDup (map fst ((done ++ [(c, s)]) ++ todo)))
        by (rewrite <- app_assoc; exact Hnd).
      replace (done ++ (c, s) :: todo) with ((done ++ [(c, s)]) ++ todo)
        by (rewrite <- app_assoc; reflexivity).
      rewrite (IH (done ++ [(c, s)]) Hnd').
      destruct (loop_columns _ _ _ todo) as [cols|e]; cbn [mbind result_bind];
        [|reflexivity].
      rewrite <- app_assoc. reflexivity.
    + rewrite assoc_get_app_skip by exact Hc. cbn [assoc_get].
      rewrite String.eqb_refl.
      destruct (column_fill _ value method c s) as [s'|e] eqn:Hfill;
        cbn [mbind result_bind]; [|reflexivity].
      unfold setitem. cbn [index data].
      rewrite assoc_set_app_skip by exact Hc. cbn [assoc_set]. rewrite String.eqb_refl.
      assert (Hnd2 : NoDup (map fst ((done ++ [(c, s')]) ++ todo))).
      { rewrite <- app_assoc. rewrite !map_app in *. exact Hnd. }
      rewrite <- (assoc_get_app_replace done c s s' todo (name closeTick) Hnclose).
      replace (done ++ (c, s') :: todo) with ((done ++ [(c, s')]) ++ todo)
        by (rewrite <- app_assoc; reflexivity).
      rewrite (IH (done ++ [(c, s')]) Hnd2).
      destruct (loop_columns _ _ _ todo) as [cols|e]; cbn [mbind result_bind];
        [|reflexivity].
      rewrite <- app_assoc. reflexivity.
Qed.

Lemma loop_columns_no_close value method close l :
  name closeTick ∉ map fst l ->
  loop_columns value method close l = fill_columns value method close l.
Proof.
  induction l as [|[c s] l IH]; intros Hc; [reflexivity|].
  rewrite loop_columns_cons, fill_columns_cons.
  destruct (String.eqb_spec c (name closeTick)) as [->|_].
  - exfalso. apply Hc. left.
  - rewrite IH; [reflexivity|]. intros H. apply Hc. right. exact H.
Qed.

Lemma loop_columns_after_pass value method close l sc :
  NoDup (map fst l) ->
  assoc_get l (name closeTick) = Some sc ->
  loop_columns value method close (assoc_set l (name closeTick) (pad_series sc))
  = fill_columns value method close l.
Proof.
  induction l as [|[c s] l IH]; intros Hnd Hsc; [discriminate|].
  cbn [assoc_get assoc_set] in *. apply NoDup_cons in Hnd as [Hc Hnd].
  destruct (String.eqb_spec c (name closeTick)) as [->|Hne].
  - injection Hsc as ->. rewrite loop_columns_cons, fill_columns_cons.
    rewrite String.eqb_refl. rewrite loop_columns_no_close by exact Hc. reflexivity.
  - rewrite loop_columns_cons, fill_columns_cons.
    destruct (String.eqb_spec c (name closeTick)); [contradiction|].
    rewrite (IH Hnd Hsc). reflexivity.
Qed.

(** The loop of [fillna], which rewrites the frame column after column, is
    the column-wise fill. *)
Lemma fillna_is_fill_frame (df : DataFrame) (value : option FillValue)
    (method : option FillnaOptions) :
  NoDup (columns df) ->
  fillna df value method = fill_frame df value method.
Proof.
  intros Hnd. unfold fillna, fill_frame. rewrite closeTick_fillna_method.
  destruct (has_column df (name closeTick)) eqn:Hh.
  - apply has_column_true in Hh as [sc Hsc]. unfold getitem. rewrite Hsc.
    cbn [mbind result_bind Series_fillna fmap option_fmap option_map].
    assert (Hcols : columns (setitem df (name closeTick) (pad_series sc)) = columns df).
    { unfold columns. cbn. apply assoc_set_keys. eapply assoc_get_Some_key, Hsc. }
    rewrite Hcols. unfold columns, setitem. cbn [index data].
    rewrite <- (assoc_set_keys (data df) (name closeTick) (pad_series sc))
      by (eapply assoc_get_Some_key, Hsc).
    pose proof (fillna_loop_columns value method (index df)
                  (assoc_set (data df) (name closeTick) (pad_series sc)) []) as H.
    cbn [app] in H. rewrite H.
    + rewrite assoc_get_set_eq, loop_columns_after_pass by assumption. reflexivity.
    + rewrite assoc_set_keys by (eapply assoc_get_Some_key, Hsc). exact Hnd.
  - apply has_column_false in Hh. rewrite Hh.
    cbn [mbind result_bind fmap option_fmap option_map].
    destruct df as [ix l]. unfold columns. cbn [index data] in *.
    pose proof (fillna_loop_columns value method ix l []) as H.
    cbn [app] in H. rewrite H by exact Hnd. rewrite Hh.
    rewrite loop_columns_no_close; [reflexivity|].
    intros Hin. apply assoc_get_key in Hin as [s Hs]. congruence.
Qed.

Lemma assoc_get_elem l c s :
  NoDup (map fst l) -> ((c, s) ∈ l <-> assoc_get l c = Some s).
Proof.
  induction l as [|[k s0] l IH]; intros Hnd.
  - split; [intros H; inversion H|discriminate].
  - cbn [map fst] in Hnd. apply NoDup_cons in Hnd as [Hk Hnd]. cbn [assoc_get].
    destruct (String.eqb_spec k c) as [->|Hne].
    + split.
      * intros H. apply elem_of_cons in H as [[= ->]|H]; [reflexivity|].
        exfalso. apply Hk. apply list_elem_of_fmap. exists (c, s). split; [reflexivity|exact H].
      * intros [= ->]. left.
    + rewrite <- (IH Hnd). split.
      * intros H. apply elem_of_cons in H as [[= -> ->]|H]; [contradiction|exact H].
      * intros H. right. exact H.
Qed.

Lemma assoc_get_Permutation l l' c :
  NoDup (map fst l) -> l' ≡ₚ l -> assoc_get l' c = assoc_get l c.
Proof.
  intros Hnd Hp.
  assert (Hnd' : NoDup (map fst l')) by (rewrite Hp; exact Hnd).
  destruct (assoc_get l c) as [s|] eqn:E.
  - apply (assoc_get_elem _ _ _ Hnd'). rewrite Hp. apply (assoc_get_elem _ _ _ Hnd). exact E.
  - destruct (assoc_get l' c) as [s'|] eqn:E'; [|reflexivity].
    apply (assoc_get_elem _ _ _ Hnd') in E'. rewrite Hp in E'.
    apply (assoc_get_elem _ _ _ Hnd) in E'. congruence.
Qed.

Lemma fill_columns_Permutation value method close l l' :
  l' ≡ₚ l ->
  forall r, fill_columns value method close l = Ok r ->
  exists r', fill_columns value method close l' = Ok r' /\ r' ≡ₚ r.
Proof.
  intros Hp. symmetry in Hp.
  induction Hp as [|[c s] l l' Hp IH|[c1 s1] [c2 s2] l|l l' l'' _ IH1 _ IH2]; intros r Hr.
  - exists r. split; [exact Hr|reflexivity].
  - rewrite fill_columns_cons in Hr |- *.
    destruct (if String.eqb c (name closeTick) then _ else _) as [y|]; [|discriminate].
    cbn [mbind result_bind] in Hr |- *.
    destruct (fill_columns value method close l) as [r0|]; [|discriminate].
    destruct (IH r0 eq_refl) as (r0' & -> & Hp'). injection Hr as <-.
    eexists. split; [reflexivity|]. rewrite Hp'. reflexivity.
  - rewrite !fill_columns_cons in Hr |- *.
    destruct (if String.eqb c1 (name closeTick) then _ else _) as [y1|];
      destruct (if String.eqb c2 (name closeTick) then _ else _) as [y2|];
      cbn [mbind result_bind] in Hr |- *; try discriminate;
      destruct (fill_columns value method close l) as [r0|];
      cbn [mbind result_bind] in Hr |- *; try discriminate.
    injection Hr as <-. eexists. split; [reflexivity|]. apply perm_swap.
  - destruct (IH1 r Hr) as (r1 & Hr1 & Hp1).
    destruct (IH2 r1 Hr1) as (r2 & Hr2 & Hp2).
    exists r2. split; [exact Hr2|]. rewrite Hp2. exact Hp1.
Qed.

(** X13: the order of the columns plays no part in what [fillna] fills:
    although the loop rewrites the frame column after column and reads the
    closeTick column while doing so, a frame with the same columns in another
    order is filled whenever the frame is, with the same index and the same
    filled columns. *)
Theorem fillna_column_order (df df' : DataFrame) (value : option FillValue)
    (method : option FillnaOptions) (out : DataFrame) :
  NoDup (columns df) ->
  index df' = index df ->
  data df' ≡ₚ data df ->
  fillna df value method = Ok out ->
  exists out',
    fillna df' value method = Ok out' /\
    index out' = index out /\
    data out' ≡ₚ data out.
Proof.
  intros Hnd Hix Hp H.
  assert (Hnd' : NoDup (columns df')) by (unfold columns; rewrite Hp; exact Hnd).
  rewrite fillna_is_fill_frame in H by exact Hnd.
  rewrite fillna_is_fill_frame by exact Hnd'.
  unfold fill_frame in *.
  rewrite (assoc_get_Permutation (data df) (data df') _ Hnd Hp).
  destruct (fill_columns _ _ _ (data df)) as [r|] eqn:Hr; [|discriminate].
  destruct (fill_columns_Permutation _ _ _ _ _ Hp r Hr) as (r' & -> & Hp').
  injection H as <-. eexists. split; [reflexivity|]. cbn [index data].
  split; [exact Hix|exact Hp'].
Qed.

Lemma fillna_column_order_witness :
  NoDup (columns tick_bars) /\
  fillna tick_bars None (Some bfill) = Ok tick_bars_filled /\
  exists out',
    fillna {| index := index tick_bars; data := reverse (data tick_bars) |}
      None (Some bfill) = Ok out' /\
    data out' ≡ₚ data tick_bars_filled.
Proof.
  split; [exact NoDup_tick_bars|]. split; [exact fillna_tick_bars|].
  destruct (fillna_column_order tick_bars
              {| index := index tick_bars; data := reverse (data tick_bars) |}
              None (Some bfill) tick_bars_filled NoDup_tick_bars eq_refl
              (reverse_Permutation (data tick_bars)) fillna_tick_bars)
    as (out' & Hout' & _ & Hp).
  exists out'. split; [exact Hout'|exact Hp].
Defined.

End FillnaColumnFacts.

(** * [fillna]: shape, values, idempotence *)
Module FillnaShapeFacts.
Import Pandas Data Notions MoreNotions Examples MoreExamples FillnaFacts
  FillnaColumnFacts.
Local Open Scope Z_scope.

Lemma backfill_length s : length (backfill_series s) = length s.
Proof. induction s as [|[v|] s IH]; cbn; [reflexivity| |]; rewrite IH; reflexivity. Qed.

Lemma backfill_keeps s (i : nat) z :
  s !! i = Some (Some z) -> backfill_series s !! i = Some (Some z).
Proof.
  revert i. induction s as [|[x|] s IH]; intros [|i] H; cbn in *;
    try discriminate; auto.
Qed.

Lemma pad_from_idem s : forall last, pad_from last (pad_from last s) = pad_from last s.
Proof.
  induction s as [|[x|] s IH]; intros last; cbn; [reflexivity| |].
  - rewrite IH. reflexivity.
  - destruct last as [v|]; cbn; rewrite IH; reflexivity.
Qed.

Lemma backfill_cons c l :
  backfill_series (c :: l)
  = match c with Some v => Some v | None => hd None (backfill_series l) end
    :: backfill_series l.
Proof. destruct c; reflexivity. Qed.

Lemma backfill_idem s : backfill_series (backfill_series s) = backfill_series s.
Proof.
  induction s as [|c s IH]; [reflexivity|].
  rewrite (backfill_cons c s), backfill_cons, IH. f_equal.
  destruct c as [v|]; [reflexivity|].
  destruct (backfill_series s) as [|[y|] r]; reflexivity.
Qed.

Lemma fill_scalar_idem z s : fill_scalar z (fill_scalar z s) = fill_scalar z s.
Proof. induction s as [|[x|] s IH]; cbn; [reflexivity| |]; f_equal; exact IH. Qed.

Lemma fill_values_idem s : forall v, fill_values v (fill_values v s) = fill_values v s.
Proof.
  induction s as [|[x|] s IH]; intros v; cbn; [reflexivity| |].
  - f_equal. apply IH.
  - destruct v as [|[y|] v]; cbn; f_equal; apply IH.
Qed.

Lemma Series_fillna_length s value method s' :
  Series_fillna s value method = Ok s' -> length s' = length s.
Proof.
  destruct value as [[z|v]|], method as [[]|]; cbn; intros H; try discriminate;
    injection H as <-; unfold pad_series;
    auto using fill_scalar_length, fill_values_length, backfill_length, pad_from_length.
Qed.

Lemma Series_fillna_keeps s value method s' (i : nat) z :
  Series_fillna s value method = Ok s' ->
  s !! i = Some (Some z) -> s' !! i = Some (Some z).
Proof.
  destruct value as [[x|v]|], method as [[]|]; cbn; intros H Hi; try discriminate;
    injection H as <-; unfold pad_series; auto using backfill_keeps, pad_from_keeps.
  - rewrite fill_scalar_lookup, Hi. reflexivity.
  - rewrite (fill_values_lookup _ _ _ _ Hi). reflexivity.
Qed.

Lemma Series_fillna_idem s value method s' :
  Series_fillna s value method = Ok s' -> Series_fillna s' value method = Ok s'.
Proof.
  destruct value as [[x|v]|], method as [[]|]; cbn; intros H; try discriminate;
    injection H as <-; f_equal; unfold pad_series;
    auto using fill_scalar_idem, fill_values_idem, backfill_idem, pad_from_idem.
Qed.

(** [fill_columns], entry by entry. *)
Lemma fill_columns_Forall2 value method close l l' :
  fill_columns value method close l = Ok l' ->
  Forall2 (fun x y =>
             y.1 = x.1 /\
             if String.eqb x.1 (name closeTick) then y.2 = pad_series x.2
             else column_fill close value method x.1 x.2 = Ok y.2) l l'.
Proof.
  revert l'. induction l as [|[c s] l IH]; intros l' H.
  - injection H as <-. constructor.
  - rewrite fill_columns_cons in H.
    destruct (String.eqb_spec c (name closeTick)) as [Hc|Hc].
    + cbn [mbind result_bind] in H.
      destruct (fill_columns value method close l) as [k|] eqn:Hk; [|discriminate].
      injection H as <-. constructor; [|apply IH; reflexivity].
      cbn [fst snd]. split; [reflexivity|]. rewrite (proj2 (String.eqb_eq _ _) Hc). reflexivity.
    + destruct (column_fill close value method c s) as [s'|] eqn:Hs; [|discriminate].
      cbn [mbind result_bind] in H.
      destruct (fill_columns value method close l) as [k|] eqn:Hk; [|discriminate].
      injection H as <-. constructor; [|apply IH; reflexivity].
      cbn [fst snd]. split; [reflexivity|]. rewrite (proj2 (String.eqb_neq _ _) Hc). exact Hs.
Qed.

Lemma fill_columns_keys value method close l l' :
  fill_columns value method close l = Ok l' -> map fst l' = map fst l.
Proof.
  intros H. apply fill_columns_Forall2 in H.
  induction H as [|x y l l' [Hk _] _ IH]; [reflexivity|]. cbn. rewrite Hk, IH. reflexivity.
Qed.

Lemma fill_columns_close value method close l l' :
  fill_columns value method close l = Ok l' ->
  assoc_get l' (name closeTick) = pad_series <$> assoc_get l (name closeTick).
Proof.
  intros H. apply fill_columns_Forall2 in H.
  induction H as [|[c s] [c' s'] l l' [Hk Hv] _ IH]; [reflexivity|].
  cbn [fst snd] in Hk, Hv. subst c'. cbn [assoc_get].
  destruct (String.eqb_spec c (name closeTick)); [subst s'; reflexivity|exact IH].
Qed.

(** A second pass over filled columns changes nothing. *)
Lemma fill_columns_idem value method close l l' :
  fill_columns value method close l = Ok l' ->
  fill_columns value method close l' = Ok l'.
Proof.
  intros H. apply fill_columns_Forall2 in H.
  induction H as [|[c s] [c' s'] l l' [Hk Hv] _ IH]; [reflexivity|].
  cbn [fst snd] in Hk, Hv. subst c'. rewrite fill_columns_cons, IH.
  destruct (String.eqb_spec c (name closeTick)) as [_|_].
  - subst s'. unfold pad_series. rewrite pad_from_idem. reflexivity.
  - rewrite column_fill_arguments in *. rewrite (Series_fillna_idem _ _ _ _ Hv). reflexivity.
Qed.

(** X14: [fillna] keeps the shape of the table: the index, the columns and
    their order, and the length of every column. *)
Theorem fillna_keeps_shape (df : DataFrame) (value : option FillValue)
    (method : option FillnaOptions) (out : DataFrame) :
  NoDup (columns df) ->
  fillna df value method = Ok out ->
  index out = index df /\
  columns out = columns df /\
  forall c s, assoc_get (data df) c = Some s ->
              exists s', assoc_get (data out) c = Some s' /\ length s' = length s.
Proof.
  intros Hnd H. rewrite fillna_is_fill_frame in H by exact Hnd. unfold fill_frame in H.
  destruct (fill_columns _ _ _ (data df)) as [cols|] eqn:Hcols; [|discriminate].
  injection H as <-. cbn [index data]. split; [reflexivity|].
  split; [exact (fill_columns_keys _ _ _ _ _ Hcols)|].
  apply fill_columns_Forall2 in Hcols. clear Hnd.
  induction Hcols as [|[c0 s0] [c1 s1] l l' [Hk Hv] _ IH]; intros c s Hs; [discriminate|].
  cbn [fst snd] in Hk, Hv. subst c1. cbn [assoc_get] in *.
  destruct (String.eqb_spec c0 c) as [->|Hne]; [|exact (IH c s Hs)].
  injection Hs as ->. exists s1. split; [reflexivity|].
  destruct (String.eqb_spec c (name closeTick)).
  - subst s1. apply pad_from_length.
  - rewrite column_fill_arguments in Hv. exact (Series_fillna_length _ _ _ _ Hv).
Qed.

Lemma fillna_keeps_shape_witness :
  NoDup (columns minute_bars) /\
  fillna minute_bars None None = Ok minute_bars_filled /\
  index minute_bars_filled = index minute_bars /\
  columns minute_bars_filled = columns minute_bars.
Proof.
  split; [exact NoDup_minute_bars|]. split; [exact fillna_minute_bars|].
  destruct (fillna_keeps_shape minute_bars None None minute_bars_filled
              NoDup_minute_bars fillna_minute_bars) as (Hidx & Hcols & _).
  split; [exact Hidx|exact Hcols].
Defined.


(** X15: [fillna] only fills: a cell that holds a value holds the same value
    afterwards, in every column. *)
Theorem fillna_keeps_values (df : DataFrame) (value : option FillValue)
    (method : option FillnaOptions) (out : DataFrame) :
  NoDup (columns df) ->
  fillna df value method = Ok out ->
  forall c s (i : nat) z,
    assoc_get (data df) c = Some s ->
    s !! i = Some (Some z) ->
    exists s', assoc_get (data out) c = Some s' /\ s' !! i = Some (Some z).
Proof.
  intros Hnd H c s i z Hs Hi.
  destruct (fillna_spec df value method out Hnd H) as [_ Hspec].
  specialize (Hspec c s Hs).
  destruct (String.eqb_spec c (name closeTick)).
  - exists (pad_series s). split; [exact Hspec|]. apply pad_from_keeps. exact Hi.
  - destruct Hspec as (s' & Hcf & Hout). exists s'. split; [exact Hout|].
    rewrite column_fill_arguments in Hcf. exact (Series_fillna_keeps _ _ _ _ _ _ Hcf Hi).
Qed.

Lemma fillna_keeps_values_witness :
  NoDup (columns minute_bars) /\
  fillna minute_bars None None = Ok minute_bars_filled /\
  assoc_get (data minute_bars) (name closeTick) = Some [None; Some 100; None; Some 105] /\
  exists s', assoc_get (data minute_bars_filled) (name closeTick) = Some s' /\
             s' !! 3%nat = Some (Some 105).
Proof.
  split; [exact NoDup_minute_bars|]. split; [exact fillna_minute_bars|].
  split; [reflexivity|].
  exact (fillna_keeps_values minute_bars None None minute_bars_filled
           NoDup_minute_bars fillna_minute_bars (name closeTick)
           [None; Some 100; None; Some 105] 3%nat 105 eq_refl eq_refl).
Defined.


(** X16: [fillna] is idempotent: filling a filled table again, with the same
    arguments, returns the same table. *)
Theorem fillna_idempotent (df : DataFrame) (value : option FillValue)
    (method : option FillnaOptions) (out : DataFrame) :
  NoDup (columns df) ->
  fillna df value method = Ok out ->
  fillna out value method = Ok out.
Proof.
  intros Hnd H. rewrite fillna_is_fill_frame in H by exact Hnd. unfold fill_frame in H.
  destruct (fill_columns _ _ _ (data df)) as [cols|] eqn:Hcols; [|discriminate].
  injection H as <-.
  pose proof (fill_columns_keys _ _ _ _ _ Hcols) as Hkeys.
  rewrite fillna_is_fill_frame by (unfold columns; cbn [data]; rewrite Hkeys; exact Hnd).
  unfold fill_frame. cbn [index data].
  rewrite (fill_columns_close _ _ _ _ _ Hcols).
  assert (E : pad_series <$> (pad_series <$> assoc_get (data df) (name closeTick))
              = pad_series <$> assoc_get (data df) (name closeTick)).
  { destruct (assoc_get (data df) (name closeTick)); [|reflexivity]. cbn.
    unfold pad_series. rewrite pad_from_idem. reflexivity. }
  rewrite E, (fill_columns_idem _ _ _ _ _ Hcols). reflexivity.
Qed.

Lemma fillna_idempotent_witness :
  NoDup (columns minute_bars) /\
  fillna minute_bars None None = Ok minute_bars_filled /\
  fillna minute_bars_filled None None = Ok minute_bars_filled.
Proof.
  split; [exact NoDup_minute_bars|]. split; [exact fillna_minute_bars|].
  exact (fillna_idempotent minute_bars None None minute_bars_filled
           NoDup_minute_bars fillna_minute_bars).
Defined.

End FillnaShapeFacts.

(** * [fillna]: the exceptions *)
Module FillnaErrorFacts.
Import Pandas Data Notions MoreNotions Examples MoreExamples FillnaFacts
  FillnaColumnFacts FillnaShapeFacts.
Local Open Scope Z_scope.

Lemma fill_columns_ok value method close l :
  (forall c s, (c, s) ∈ l -> c <> name closeTick ->
               exists s', column_fill close value method c s = Ok s') ->
  exists l', fill_columns value method close l = Ok l'.
Proof.
  induction l as [|[c s] l IH]; intros H; [eexists; reflexivity|].
  rewrite fill_columns_cons.
  destruct IH as [l' ->]; [intros c' s' Hin; apply H; right; exact Hin|].
  destruct (String.eqb_spec c (name closeTick)) as [|Hne]; [eexists; reflexivity|].
  destruct (H c s ltac:(left) Hne) as [s' ->]. eexists. reflexivity.
Qed.

Lemma fill_columns_err value method close l e0 :
  (forall c s e, (c, s) ∈ l -> column_fill close value method c s = Err e -> e = e0) ->
  (exists c s e, (c, s) ∈ l /\ c <> name closeTick /\
                 column_fill close value method c s = Err e) ->
  fill_columns value method close l = Err e0.
Proof.
  induction l as [|[c s] l IH]; intros Hall (c1 & s1 & e1 & Hin & Hne & Herr).
  - inversion Hin.
  - rewrite fill_columns_cons.
    destruct (String.eqb_spec c (name closeTick)) as [Hc|Hc].
    + cbn [mbind result_bind]. rewrite IH; [reflexivity| |].
      * intros c' s' e' Hin'. apply Hall. right. exact Hin'.
      * apply elem_of_cons in Hin as [Heq|Hin]; [congruence|]. eauto 7.
    + destruct (column_fill close value method c s) as [s'|e] eqn:Hs.
      * cbn [mbind result_bind]. rewrite IH; [reflexivity| |].
        -- intros c' s'' e' Hin'. apply Hall. right. exact Hin'.
        -- apply elem_of_cons in Hin as [Heq|Hin]; [congruence|]. eauto 7.
      * cbn [mbind result_bind]. f_equal. eapply Hall; [left|exact Hs].
Qed.

Lemma fill_frame_err df value method e0 :
  (forall close c s e, column_fill close value method c s = Err e -> e = e0) ->
  (exists c s e, (c, s) ∈ data df /\ c <> name closeTick /\
     column_fill (pad_series <$> assoc_get (data df) (name closeTick)) value method c s
     = Err e) ->
  fill_frame df value method = Err e0.
Proof.
  intros Hall Hex. unfold fill_frame.
  rewrite (fill_columns_err _ _ _ _ e0); [reflexivity| |exact Hex].
  intros c s e _. apply Hall.
Qed.

Lemma elem_of_data_column df c : c ∈ columns df -> exists s, (c, s) ∈ data df.
Proof.
  unfold columns. intros H. apply list_elem_of_fmap in H as [[c' s] [-> Hin]]. eauto.
Qed.

Lemma column_fill_kinds close value method c s :
  column_fill close value method c s = Series_fillna s value method \/
  column_fill close value method c s = Series_fillna s (Some (Scalar 0)) method \/
  column_fill close value method c s = Series_fillna s value (Some ffill) \/
  exists cl, column_fill close value method c s = Series_fillna s (Some (Values cl)) None.
Proof.
  destruct (decide (c ∈ recognized_columns)) as [Hc|Hc];
    [|left; apply column_fill_unrecognized; exact Hc].
  unfold recognized_columns in Hc.
  apply elem_of_cons in Hc as [->|Hc];
    [right; right; left; destruct close; vm_compute; reflexivity|].
  apply elem_of_app in Hc as [Hc|Hc].
  - destruct close as [cl|].
    + right; right; right. exists cl. apply column_fill_tick_close; exact Hc.
    + right; right; left. apply column_fill_tick_alone; exact Hc.
  - unfold sum_columns in Hc. apply elem_of_app in Hc as [Hc|Hc].
    + right; left. apply column_fill_zero; exact Hc.
    + apply list_elem_of_singleton in Hc as ->.
      right; right; left. apply column_fill_liquidity.
Qed.

Lemma column_fill_no_arguments_err close c s e :
  column_fill close None None c s = Err e -> e = ValueError_must_specify.
Proof.
  destruct (column_fill_kinds close None None c s) as [->|[->|[->|[cl ->]]]];
    cbn; congruence.
Qed.

Lemma column_fill_method_err close value m c s e :
  column_fill close value (Some m) c s = Err e -> e = ValueError_cannot_specify_both.
Proof.
  destruct (column_fill_kinds close value (Some m) c s) as [->|[->|[->|[cl ->]]]];
    destruct value as [[z|v]|]; destruct m; cbn; congruence.
Qed.

Lemma column_fill_value_err close v method c s e :
  column_fill close (Some v) method c s = Err e -> e = ValueError_cannot_specify_both.
Proof.
  destruct (column_fill_kinds close (Some v) method c s) as [->|[->|[->|[cl ->]]]];
    destruct v as [z|v]; destruct method as [[]|]; cbn; congruence.
Qed.

(** X17: without a value and a method, [fillna] returns a table exactly when
    every column is one of the nine recognized ones; a table with any other
    column, a timestamp column included, ends in the ValueError "Must specify
    a fill 'value' or 'method'". *)
Theorem fillna_without_arguments (df : DataFrame) :
  NoDup (columns df) ->
  ((exists out, fillna df None None = Ok out) <->
   Forall (fun c => c ∈ recognized_columns) (columns df)) /\
  (fillna df None None = Err ValueError_must_specify <->
   exists c, c ∈ columns df /\ c ∉ recognized_columns).
Proof.
  intros Hnd. rewrite fillna_is_fill_frame by exact Hnd.
  assert (Hbad : (exists c, c ∈ columns df /\ c ∉ recognized_columns) ->
                 fill_frame df None None = Err ValueError_must_specify).
  { intros (c & Hc & Hn). apply fill_frame_err.
    - intros close c' s e. apply column_fill_no_arguments_err.
    - destruct (elem_of_data_column df c Hc) as [s Hs].
      exists c, s, ValueError_must_specify. split; [exact Hs|]. split.
      + intros ->. apply Hn. left.
      + rewrite column_fill_unrecognized by exact Hn. reflexivity. }
  assert (Hgood : Forall (fun c => c ∈ recognized_columns) (columns df) ->
                  exists out, fill_frame df None None = Ok out).
  { intros Hall. unfold fill_frame.
    destruct (fill_columns_ok None None
                (pad_series <$> assoc_get (data df) (name closeTick)) (data df))
      as [l' ->]; [|eexists; reflexivity].
    intros c s Hin _. apply column_fill_defaults_ok.
    apply (proj1 (Forall_forall _ _) Hall). unfold columns.
    apply list_elem_of_fmap. exists (c, s). split; [reflexivity|exact Hin]. }
  assert (Hdec : Forall (fun c => c ∈ recognized_columns) (columns df) \/
                 exists c, c ∈ columns df /\ c ∉ recognized_columns).
  { destruct (decide (Forall (fun c => c ∈ recognized_columns) (columns df)))
      as [H|H]; [left; exact H|right].
    apply not_Forall_Exists in H; [|intros c; apply _].
    apply Exists_exists in H as (c & Hc & Hn). eauto. }
  split; split.
  - intros [out Hout]. destruct Hdec as [H|H]; [exact H|].
    rewrite (Hbad H) in Hout. discriminate.
  - exact Hgood.
  - intros Herr. destruct Hdec as [H|H]; [|exact H].
    destruct (Hgood H) as [out Hout]. congruence.
  - exact Hbad.
Qed.

Lemma NoDup_bars_with_volume : NoDup (columns bars_with_volume).
Proof. apply (bool_decide_unpack _). vm_compute. reflexivity. Qed.

Lemma fillna_without_arguments_witness :
  NoDup (columns bars_with_volume) /\
  fillna bars_with_volume None None = Err ValueError_must_specify.
Proof.
  split; [exact NoDup_bars_with_volume|].
  apply (proj2 (fillna_without_arguments bars_with_volume NoDup_bars_with_volume)).
  exists "volume"%string. split.
  - apply (bool_decide_unpack _). vm_compute. reflexivity.
  - apply (bool_decide_unpack _). vm_compute. reflexivity.
Defined.

(** X18: with a method from the caller, [fillna] ends in the ValueError "Cannot
    specify both 'value' and 'method'" for every table with a flow column
    (netAmount0/1, inAmount0/1), whatever else the table holds and whatever
    value is passed. *)
Theorem fillna_method_with_flow_column (df : DataFrame) (value : option FillValue)
    (m : FillnaOptions) (c : string) :
  NoDup (columns df) ->
  c ∈ zero_fill_columns -> c ∈ columns df ->
  fillna df value (Some m) = Err ValueError_cannot_specify_both.
Proof.
  intros Hnd Hc Hin. rewrite fillna_is_fill_frame by exact Hnd.
  apply fill_frame_err.
  - intros close c' s e. apply column_fill_method_err.
  - destruct (elem_of_data_column df c Hin) as [s Hs].
    exists c, s, ValueError_cannot_specify_both. split; [exact Hs|]. split.
    + intros ->. unfold zero_fill_columns in Hc. elem_cases Hc.
    + rewrite column_fill_zero by exact Hc. destruct m; reflexivity.
Qed.

Lemma NoDup_flow_bars : NoDup (columns flow_bars).
Proof. apply (bool_decide_unpack _). vm_compute. reflexivity. Qed.

Lemma fillna_method_with_flow_column_witness :
  NoDup (columns flow_bars) /\
  name netAmount0 ∈ zero_fill_columns /\ name netAmount0 ∈ columns flow_bars /\
  fillna flow_bars (Some (Scalar 7)) (Some bfill) = Err ValueError_cannot_specify_both.
Proof.
  assert (H1 : name netAmount0 ∈ zero_fill_columns) by left.
  assert (H2 : name netAmount0 ∈ columns flow_bars) by left.
  split; [exact NoDup_flow_bars|]. split; [exact H1|]. split; [exact H2|].
  exact (fillna_method_with_flow_column flow_bars (Some (Scalar 7)) bfill
           (name netAmount0) NoDup_flow_bars H1 H2).
Defined.

(** X19: with a value from the caller, [fillna] ends in the same ValueError for
    every table with a currentLiquidity column, and for every table with a
    tick column and no closeTick column: the registered forward fill meets
    the caller's value. *)
Theorem fillna_value_with_ffill_column (df : DataFrame) (v : FillValue)
    (method : option FillnaOptions) (c : string) :
  NoDup (columns df) ->
  c ∈ columns df ->
  c = name currentLiquidity \/ (c ∈ tick_columns /\ name closeTick ∉ columns df) ->
  fillna df (Some v) method = Err ValueError_cannot_specify_both.
Proof.
  intros Hnd Hin Hc. rewrite fillna_is_fill_frame by exact Hnd.
  apply fill_frame_err.
  - intros close c' s e. apply column_fill_value_err.
  - destruct (elem_of_data_column df c Hin) as [s Hs].
    exists c, s, ValueError_cannot_specify_both. split; [exact Hs|].
    destruct Hc as [->|[Ht Hno]].
    + split; [discriminate|]. rewrite column_fill_liquidity. destruct v; reflexivity.
    + split; [intros ->; contradiction|].
      assert (E : assoc_get (data df) (name closeTick) = None).
      { apply has_column_false. unfold has_column. apply bool_decide_eq_false. exact Hno. }
      rewrite E. cbn [fmap option_fmap option_map].
      rewrite column_fill_tick_alone by exact Ht. destruct v; reflexivity.
Qed.

Lemma NoDup_liquidity_bars : NoDup (columns liquidity_bars).
Proof. apply (bool_decide_unpack _). vm_compute. reflexivity. Qed.

Lemma fillna_value_with_ffill_column_witness :
  NoDup (columns liquidity_bars) /\
  name currentLiquidity ∈ columns liquidity_bars /\
  fillna liquidity_bars (Some (Scalar 0)) None = Err ValueError_cannot_specify_both.
Proof.
  assert (H2 : name currentLiquidity ∈ columns liquidity_bars) by left.
  split; [exact NoDup_liquidity_bars|]. split; [exact H2|].
  exact (fillna_value_with_ffill_column liquidity_bars (Scalar 0) None
           (name currentLiquidity) NoDup_liquidity_bars H2 (or_introl eq_refl)).
Defined.

(** X20: [get_line_rules_safe] never fails; it returns [EMPTY_RULE] exactly for
    the keys outside the nine recognized columns, "timestamp" and unknown
    keys alike, and a rule with an aggregation method for the nine. *)
Theorem get_line_rules_safe_empty (key : string) :
  (get_line_rules_safe key = EMPTY_RULE <-> key ∉ recognized_columns) /\
  (key ∈ recognized_columns -> is_Some (Rule.agg (get_line_rules_safe key))).
Proof.
  assert (Hrec : key ∈ recognized_columns ->
                 is_Some (Rule.agg (get_line_rules_safe key))).
  { intros H. unfold recognized_columns in H.
    cbn [tick_columns sum_columns zero_fill_columns app] in H.
    elem_cases H; vm_compute; eauto. }
  split; [|exact Hrec]. split.
  - intros E Hin. apply Hrec in Hin. rewrite E in Hin. destruct Hin as [? Hx]. discriminate.
  - intros Hn. destruct (decide (key = name timestamp)) as [->|Hts]; [reflexivity|].
    unfold get_line_rules_safe, LINE_RULES.
    rewrite (not_elem_of_list_to_map_1 (M := gmap string)); [reflexivity|].
    cbn [fmap list_fmap fst]. intros Hin. apply Hn. unfold recognized_columns.
    cbn [tick_columns sum_columns zero_fill_columns app].
    elem_cases Hin; try contradiction; set_solver.
Qed.

End FillnaErrorFacts.

(** * [resample]: the bars *)
Module ResampleShapeFacts.
Import Pandas Data Notions MoreNotions Examples MoreExamples FillnaFacts ResampleFacts
  FillnaColumnFacts FillnaShapeFacts FillnaErrorFacts.
Local Open Scope Z_scope.

Lemma omap_keys (d : gmap string AggMethod) (g : AggMethod -> Series -> Series) l :
  (forall k, k ∈ map fst l -> is_Some (d !! k)) ->
  map fst (omap (fun '(k, s) => m ← d !! k; Some (k, g m s)) l) = map fst l.
Proof.
  induction l as [|[k s] l IH]; intros Hd; [reflexivity|].
  cbn [omap list_omap]. destruct (Hd k ltac:(left)) as [m Hm]. rewrite Hm.
  cbn [mbind option_bind map fst]. f_equal. apply IH.
  intros k' Hk'. apply Hd. right. exact Hk'.
Qed.

Lemma resample_columns df bin_of agg out :
  resample df bin_of agg = Ok out -> columns out = columns df.
Proof.
  unfold resample, Resampler_agg. cbv zeta.
  change (frame (DataFrame_resample df bin_of)) with df.
  rewrite build_agg_dict_dom, elements_empty. intros [= <-].
  unfold columns at 1. cbn [data]. apply omap_keys.
  intros k Hk. rewrite build_agg_dict_lookup, bool_decide_eq_true_2 by exact Hk. eauto.
Qed.

(** Every column of the bars is the aggregate of a column of the input. *)
Lemma resample_column_inv df bin_of agg out c s' :
  resample df bin_of agg = Ok out ->
  assoc_get (data out) c = Some s' ->
  exists s, assoc_get (data df) c = Some s /\
            s' = aggregate_column (DataFrame_resample df bin_of)
                   (agg_method_of (default ∅ agg) c) s.
Proof.
  intros Hout Hc. destruct (resample_ok df bin_of agg) as (out' & Hout' & _ & Hcol).
  assert (out' = out) by congruence. subst out'.
  pose proof (resample_columns _ _ _ _ Hout) as Hcols.
  apply assoc_get_Some_key in Hc as Hkey. fold (columns out) in Hkey.
  rewrite Hcols in Hkey. destruct (assoc_get_key _ _ Hkey) as [s Hs].
  exists s. split; [exact Hs|]. rewrite (Hcol c s Hs) in Hc. congruence.
Qed.

Lemma aggregate_column_length r m s : length (aggregate_column r m s) = length (bars (bins r)).
Proof. unfold aggregate_column. apply length_map. Qed.

Lemma aggregate_column_lookup r m s (i : nat) k :
  bars (bins r) !! i = Some k ->
  aggregate_column r m s !! i
  = Some (aggregate (dtype_of s) m (cells_in_bar (bins r) s k)).
Proof. intros H. unfold aggregate_column. rewrite list_lookup_fmap, H. reflexivity. Qed.

Lemma cells_in_bar_elem bins : forall (s : Series) (j : nat) k c,
  bins !! j = Some k -> s !! j = Some c -> c ∈ cells_in_bar bins s k.
Proof.
  induction bins as [|b bins IH]; intros s j k c Hb Hs; [destruct j; discriminate|].
  destruct s as [|c0 s]; [destruct j; discriminate|]. cbn [cells_in_bar].
  destruct j as [|j].
  - cbn in Hb, Hs. injection Hb as ->. injection Hs as ->. rewrite Z.eqb_refl. left.
  - cbn in Hb, Hs. destruct (b =? k); [right|]; eapply IH; eassumption.
Qed.

Lemma cells_in_bar_empty bins : forall (s : Series) k,
  k ∉ bins -> cells_in_bar bins s k = [].
Proof.
  induction bins as [|b bins IH]; intros s k Hk; [reflexivity|].
  destruct s as [|c s]; [reflexivity|]. cbn [cells_in_bar].
  destruct (Z.eqb_spec b k) as [->|_]; [exfalso; apply Hk; left|].
  apply IH. intros H. apply Hk. right. exact H.
Qed.

Lemma present_elem (cells : list (option Z)) v : Some v ∈ cells -> v ∈ present cells.
Proof.
  intros H. unfold present. apply list_elem_of_omap. exists (Some v). split; [exact H|reflexivity].
Qed.

Lemma min_list_le l v : v ∈ l -> exists m, min_list l = Some m /\ m <= v.
Proof.
  destruct l as [|x l]; intros H; [inversion H|]. eexists. split; [reflexivity|].
  apply (foldr_min_max_bounds x l v H).
Qed.

Lemma max_list_ge l v : v ∈ l -> exists m, max_list l = Some m /\ v <= m.
Proof.
  destruct l as [|x l]; intros H; [inversion H|]. eexists. split; [reflexivity|].
  apply (foldr_min_max_bounds x l v H).
Qed.

Lemma last_is_Some {A} (l : list A) x : x ∈ l -> is_Some (last l).
Proof.
  intros H. destruct l as [|y l] using rev_ind; [inversion H|].
  rewrite last_snoc. eauto.
Qed.

Lemma row_bar df bin_of (j : nat) t :
  index df !! j = Some t ->
  bins (DataFrame_resample df bin_of) !! j = Some (bin_of t) /\
  exists i : nat, bars (bins (DataFrame_resample df bin_of)) !! i = Some (bin_of t).
Proof.
  intros Ht. cbn [bins DataFrame_resample].
  assert (Hb : map bin_of (index df) !! j = Some (bin_of t))
    by (rewrite list_lookup_fmap, Ht; reflexivity).
  split; [exact Hb|]. apply list_elem_of_lookup, bars_cover.
  eapply list_elem_of_lookup_2, Hb.
Qed.

Lemma resample_raw_records : resample raw_records (fixed_width 60) None = Ok minute_bars.
Proof. vm_compute. reflexivity. Qed.




(** X22: the lowestTick of a bar is at most the lowestTick of every record of
    the bar, and the highestTick of a bar is at least the highestTick of
    every record of the bar: a record with a value gives its bar a value. *)
Theorem resample_low_high (df : DataFrame) (bin_of : Z -> Z)
    (agg : option (gmap string AggMethod)) (c : string) (s : Series)
    (j : nat) (t v : Z) :
  c = name lowestTick \/ c = name highestTick ->
  assoc_get (data df) c = Some s ->
  index df !! j = Some t ->
  s !! j = Some (Some v) ->
  exists out s' (i : nat) m,
    resample df bin_of agg = Ok out /\
    assoc_get (data out) c = Some s' /\
    index out !! i = Some (bin_of t) /\
    s' !! i = Some (Some m) /\
    (c = name lowestTick -> m <= v) /\
    (c = name highestTick -> v <= m).
Proof.
  intros Hc Hs Ht Hv.
  destruct (resample_ok df bin_of agg) as (out & Hout & Hidx & Hcol).
  destruct (row_bar df bin_of j t Ht) as (Hb & i & Hi).
  pose proof (present_elem _ _ (cells_in_bar_elem _ _ _ _ _ Hb Hv)) as Hin.
  destruct Hc as [-> | ->].
  - destruct (min_list_le _ _ Hin) as (m & Hm & Hle).
    exists out, (aggregate_column (DataFrame_resample df bin_of) agg_min s), i, m.
    split; [exact Hout|]. split; [exact (Hcol _ _ Hs)|].
    split; [rewrite Hidx; exact Hi|]. split.
    + rewrite (aggregate_column_lookup _ _ _ _ _ Hi). cbn [aggregate]. rewrite Hm. reflexivity.
    + split; [intros _; exact Hle|discriminate].
  - destruct (max_list_ge _ _ Hin) as (m & Hm & Hle).
    exists out, (aggregate_column (DataFrame_resample df bin_of) agg_max s), i, m.
    split; [exact Hout|]. split; [exact (Hcol _ _ Hs)|].
    split; [rewrite Hidx; exact Hi|]. split.
    + rewrite (aggregate_column_lookup _ _ _ _ _ Hi). cbn [aggregate]. rewrite Hm. reflexivity.
    + split; [discriminate|intros _; exact Hle].
Qed.

Lemma resample_low_high_witness :
  assoc_get (data raw_records) (name lowestTick) = Some [None; Some 80; Some 95] /\
  exists out s' (i : nat) m,
    resample raw_records (fixed_width 60) None = Ok out /\
    assoc_get (data out) (name lowestTick) = Some s' /\
    index out !! i = Some 1 /\
    s' !! i = Some (Some m) /\
    m <= 80.
Proof.
  split; [reflexivity|].
  destruct (resample_low_high raw_records (fixed_width 60) None (name lowestTick)
              [None; Some 80; Some 95] 1 70 80 (or_introl eq_refl) eq_refl eq_refl eq_refl)
    as (out & s' & i & m & Hout & Hcol & Hi & Hm & Hle & _).
  exists out, s', i, m. split; [exact Hout|]. split; [exact Hcol|].
  split; [exact Hi|]. split; [exact Hm|]. apply Hle. reflexivity.
Defined.

Lemma agg_method_of_tick agg c :
  c ∈ name closeTick :: tick_columns -> agg_method_of agg c <> agg_sum.
Proof.
  intros Hc. unfold tick_columns in Hc. elem_cases Hc; vm_compute; discriminate.
Qed.

Lemma aggregate_nil d m : m <> agg_sum -> aggregate d m [] = None.
Proof. destruct m; [contradiction|reflexivity..]. Qed.

(** X23: a bar into which no record falls has 0 in the five sum columns,
    currentLiquidity included, and a missing value in the four tick
    columns. *)
Theorem resample_empty_bar (df : DataFrame) (bin_of : Z -> Z)
    (agg : option (gmap string AggMethod)) (out : DataFrame) (i : nat) (k : Z)
    (c : string) (s' : Series) :
  resample df bin_of agg = Ok out ->
  index out !! i = Some k ->
  (forall t, t ∈ index df -> bin_of t <> k) ->
  assoc_get (data out) c = Some s' ->
  (c ∈ sum_columns -> s' !! i = Some (Some 0)) /\
  (c ∈ name closeTick :: tick_columns -> s' !! i = Some None).
Proof.
  intros Hout Hi Hk Hc.
  destruct (resample_column_inv _ _ _ _ _ _ Hout Hc) as (s & Hs & ->).
  destruct (resample_ok df bin_of agg) as (out' & Hout' & Hidx & _).
  assert (out' = out) by congruence. subst out'. rewrite Hidx in Hi.
  rewrite (aggregate_column_lookup _ _ _ i k) by exact Hi.
  rewrite cells_in_bar_empty.
  - split; intros Hkind.
    + rewrite agg_method_of_sum by exact Hkind. reflexivity.
    + rewrite aggregate_nil; [reflexivity|]. apply agg_method_of_tick. exact Hkind.
  - cbn [bins DataFrame_resample]. intros Hin.
    apply list_elem_of_fmap in Hin as (t & -> & Ht). exact (Hk t Ht eq_refl).
Qed.

Lemma resample_empty_bar_witness :
  resample raw_records (fixed_width 60) None = Ok minute_bars /\
  index minute_bars !! 2%nat = Some 2 /\
  (forall t, t ∈ index raw_records -> fixed_width 60 t <> 2) /\
  assoc_get (data minute_bars) (name currentLiquidity)
  = Some [Some 1000; Some 1000; Some 0; Some 1200] /\
  [Some 1000; Some 1000; Some 0; Some 1200] !! 2%nat = Some (Some 0).
Proof.
  assert (H : forall t, t ∈ index raw_records -> fixed_width 60 t <> 2).
  { intros t Ht. cbn [index raw_records] in Ht. elem_cases Ht; vm_compute; discriminate. }
  split; [exact resample_raw_records|]. split; [reflexivity|]. split; [exact H|].
  split; [reflexivity|].
  apply (resample_empty_bar raw_records (fixed_width 60) None minute_bars 2 2
           (name currentLiquidity) _ resample_raw_records eq_refl H eq_refl).
  right. right. right. right. left.
Defined.

End ResampleShapeFacts.

(** * [resample] then [fillna] *)
Module PipelineFacts.
Import Pandas Data Notions MoreNotions Examples MoreExamples FillnaFacts ResampleFacts
  FillnaColumnFacts FillnaShapeFacts FillnaErrorFacts ResampleShapeFacts.
Local Open Scope Z_scope.

Lemma pad_from_no_missing s : forall last, no_missing s -> pad_from last s = s.
Proof.
  induction s as [|c s IH]; intros last H; [reflexivity|].
  apply Forall_cons in H as [[v ->] H]. cbn [pad_from]. f_equal. apply IH. exact H.
Qed.

Lemma pad_series_head v s : no_missing (pad_series (Some v :: s)).
Proof.
  unfold pad_series. cbn [pad_from]. apply Forall_cons. split; [eauto|apply pad_from_some].
Qed.

Lemma fill_values_no_missing s : forall v,
  no_missing v -> (length s <= length v)%nat -> no_missing (fill_values v s).
Proof.
  induction s as [|c s IH]; intros v Hv Hlen; [constructor|].
  destruct v as [|x v]; [cbn in Hlen; lia|].
  apply Forall_cons in Hv as [Hx Hv]. cbn [fill_values hd tl]. apply Forall_cons. split.
  - destruct c; [eauto|exact Hx].
  - apply IH; [exact Hv|cbn in Hlen; lia].
Qed.

Lemma aggregate_sum_no_missing r s : no_missing (aggregate_column r agg_sum s).
Proof.
  unfold aggregate_column, no_missing. apply Forall_fmap, Forall_forall.
  intros k _. cbn. eauto.
Qed.

Lemma foldr_min_least (x : Z) l b :
  b ∈ x :: l -> (forall b', b' ∈ x :: l -> b <= b') -> foldr Z.min x l = b.
Proof.
  intros Hb Hle. pose proof (foldr_min_max_bounds x l b Hb) as [H1 _].
  assert (Hin : foldr Z.min x l ∈ x :: l).
  { clear. induction l as [|y l IH]; [left|]. cbn [foldr].
    destruct (Z.min_spec y (foldr Z.min x l)) as [[_ ->]|[_ ->]].
    - right. left.
    - apply elem_of_cons in IH as [->|IH]; [left|right; right; exact IH]. }
  specialize (Hle _ Hin). lia.
Qed.

(** The first bar is the bar of the earliest record. *)
Lemma bars_head bins b :
  b ∈ bins -> (forall b', b' ∈ bins -> b <= b') ->
  exists rest, bars bins = b :: rest.
Proof.
  destruct bins as [|x l]; intros Hb Hle; [inversion Hb|].
  unfold bars. cbv zeta. rewrite (foldr_min_least x l b Hb Hle).
  pose proof (foldr_min_max_bounds x l b Hb) as [_ H2].
  rewrite seqZ_cons by lia. eauto.
Qed.

(** X24: bars made by [resample] and filled by [fillna] without arguments have
    no missing value, in any column, when the columns are recognized ones
    and the earliest bar holds a record with a closing tick. *)
Theorem resample_then_fillna_complete (df : DataFrame) (bin_of : Z -> Z)
    (agg : option (gmap string AggMethod)) (cl : Series) (j : nat) (t v : Z) :
  NoDup (columns df) ->
  Forall (fun c => c ∈ recognized_columns) (columns df) ->
  assoc_get (data df) (name closeTick) = Some cl ->
  index df !! j = Some t ->
  cl !! j = Some (Some v) ->
  Forall (fun t' => bin_of t <= bin_of t') (index df) ->
  exists bars_df out,
    resample df bin_of agg = Ok bars_df /\
    fillna bars_df None None = Ok out /\
    columns out = columns df /\
    index out = index bars_df /\
    forall c s', assoc_get (data out) c = Some s' ->
                 no_missing s' /\ length s' = length (index out).
Proof.
  intros Hnd Hrec Hcl Ht Hv Hfirst.
  destruct (resample_ok df bin_of agg) as (bd & Hbd & Hidx & Hcol).
  pose proof (resample_columns _ _ _ _ Hbd) as Hcols.
  assert (Hnd' : NoDup (columns bd)) by (rewrite Hcols; exact Hnd).
  destruct (fillna_ok bd None None) as [out Hout].
  { intros c s close Hc _. apply column_fill_defaults_ok.
    rewrite Hcols in Hc. exact (proj1 (Forall_forall _ _) Hrec c Hc). }
  destruct (fillna_spec bd None None out Hnd' Hout) as [Hcols' Hspec].
  assert (Hix : index out = index bd).
  { rewrite fillna_is_fill_frame in Hout by exact Hnd'. unfold fill_frame in Hout.
    destruct (fill_columns _ _ _ _); [|discriminate]. cbn in Hout.
    injection Hout as <-. reflexivity. }
  exists bd, out. split; [exact Hbd|]. split; [exact Hout|].
  split; [congruence|]. split; [exact Hix|].
  (* the closeTick column of the bars starts with a value *)
  set (R := DataFrame_resample df bin_of) in *.
  set (clb := aggregate_column R (agg_method_of (default ∅ agg) (name closeTick)) cl).
  pose proof (Hcol _ _ Hcl) as Hclb. fold clb in Hclb.
  assert (Hclb_len : length clb = length (bars (bins R)))
    by apply aggregate_column_length.
  assert (Hfilled : no_missing (pad_series clb)).
  { destruct (row_bar df bin_of j t Ht) as (Hb & _). fold R in Hb.
    destruct (bars_head (bins R) (bin_of t)) as [rest Hrest].
    - eapply list_elem_of_lookup_2, Hb.
    - intros b' Hb'. cbn [bins R DataFrame_resample] in Hb'.
      apply list_elem_of_fmap in Hb' as (t' & -> & Ht').
      exact (proj1 (Forall_forall _ _) Hfirst t' Ht').
    - unfold clb, aggregate_column. rewrite Hrest. cbn [map].
      change (agg_method_of (default ∅ agg) (name closeTick)) with agg_last.
      cbn [aggregate].
      destruct (last_is_Some (present (cells_in_bar (bins R) cl (bin_of t))) v) as [w ->].
      + apply present_elem. eapply cells_in_bar_elem; eassumption.
      + apply pad_series_head. }
  intros c s' Hs'.
  apply assoc_get_Some_key in Hs' as Hkey. fold (columns out) in Hkey.
  rewrite Hcols' in Hkey. destruct (assoc_get_key _ _ Hkey) as [sb Hsb].
  destruct (resample_column_inv _ _ _ _ _ _ Hbd Hsb) as (s & Hs & Esb). fold R in Esb.
  assert (Hsb_len : length sb = length (index out)).
  { rewrite Esb, aggregate_column_length, Hix, Hidx. reflexivity. }
  specialize (Hspec c sb Hsb).
  assert (Hc : c ∈ recognized_columns).
  { apply (proj1 (Forall_forall _ _) Hrec). rewrite <- Hcols. exact Hkey. }
  destruct (String.eqb_spec c (name closeTick)) as [->|Hne].
  - rewrite Hs' in Hspec. injection Hspec as ->.
    rewrite Hclb in Hsb. injection Hsb as <-.
    split; [exact Hfilled|]. unfold pad_series. rewrite pad_from_length. exact Hsb_len.
  - destruct Hspec as (s'' & Hfill & Hs''). rewrite Hs' in Hs''. injection Hs'' as <-.
    rewrite Hclb in Hfill. cbn [fmap option_fmap option_map] in Hfill.
    unfold recognized_columns in Hc.
    apply elem_of_cons in Hc as [?|Hc]; [contradiction|].
    apply elem_of_app in Hc as [Hc|Hc].
    + rewrite column_fill_tick_close in Hfill by exact Hc. cbn in Hfill.
      injection Hfill as <-. split.
      * apply fill_values_no_missing; [exact Hfilled|].
        unfold pad_series. rewrite pad_from_length, Hclb_len, Esb, aggregate_column_length.
        reflexivity.
      * rewrite fill_values_length. exact Hsb_len.
    + unfold sum_columns in Hc. apply elem_of_app in Hc as [Hc|Hc].
      * rewrite column_fill_zero in Hfill by exact Hc. cbn in Hfill.
        injection Hfill as <-. split; [apply fill_scalar_no_missing|].
        rewrite fill_scalar_length. exact Hsb_len.
      * apply list_elem_of_singleton in Hc as ->.
        rewrite column_fill_liquidity in Hfill. cbn in Hfill. injection Hfill as <-.
        change (agg_method_of (default ∅ agg) (name currentLiquidity)) with agg_sum in Esb.
        unfold pad_series.
        rewrite pad_from_no_missing by (rewrite Esb; apply aggregate_sum_no_missing).
        split; [rewrite Esb; apply aggregate_sum_no_missing|exact Hsb_len].
Qed.

Lemma NoDup_raw_complete : NoDup (columns raw_complete).
Proof. apply (bool_decide_unpack _). vm_compute. reflexivity. Qed.

Lemma recognized_raw_complete :
  Forall (fun c => c ∈ recognized_columns) (columns raw_complete).
Proof. apply (bool_decide_unpack _). vm_compute. reflexivity. Qed.

Lemma resample_then_fillna_complete_witness :
  NoDup (columns raw_complete) /\
  Forall (fun c => c ∈ recognized_columns) (columns raw_complete) /\
  assoc_get (data raw_complete) (name closeTick) = Some [Some 98; Some 100; Some 105] /\
  Forall (fun t' => fixed_width 60 0 <= fixed_width 60 t') (index raw_complete) /\
  exists bars_df out,
    resample raw_complete (fixed_width 60) None = Ok bars_df /\
    fillna bars_df None None = Ok out /\
    forall c s', assoc_get (data out) c = Some s' -> no_missing s'.
Proof.
  assert (H : Forall (fun t' => fixed_width 60 0 <= fixed_width 60 t') (index raw_complete)).
  { repeat constructor; vm_compute; discriminate. }
  split; [exact NoDup_raw_complete|]. split; [exact recognized_raw_complete|].
  split; [reflexivity|]. split; [exact H|].
  destruct (resample_then_fillna_complete raw_complete (fixed_width 60) None
              [Some 98; Some 100; Some 105] 0 0 98
              NoDup_raw_complete recognized_raw_complete eq_refl eq_refl eq_refl H)
    as (bd & out & Hbd & Hout & _ & _ & Hall).
  exists bd, out. split; [exact Hbd|]. split; [exact Hout|].
  intros c s' Hs'. exact (proj1 (Hall c s' Hs')).
Defined.

End PipelineFacts.
